(** * id-watermark: the watermark renderer and the batch coordinator

    A shallow embedding of [pkg/watermark/watermark.go] (the renderer:
    [ValidateConfig], [NewProcessor], [ProcessFile], [applyWatermark]) and
    of the batch coordinator that lives in the same package
    ([NewBatchProcessor], [ProcessDirectory], [processFiles], [worker],
    [findImageFiles]), followed by the properties the design document
    states about them.

    Conventions.
    - Go [int] is [Z]; where the code does arithmetic on it the 64-bit
      wrap-around is written out ([wrap_int]).
    - Go [string] is a byte string ([string] of [ascii]).
    - Go [float64] / [vg.Length] is [float64] below: exact rationals
      extended with the three IEEE-754 special values.
    - A Go [error] result is [option error], [None] being [nil].
    - Everything that lives outside the repository (the operating system,
      the codecs, the font metrics, the vector canvas) is a field of the
      class [Externals]. *)

From Stdlib Require Import ZArith QArith Lia Lqa List String Ascii Bool.
From Stdlib Require Import Permutation Relations Qround Qfield Morphisms.
From AAC_tactics Require Import AAC.
Import ListNotations.

Set Warnings "-register-all".
Close Scope Q_scope.

(* ================================================================== *)
(** * Part I. The embedding                                            *)
(* ================================================================== *)

(** ** Go integers *)

Definition max_int : Z := (2 ^ 63 - 1)%Z.
Definition min_int : Z := (- 2 ^ 63)%Z.

(** Two's complement wrap-around of a 64-bit [int]. *)
Definition wrap_int (z : Z) : Z := ((z + 2 ^ 63) mod 2 ^ 64 - 2 ^ 63)%Z.

(** [len(s)] of a slice, as an [int]. *)
Definition len {A : Type} (l : list A) : Z := Z.of_nat (List.length l).

(** ** Go strings *)

Module GoString.

Open Scope string_scope.

Definition byte (n : N) : ascii := ascii_of_N n.

Fixpoint bytes (l : list N) : string :=
  match l with
  | [] => EmptyString
  | n :: l' => String (byte n) (bytes l')
  end.

Fixpoint rev_append (s acc : string) : string :=
  match s with
  | EmptyString => acc
  | String c s' => rev_append s' (String c acc)
  end.

Definition rev (s : string) : string := rev_append s EmptyString.

(** [strip p s] removes the prefix [p] from [s] when [s] starts with it. *)
Fixpoint strip (p s : string) : option string :=
  match p with
  | EmptyString => Some s
  | String a p' =>
      match s with
      | EmptyString => None
      | String b s' => if Ascii.eqb a b then strip p' s' else None
      end
  end.

(** UTF-8 encoding of a code point below 0x10000 (all that is needed for
    the white space table). *)
Definition utf8 (r : N) : string :=
  (if r <? 128 then bytes [r]
   else if r <? 2048 then bytes [192 + r / 64; 128 + r mod 64]
   else bytes [224 + r / 4096; 128 + (r / 64) mod 64; 128 + r mod 64])%N.

(** The code points for which [unicode.IsSpace] holds: '\t', '\n', '\v',
    '\f', '\r', ' ', U+0085, U+00A0 and the other White_Space runes. *)
Definition white_space : list N :=
  [9; 10; 11; 12; 13; 32; 133; 160; 5760;
   8192; 8193; 8194; 8195; 8196; 8197; 8198; 8199; 8200; 8201; 8202;
   8232; 8233; 8239; 8287; 12288]%N.

(** Removes one leading white space rune, if there is one. *)
Fixpoint strip_any (table : list string) (s : string) : option string :=
  match table with
  | [] => None
  | p :: table' =>
      match strip p s with
      | Some s' => Some s'
      | None => strip_any table' s
      end
  end.

Fixpoint trim_left (table : list string) (fuel : nat) (s : string) : string :=
  match fuel with
  | O => s
  | S fuel' =>
      match strip_any table s with
      | Some s' => trim_left table fuel' s'
      | None => s
      end
  end.

(** [strings.TrimSpace]: all leading and trailing white space removed. *)
Definition TrimSpace (s : string) : string :=
  let l := trim_left (map utf8 white_space) (String.length s) s in
  rev (trim_left (map (fun r => rev (utf8 r)) white_space)
         (String.length l) (rev l)).

(** [strings.ToLower] on the ASCII letters. (The library also maps
    letters outside ASCII; the only ones it maps into ASCII are U+212A to
    'k' and U+0130 to 'i', neither of which occurs in the extensions the
    code compares against, so the comparisons below are unaffected.) *)
Definition lower (c : ascii) : ascii :=
  let n := N_of_ascii c in
  if andb (65 <=? n)%N (n <=? 90)%N then ascii_of_N (n + 32) else c.

Fixpoint ToLower (s : string) : string :=
  match s with
  | EmptyString => EmptyString
  | String c s' => String (lower c) (ToLower s')
  end.

(** [filepath.Ext]: scanning from the end, the suffix that starts at the
    last dot of the last path element. *)
Fixpoint ext_scan (r acc : string) : string :=
  match r with
  | EmptyString => EmptyString
  | String c r' =>
      if Ascii.eqb c "/"%char then EmptyString
      else if Ascii.eqb c "."%char then String c acc
      else ext_scan r' (String c acc)
  end.

Definition Ext (path : string) : string := ext_scan (rev path) EmptyString.

End GoString.

(** ** Go float64

    Finite values are exact rationals: the rounding of finite results and
    their overflow to an infinity are not modelled, and neither is the
    sign of zero. The special values and the IEEE-754 rules for them are:
    every comparison with [NaN] is false, an operation on [NaN] is [NaN],
    [Inf - Inf] and [0 * Inf] are [NaN]. *)

Module F64.

Local Open Scope Q_scope.

Inductive float64 : Type :=
| Fin (q : Q)
| PInf
| NInf
| NaN.

Definition Qltb (a b : Q) : bool := negb (Qle_bool b a).

Definition of_int (z : Z) : float64 := Fin (inject_Z z).

Definition lt (x y : float64) : bool :=
  match x, y with
  | NaN, _ | _, NaN => false
  | Fin a, Fin b => Qltb a b
  | Fin _, PInf => true
  | Fin _, NInf => false
  | PInf, _ => false
  | NInf, NInf => false
  | NInf, _ => true
  end.

Definition gt (x y : float64) : bool := lt y x.

Definition neg (x : float64) : float64 :=
  match x with
  | Fin a => Fin (- a)
  | PInf => NInf
  | NInf => PInf
  | NaN => NaN
  end.

Definition add (x y : float64) : float64 :=
  match x, y with
  | NaN, _ | _, NaN => NaN
  | Fin a, Fin b => Fin (a + b)
  | PInf, NInf | NInf, PInf => NaN
  | PInf, _ | _, PInf => PInf
  | NInf, _ | _, NInf => NInf
  end.

Definition sub (x y : float64) : float64 := add x (neg y).

(** An infinity times a finite value. *)
Definition scale_inf (pos : bool) (a : Q) : float64 :=
  if Qltb 0 a then (if pos then PInf else NInf)
  else if Qltb a 0 then (if pos then NInf else PInf)
  else NaN.

Definition mul (x y : float64) : float64 :=
  match x, y with
  | NaN, _ | _, NaN => NaN
  | Fin a, Fin b => Fin (a * b)
  | PInf, Fin a | Fin a, PInf => scale_inf true a
  | NInf, Fin a | Fin a, NInf => scale_inf false a
  | PInf, PInf | NInf, NInf => PInf
  | PInf, NInf | NInf, PInf => NInf
  end.

Definition div (x y : float64) : float64 :=
  match x, y with
  | NaN, _ | _, NaN => NaN
  | Fin a, Fin b =>
      if Qeq_bool b 0 then scale_inf true a else Fin (a / b)
  | Fin _, (PInf | NInf) => Fin 0
  | PInf, Fin b => if Qltb b 0 then NInf else PInf
  | NInf, Fin b => if Qltb b 0 then PInf else NInf
  | (PInf | NInf), (PInf | NInf) => NaN
  end.

(** The conversion [int(x)]: truncation toward zero; outside the range of
    [int] (and for the special values) the result is the one amd64
    produces, the smallest [int]. *)
Definition to_int (x : float64) : Z :=
  match x with
  | Fin a =>
      let t := Z.quot (Qnum a) (Zpos (Qden a)) in
      if andb (Z.leb min_int t) (Z.leb t max_int) then t else min_int
  | _ => min_int
  end.



End F64.

Export F64.

Declare Scope f64_scope.
Delimit Scope f64_scope with f64.
Bind Scope f64_scope with float64.
Infix "+" := F64.add : f64_scope.
Infix "-" := F64.sub : f64_scope.
Infix "*" := F64.mul : f64_scope.
Infix "/" := F64.div : f64_scope.
Notation "- x" := (F64.neg x) : f64_scope.
Infix "<?" := F64.lt : f64_scope.
Infix ">?" := F64.gt : f64_scope.

(** A float64 literal with an integer value. *)
Definition lit (z : Z) : float64 := F64.of_int z.

(** ** Go errors *)

(** [fmt.Errorf] values: the format string, possibly with the one
    argument it formats, possibly with the cause it wraps ([%w]). Errors
    raised by the libraries are [Errorf] values too. *)
Inductive error : Type :=
| Errorf (msg : string)
| ErrorfInt (msg : string) (arg : Z)
| ErrorfStr (msg : string) (arg : string)
| ErrorfFloat (msg : string) (arg : float64)
| Wrapf (msg : string) (cause : error).

(** ** Results of fallible calls *)

Inductive result (A : Type) : Type :=
| Ok (a : A)
| Err (e : error).

Arguments Ok {A} a.
Arguments Err {A} e.

(** ** Images ([image], [golang.org/x/image/draw]) *)

Module Img.

Local Open Scope Z_scope.

Record Point : Type := { X : Z; Y : Z }.

Record Rectangle : Type := { Min : Point; Max : Point }.

(** [Rectangle.Dx] and [Rectangle.Dy]. *)
Definition Dx (r : Rectangle) : Z := wrap_int (X (Max r) - X (Min r)).
Definition Dy (r : Rectangle) : Z := wrap_int (Y (Max r) - Y (Min r)).

(** [Rectangle.Size]. *)
Definition Size (r : Rectangle) : Point := {| X := Dx r; Y := Dy r |}.

(** [image.Rect]: the corners are put in order. *)
Definition Rect (x0 y0 x1 y1 : Z) : Rectangle :=
  let (xa, xb) := if x1 <? x0 then (x1, x0) else (x0, x1) in
  let (ya, yb) := if y1 <? y0 then (y1, y0) else (y0, y1) in
  {| Min := {| X := xa; Y := ya |}; Max := {| X := xb; Y := yb |} |}.

(** [color.RGBA], each channel a [uint8]. *)
Record RGBA : Type := { R : Z; G : Z; B : Z; A : Z }.

Definition transparent : RGBA := {| R := 0; G := 0; B := 0; A := 0 |}.

(** An [image.Image]: its bounds and the colour at each point. *)
Record Image : Type := { Bounds : Rectangle; At : Z -> Z -> RGBA }.

Definition inside (r : Rectangle) (x y : Z) : bool :=
  (X (Min r) <=? x) && (x <? X (Max r)) && (Y (Min r) <=? y) && (y <? Y (Max r)).

(** [image.NewRGBA]. *)
Definition NewRGBA (r : Rectangle) : Image :=
  {| Bounds := r; At := fun _ _ => transparent |}.

(** [draw.Draw dst r src sp draw.Src]: [r.Min] in [dst] is aligned with
    [sp] in [src]; the part of [r] that lies in [dst] and whose source
    point lies in [src] is replaced. *)
Definition Draw (dst : Image) (r : Rectangle) (src : Image) (sp : Point) : Image :=
  {| Bounds := Bounds dst;
     At := fun x y =>
       let sx := x - X (Min r) + X sp in
       let sy := y - Y (Min r) + Y sp in
       if inside (Bounds dst) x y && inside r x y && inside (Bounds src) sx sy
       then At src sx sy
       else At dst x y |}.

(** Same bounds, and the same colour at every point of them. *)
Definition pixel_identical (a b : Image) : Prop :=
  Bounds a = Bounds b /\
  forall x y, inside (Bounds a) x y = true -> At a x y = At b x y.

End Img.

Export Img.

(** ** Lengths, fonts and the vector canvas ([gonum.org/v1/plot]) *)

Module vg.

Definition Length : Type := float64.

(** [vg.Inch], in points. *)
Definition Inch : Length := lit 72.

Record Point : Type := { X : Length; Y : Length }.

Record Rectangle : Type := { Min : Point; Max : Point }.

End vg.

(** A parsed [opentype.Font] is determined by the bytes it was parsed from. *)
Definition opentype_Font : Type := string.

Module font.

(** [font.Font]: the fields the code sets. *)
Record Font : Type := { Typeface : string; Size : vg.Length }.

(** [font.Face]: [Font] and [Face]; the face is a pointer and may be nil. *)
Record Face : Type := { Font_ : Font; Face_ : option opentype_Font }.

End font.

Module vgimg.

Definition DefaultDPI : float64 := lit 96.

(** What was asked of a [vgimg.Canvas], in order. *)
Inductive drawOp : Type :=
| DrawImage (rect : vg.Rectangle) (img : Image)
| SetColor (c : RGBA)
| FillString (face : font.Face) (pt : vg.Point) (text : string).

Record Canvas : Type := { width : vg.Length; height : vg.Length; ops : list drawOp }.

(** [vgimg.New]. *)
Definition New (w h : vg.Length) : Canvas :=
  {| width := w; height := h; ops := [] |}.

Definition draw (op : drawOp) (c : Canvas) : Canvas :=
  {| width := width c; height := height c; ops := ops c ++ [op] |}.


End vgimg.

(** ** Time *)

(** A [time.Time], as the civil date and the time of day it shows in its
    own location. *)
Record Time : Type := { year : Z; month : Z; day : Z; nanos : Z }.

(** [Time.IsZero]: January 1, year 1, 00:00:00. *)
Definition IsZero (t : Time) : bool :=
  ((year t =? 1) && (month t =? 1) && (day t =? 1) && (nanos t =? 0))%Z.

Module Fmt.

Local Open Scope string_scope.

Definition digit (n : Z) : string :=
  String (ascii_of_N (48 + Z.to_N (n mod 10))) EmptyString.

(** The decimal digits of a natural number, at least [width] of them. *)
Fixpoint digits (width : nat) (fuel : nat) (n : Z) : string :=
  match fuel with
  | O => EmptyString
  | S fuel' =>
      if (n <? 10)%Z && Nat.leb width 1 then digit n
      else digits (Nat.pred width) fuel' (n / 10)%Z ++ digit n
  end.

Definition pad (width : nat) (n : Z) : string :=
  digits width (width + Z.to_nat (Z.log2 n) + 1) n.

(** [t.Format("2006-01-02")]: the year on four digits at least (with a
    sign when negative), the month and the day on two. *)
Definition Format_2006_01_02 (t : Time) : string :=
  (if (year t <? 0)%Z then "-" else "") ++ pad 4 (Z.abs (year t))
  ++ "-" ++ pad 2 (month t) ++ "-" ++ pad 2 (day t).

End Fmt.

(** ** The configuration *)

(** [Config]. [Font] is a pointer: [None] is nil. *)
Record Config : Type := {
  CompanyName : string;
  Timestamp : Time;
  FontSize : float64;
  Opacity : Z;
  Angle : float64;
  Font : option opentype_Font;
  TextSpacing : float64;
  LineSpacing : float64;
  Quality : Z;
  WatermarkColor : RGBA
}.

Definition with_Timestamp (t : Time) (c : Config) : Config :=
  {| CompanyName := CompanyName c; Timestamp := t; FontSize := FontSize c;
     Opacity := Opacity c; Angle := Angle c; Font := Font c;
     TextSpacing := TextSpacing c; LineSpacing := LineSpacing c;
     Quality := Quality c; WatermarkColor := WatermarkColor c |}.

(** [ValidateConfig]; the argument is a pointer, [None] is nil; the result
    is the error, [None] when the configuration is accepted. *)
Definition ValidateConfig (config : option Config) : option error :=
  match config with
  | None => Some (Errorf "config cannot be nil")
  | Some config =>
      if String.eqb (GoString.TrimSpace (CompanyName config)) "" then
        Some (Errorf "company name cannot be empty")
      else if (FontSize config <? lit 10)%f64 || (FontSize config >? lit 200)%f64 then
        Some (ErrorfFloat "font size must be between 10 and 200, got: %.1f"
                (FontSize config))
      else if (TextSpacing config <? lit 5)%f64 || (TextSpacing config >? lit 200)%f64 then
        Some (ErrorfFloat "text spacing must be between 5 and 200, got: %.1f"
                (TextSpacing config))
      else if (LineSpacing config <? lit 5)%f64 || (LineSpacing config >? lit 200)%f64 then
        Some (ErrorfFloat "line spacing must be between 5 and 200, got: %.1f"
                (LineSpacing config))
      else if (Quality config <? 1)%Z || (Quality config >? 100)%Z then
        Some (ErrorfInt "quality must be between 1 and 100, got: %d"
                (Quality config))
      else
        match Font config with
        | None => Some (Errorf "font cannot be nil")
        | Some _ => None
        end
  end.

(** ** The file system seen by [filepath.Walk] *)

(** What [os.Lstat] and the directory listing show at one name: something
    that is not a directory, a directory with its entries in the order the
    listing returns them (or the error of the listing), or a name
    [os.Lstat] fails on. *)
Inductive entry : Type :=
| File (name : string)
| Dir (name : string) (listing : result (list entry))
| Broken (name : string) (e : error).

(** ** What lies outside the repository *)

Class Externals : Type := {
  (** the state of the operating system *)
  World : Type;
  (** [math.Sqrt] *)
  math_Sqrt : float64 -> float64;
  (** [font.Face.Width] *)
  Face_Width : font.Face -> string -> vg.Length;
  (** [vgimg.PngCanvas.WriteTo] into a buffer, and [image.Decode] of it *)
  PngCanvas_WriteTo : vgimg.Canvas -> result string;
  image_Decode : string -> result Image;
  (** the codecs *)
  png_Decode : string -> result Image;
  jpeg_Decode : string -> result Image;
  png_Encode : Image -> result string;
  jpeg_Encode : Image -> Z -> result string;
  (** [os.Open] (and reading the file), [os.Create], writing to the
      created file, [os.MkdirAll], [time.Now] *)
  os_Open : string -> World -> result string;
  os_Create : string -> World -> option error * World;
  file_Write : string -> string -> World -> option error * World;
  os_MkdirAll : string -> World -> option error * World;
  time_Now : World -> Time;
  (** [filepath.Rel], [Base], [Join], [Dir] *)
  filepath_Rel : string -> string -> result string;
  filepath_Base : string -> string;
  filepath_Join : string -> string -> string;
  filepath_Dir : string -> string;
  (** what [filepath.Walk] finds at a root *)
  os_tree : string -> World -> entry
}.

(** ** The state of the program *)

(** One record of the logger: level, message and the fields attached. *)
Inductive level : Type := Debug | Info | Warn | Error_.

(** The value of a field of a record. *)
Inductive fieldValue : Type :=
| FStr (s : string)
| FInt (z : Z)
| FBool (b : bool)
| FErr (e : error).

Record logEntry : Type := {
  lvl : level;
  message : string;
  fields : list (string * fieldValue)
}.

Section Program.

Context `{Externals}.

(** The operating system, the package variable [plot.DefaultFont] and
    what was logged. *)
Record Machine : Type := {
  world : World;
  DefaultFont : font.Font;
  logged : list logEntry
}.

Definition set_world (w : World) (m : Machine) : Machine :=
  {| world := w; DefaultFont := DefaultFont m; logged := logged m |}.

Definition set_DefaultFont (f : font.Font) (m : Machine) : Machine :=
  {| world := world m; DefaultFont := f; logged := logged m |}.

Definition log (l : level) (msg : string) (fs : list (string * fieldValue))
    (m : Machine) : Machine :=
  {| world := world m; DefaultFont := DefaultFont m;
     logged := logged m ++ [{| lvl := l; message := msg; fields := fs |}] |}.

(** A computation: from a state, either no answer within the fuel given
    to its loops ([None]), or a value or an error, and the new state. *)
Definition M (A : Type) : Type := Machine -> option (result A * Machine).

Definition ret {A : Type} (a : A) : M A := fun m => Some (Ok a, m).

Definition fail {A : Type} (e : error) : M A := fun m => Some (Err e, m).

Definition bind {A B : Type} (c : M A) (k : A -> M B) : M B :=
  fun m =>
    match c m with
    | None => None
    | Some (Err e, m') => Some (Err e, m')
    | Some (Ok a, m') => k a m'
    end.

(** [if err != nil { return fmt.Errorf(msg, err) }]. *)
Definition wrapping {A : Type} (msg : string) (c : M A) : M A :=
  fun m =>
    match c m with
    | None => None
    | Some (Err e, m') => Some (Err (Wrapf msg e), m')
    | Some (Ok a, m') => Some (Ok a, m')
    end.

Definition lift {A : Type} (r : result A) : M A := fun m => Some (r, m).

Definition modify (f : Machine -> Machine) : M unit := fun m => Some (Ok tt, f m).

End Program.

Notation "x <- c ;; k" := (bind c (fun x => k))
  (at level 61, c at next level, right associativity).
Notation "c ;;; k" := (bind c (fun _ => k))
  (at level 61, right associativity).

(** ** The renderer *)

Section Renderer.

Context `{Externals}.

Local Open Scope string_scope.

(** [Processor]. *)
Record Processor : Type := { config : Config }.

(** [NewProcessor]: a zero timestamp is replaced by the current time. *)
Definition NewProcessor (config : Config) : M Processor :=
  fun m =>
    let config :=
      if IsZero (Timestamp config)
      then with_Timestamp (time_Now (world m)) config
      else config in
    Some (Ok {| config := config |}, m).

(** [decodeImage]: the decoder is chosen by the extension of the name. *)
Definition decodeImage (file : string) (filename : string) : result Image :=
  let ext := GoString.ToLower (GoString.Ext filename) in
  if String.eqb ext ".png" then png_Decode file
  else if String.eqb ext ".jpg" || String.eqb ext ".jpeg" then jpeg_Decode file
  else Err (ErrorfStr "unsupported input format: %s (supported: .jpg, .jpeg, .png)" ext).

(** [saveImage]: the file is created first, then the encoder is chosen by
    the extension of the output path. *)
Definition saveImage (p : Processor) (img : Image) (outputPath : string) : M unit :=
  fun m =>
    match os_Create outputPath (world m) with
    | (Some err, w) => Some (Err err, set_world w m)
    | (None, w) =>
        let m := set_world w m in
        let ext := GoString.ToLower (GoString.Ext outputPath) in
        let encoded :=
          if String.eqb ext ".png" then png_Encode img
          else if String.eqb ext ".jpg" || String.eqb ext ".jpeg"
          then jpeg_Encode img (Quality (config p))
          else Err (ErrorfStr
                 "unsupported output format: %s (supported: .jpg, .jpeg, .png)" ext) in
        match encoded with
        | Err e => Some (Err e, m)
        | Ok data =>
            match file_Write outputPath data (world m) with
            | (Some err, w) => Some (Err err, set_world w m)
            | (None, w) => Some (Ok tt, set_world w m)
            end
        end
    end.

(** The watermark text: [fmt.Sprintf("%s - %s", name, date)]. *)
Definition watermarkText (c : Config) : string :=
  CompanyName c ++ " - " ++ Fmt.Format_2006_01_02 (Timestamp c).

(** The inner loop of [applyWatermark]:
    [for xOffset := start; xOffset < w; xOffset += textWidth + xDistance]. *)
Fixpoint columns (fuel : nat) (fontFace : font.Face) (text : string)
    (w textWidth xDistance offset xOffset : vg.Length) (c : vgimg.Canvas)
    : option vgimg.Canvas :=
  match fuel with
  | O => None
  | S fuel' =>
      if (xOffset <? w)%f64 then
        let c := vgimg.draw
                   (vgimg.FillString fontFace {| vg.X := xOffset; vg.Y := offset |} text) c in
        columns fuel' fontFace text w textWidth xDistance offset
          (xOffset + (textWidth + xDistance))%f64 c
      else Some c
  end.

(** The outer loop:
    [for offset := -2 * diagonal; offset < 2*diagonal; offset += lineHeight + yDistance],
    with [line++] at the top of the body. *)
Fixpoint rows (fuel : nat) (fontFace : font.Face) (text : string)
    (w diagonal lineHeight textWidth xDistance yDistance : vg.Length)
    (line : Z) (offset : vg.Length) (c : vgimg.Canvas) : option vgimg.Canvas :=
  match fuel with
  | O => None
  | S fuel' =>
      if (offset <? lit 2 * diagonal)%f64 then
        let line := wrap_int (line + 1) in
        match columns fuel' fontFace text w textWidth xDistance offset
                (- of_int line * Fin (3 # 2) * textWidth)%f64 c with
        | None => None
        | Some c =>
            rows fuel' fontFace text w diagonal lineHeight textWidth xDistance yDistance
              line (offset + (lineHeight + yDistance))%f64 c
        end
      else Some c
  end.

(** The two loops, from [line := 0]. *)
Definition tile (fuel : nat) (fontFace : font.Face) (text : string)
    (w diagonal lineHeight textWidth xDistance yDistance : vg.Length)
    (c : vgimg.Canvas) : option vgimg.Canvas :=
  rows fuel fontFace text w diagonal lineHeight textWidth xDistance yDistance
    0%Z (lit (-2) * diagonal)%f64 c.

(** The physical width or height of so many pixels. *)
Definition pixels (n : Z) : vg.Length := (of_int n * vg.Inch / vgimg.DefaultDPI)%f64.

Definition diagonal_of (w h : vg.Length) : vg.Length := math_Sqrt (w * w + h * h)%f64.

Definition fontFace_of (c : Config) : font.Face :=
  {| font.Font_ := {| font.Typeface := "WatermarkFont"; font.Size := FontSize c |};
     font.Face_ := Font c |}.

(** The canvas before the loops: the image in the centre, the colour set. *)
Definition canvas_of (c : Config) (img : Image) : vgimg.Canvas :=
  let bounds := Bounds img in
  let w := pixels (Img.X (Img.Max bounds)) in
  let h := pixels (Img.Y (Img.Max bounds)) in
  let diagonal := diagonal_of w h in
  let rect :=
    {| vg.Min := {| vg.X := diagonal / lit 2 - w / lit 2;
                    vg.Y := diagonal / lit 2 - h / lit 2 |};
       vg.Max := {| vg.X := diagonal / lit 2 + w / lit 2;
                    vg.Y := diagonal / lit 2 + h / lit 2 |} |}%f64 in
  vgimg.draw (vgimg.SetColor (WatermarkColor c))
    (vgimg.draw (vgimg.DrawImage rect img) (vgimg.New diagonal diagonal)).

(** The loops of [applyWatermark] on the canvas of an image. *)
Definition tiled (fuel : nat) (c : Config) (img : Image) : option vgimg.Canvas :=
  let bounds := Bounds img in
  let w := pixels (Img.X (Img.Max bounds)) in
  let h := pixels (Img.Y (Img.Max bounds)) in
  let fontFace := fontFace_of c in
  tile fuel fontFace (watermarkText c) w (diagonal_of w h)
    (FontSize c) (Face_Width fontFace (watermarkText c))
    (TextSpacing c) (LineSpacing c) (canvas_of c img).

(** The crop back to the size of the input. *)
Definition crop (img processedImg : Image) : Image :=
  let bounds := Bounds img in
  let w := pixels (Img.X (Img.Max bounds)) in
  let h := pixels (Img.Y (Img.Max bounds)) in
  let diagonal := diagonal_of w h in
  let ctp := to_int (diagonal * vgimg.DefaultDPI / vg.Inch / lit 2)%f64 in
  let size := Img.Size bounds in
  let cropBounds :=
    Rect (wrap_int (ctp - Z.quot (Img.X size) 2)) (wrap_int (ctp - Z.quot (Img.Y size) 2))
         (wrap_int (ctp + Z.quot (Img.X size) 2)) (wrap_int (ctp + Z.quot (Img.Y size) 2)) in
  Draw (NewRGBA bounds) bounds processedImg (Img.Min cropBounds).

(** [applyWatermark]. *)
Definition applyWatermark (fuel : nat) (p : Processor) (img : Image) : M Image :=
  fun m =>
    let m := set_DefaultFont (font.Font_ (fontFace_of (config p))) m in
    match tiled fuel (config p) img with
    | None => None
    | Some c =>
        match PngCanvas_WriteTo c with
        | Err err => Some (Err (Wrapf "writing canvas: %w" err), m)
        | Ok buff =>
            match image_Decode buff with
            | Err err => Some (Err (Wrapf "decoding processed image: %w" err), m)
            | Ok processedImg => Some (Ok (crop img processedImg), m)
            end
        end
    end.

(** [ProcessImage]. *)
Definition ProcessImage (fuel : nat) (p : Processor) (img : Image) : M Image :=
  applyWatermark fuel p img.

(** [ProcessFile]; the result is the error, [None] for nil. *)
Definition ProcessFile (fuel : nat) (p : Processor) (inputPath outputPath : string)
    : Machine -> option (option error * Machine) :=
  fun m =>
    let body : M unit :=
      inputFile <- wrapping "opening input file: %w"
                     (fun m => Some (os_Open inputPath (world m), m)) ;;
      inputImage <- wrapping "decoding image: %w" (lift (decodeImage inputFile inputPath)) ;;
      watermarkedImage <- wrapping "applying watermark: %w" (applyWatermark fuel p inputImage) ;;
      wrapping "saving image: %w" (saveImage p watermarkedImage outputPath) in
    match body m with
    | None => None
    | Some (Err e, m') => Some (Some e, m')
    | Some (Ok _, m') => Some (None, m')
    end.

End Renderer.

(** ** [filepath.Walk] *)

Module Walk.

(** What a [WalkFunc] returns besides nil: [filepath.SkipDir], or an error
    that stops the walk. *)
Inductive stop : Type :=
| SkipDir
| Stop (e : error).

(** The [os.FileInfo] handed to the function: nil, or whether [IsDir]. *)
Definition FileInfo : Type := option bool.

Definition name_of (e : entry) : string :=
  match e with
  | File n => n
  | Dir n _ => n
  | Broken n _ => n
  end.

Definition IsDir (e : entry) : bool :=
  match e with
  | Dir _ _ => true
  | _ => false
  end.

Section Walk.

Context `{Externals}.

(** The state the function closes over. *)
Variable S : Type.

(** The [WalkFunc]: path, info, the error met at that path. *)
Variable walkFn : string -> FileInfo -> option error -> S -> option stop * S.

(** [walk]: a file is visited; a directory is listed, then visited (with
    the error of the listing, if any), then its entries are walked in
    order. [SkipDir] from a directory skips it, from a file it ends the
    directory the file is in; an error of [os.Lstat] on an entry is handed
    to the function. *)
Fixpoint walk (path : string) (e : entry) (st : S) {struct e} : option stop * S :=
  match e with
  | File _ => walkFn path (Some false) None st
  | Broken _ err => walkFn path None (Some err) st
  | Dir _ (Err err) => walkFn path (Some true) (Some err) st
  | Dir _ (Ok names) =>
      match walkFn path (Some true) None st with
      | (Some err1, st) => (Some err1, st)
      | (None, st) =>
          (fix entries (l : list entry) (st : S) {struct l} : option stop * S :=
             match l with
             | [] => (None, st)
             | c :: l' =>
                 let filename := filepath_Join path (name_of c) in
                 match c with
                 | Broken _ err =>
                     match walkFn filename None (Some err) st with
                     | (Some (Stop e), st) => (Some (Stop e), st)
                     | (_, st) => entries l' st
                     end
                 | _ =>
                     match walk filename c st with
                     | (None, st) => entries l' st
                     | (Some SkipDir, st) =>
                         if IsDir c then entries l' st else (Some SkipDir, st)
                     | (Some (Stop e), st) => (Some (Stop e), st)
                     end
                 end
             end) names st
      end
  end.

(** [filepath.Walk]: [SkipDir] at the root is not an error. *)
Definition Walk (root : string) (w : World) (st : S) : option error * S :=
  match walk root (os_tree root w) st with
  | (Some (Stop e), st) => (Some e, st)
  | (_, st) => (None, st)
  end.

End Walk.

End Walk.

(** ** The batch coordinator *)

(** [BatchResult] and [BatchError]; [Error] is an interface value, [None]
    is nil. *)
Record BatchError : Type := { FilePath : string; Error : option error }.

Record BatchResult : Type := {
  TotalCount : Z;
  SuccessCount : Z;
  ErrorCount : Z;
  Errors : list BatchError
}.

Record job : Type := { inputPath : string; outputPath : string }.

(** [jobResult]: [inputPath] and [err]. *)
Record jobResult : Type := { resultPath : string; err : option error }.

(** [BatchOptions] (the logger is part of the state of the program). *)
Record BatchOptions : Type := { Workers : Z; Recursive : bool }.

Section Batch.

Context `{Externals}.

Local Open Scope string_scope.

(** [BatchProcessor]. *)
Record BatchProcessor : Type := {
  processor : Processor;
  workers : Z;
  recursive : bool
}.

(** [NewBatchProcessor]. *)
Definition NewBatchProcessor (config : option Config) (options : BatchOptions)
    : M BatchProcessor :=
  match ValidateConfig config, config with
  | Some err, _ => fail (Wrapf "invalid config: %w" err)
  | None, None => fail (Wrapf "invalid config: %w" (Errorf "config cannot be nil"))
  | None, Some config =>
      processor <- NewProcessor config ;;
      let workers := if (Workers options <=? 0)%Z then 4%Z else Workers options in
      ret {| processor := processor; workers := workers;
             recursive := Recursive options |}
  end.

Definition supportedExts : list string := [".jpg"; ".jpeg"; ".png"].

(** The loop over [supportedExts]: the path is appended at the first
    extension that is equal, and the loop is left. *)
Fixpoint match_ext (ext : string) (exts : list string) (path : string)
    (imageFiles : list string) : list string :=
  match exts with
  | [] => imageFiles
  | supportedExt :: exts' =>
      if String.eqb ext supportedExt then imageFiles ++ [path]
      else match_ext ext exts' path imageFiles
  end.

(** The function [findImageFiles] hands to [filepath.Walk]. *)
Definition visit (bp : BatchProcessor) (inputDir : string)
    (path : string) (info : Walk.FileInfo) (err : option error)
    (imageFiles : list string) : option Walk.stop * list string :=
  match err with
  | Some err => (Some (Walk.Stop err), imageFiles)
  | None =>
      match info with
      | Some true =>
          if negb (recursive bp) && negb (String.eqb path inputDir)
          then (Some Walk.SkipDir, imageFiles)
          else (None, imageFiles)
      | _ =>
          let ext := GoString.ToLower (GoString.Ext path) in
          (None, match_ext ext supportedExts path imageFiles)
      end
  end.

(** [findImageFiles]: the files found, and the error of the walk. *)
Definition findImageFiles (bp : BatchProcessor) (inputDir : string) (w : World)
    : list string * option error :=
  let (err, imageFiles) := Walk.Walk (list string) (visit bp inputDir) inputDir w [] in
  (imageFiles, err).

End Batch.

(** ** The worker pool of [processFiles] *)

(** A buffered channel: what is in the buffer, its capacity, and whether
    it was closed. *)
Record chan (A : Type) : Type := { buf : list A; cap : Z; closed : bool }.

Arguments buf {A} c.
Arguments cap {A} c.
Arguments closed {A} c.

Definition make (A : Type) (n : Z) : chan A := {| buf := []; cap := n; closed := false |}.

(** A send goes through when the buffer has room. *)
Definition room {A : Type} (c : chan A) : bool := (len (buf c) <? cap c)%Z.

Definition push {A : Type} (a : A) (c : chan A) : chan A :=
  {| buf := buf c ++ [a]; cap := cap c; closed := closed c |}.

Definition pop {A : Type} (c : chan A) : chan A :=
  {| buf := tl (buf c); cap := cap c; closed := closed c |}.

Definition close {A : Type} (c : chan A) : chan A :=
  {| buf := buf c; cap := cap c; closed := true |}.

(** Where a [worker] goroutine stands: at the head of [for job := range
    jobs], about to call [ProcessFile] on the job it received, about to
    send the result, or returned (after [wg.Done()]). *)
Inductive worker_pc : Type :=
| Ranging
| Processing (j : job)
| Sending (r : jobResult)
| Exited.

(** Where the goroutine that waits for the workers and closes [results]
    stands. *)
Inductive closer_pc : Type :=
| NotStarted
| Waiting
| Finished.

(** Where [processFiles] itself stands: in the loop that starts the
    workers, in the loop that sends the jobs (before the directory of the
    next file is created, or with a job in hand), in the loop that
    collects the results, or returned. *)
Inductive main_pc : Type :=
| Starting (i : Z)
| Queueing (rest : list string)
| Offering (j : job) (rest : list string)
| Collecting (res : BatchResult)
| Done (res : BatchResult).

(** The goroutines. *)
Inductive thread : Type :=
| MainT
| WorkerT (k : nat)
| CloserT.

Section Pool.

Context `{Externals}.

Local Open Scope string_scope.

(** The state of a run of [processFiles]. The last three fields are
    history, not program state: the files skipped, the jobs sent, and the
    jobs processed with what [ProcessFile] returned, in order. *)
Record State : Type := {
  machine : Machine;
  jobs : chan job;
  results : chan jobResult;
  wg : Z;
  pool : list worker_pc;
  closer : closer_pc;
  main : main_pc;
  skipped : list string;
  sent : list job;
  processed : list (job * option error)
}.

Variable bp : BatchProcessor.
Variable imageFiles : list string.
Variables inputDir outputDir : string.

Definition initial (m : Machine) : State :=
  {| machine := m;
     jobs := make job (len imageFiles);
     results := make jobResult (len imageFiles);
     wg := 0; pool := []; closer := NotStarted; main := Starting 0;
     skipped := []; sent := []; processed := [] |}.

(** The output path of a file: its path relative to the input directory
    (its base name when there is none) under the output directory. *)
Definition outputPath_of (file : string) : string :=
  let relPath :=
    match filepath_Rel inputDir file with
    | Ok relPath => relPath
    | Err _ => filepath_Base file
    end in
  filepath_Join outputDir relPath.

(** The body of the loop that collects the results. *)
Definition collect (r : jobResult) (res : BatchResult) : BatchResult :=
  match err r with
  | Some e =>
      {| TotalCount := TotalCount res;
         SuccessCount := SuccessCount res;
         ErrorCount := wrap_int (ErrorCount res + 1);
         Errors := Errors res ++ [{| FilePath := resultPath r; Error := err r |}] |}
  | None =>
      {| TotalCount := TotalCount res;
         SuccessCount := wrap_int (SuccessCount res + 1);
         ErrorCount := ErrorCount res;
         Errors := Errors res |}
  end.

Definition collect_log (r : jobResult) (m : Machine) : Machine :=
  match err r with
  | Some e => log Error_ "Failed to process image"
                [("error", FErr e); ("file", FStr (resultPath r))] m
  | None => log Debug "Successfully processed image" [("file", FStr (resultPath r))] m
  end.

(** One step of [processFiles] itself; [None] when it is blocked (or has
    returned). *)
Definition step_main (s : State) : option State :=
  match main s with
  | Starting i =>
      if (i <? workers bp)%Z then
        Some {| machine := machine s; jobs := jobs s; results := results s;
                wg := wg s + 1; pool := pool s ++ [Ranging]; closer := closer s;
                main := Starting (wrap_int (i + 1));
                skipped := skipped s; sent := sent s; processed := processed s |}
      else
        Some {| machine := machine s; jobs := jobs s; results := results s;
                wg := wg s; pool := pool s; closer := closer s;
                main := Queueing imageFiles;
                skipped := skipped s; sent := sent s; processed := processed s |}
  | Queueing (file :: rest) =>
      let outputPath := outputPath_of file in
      match os_MkdirAll (filepath_Dir outputPath) (world (machine s)) with
      | (Some err, w) =>
          Some {| machine := log Warn "Failed to create output directory"
                               [("error", FErr err); ("path", FStr (filepath_Dir outputPath))]
                               (set_world w (machine s));
                  jobs := jobs s; results := results s;
                  wg := wg s; pool := pool s; closer := closer s;
                  main := Queueing rest;
                  skipped := skipped s ++ [file]; sent := sent s;
                  processed := processed s |}
      | (None, w) =>
          Some {| machine := set_world w (machine s);
                  jobs := jobs s; results := results s;
                  wg := wg s; pool := pool s; closer := closer s;
                  main := Offering {| inputPath := file; outputPath := outputPath |} rest;
                  skipped := skipped s; sent := sent s; processed := processed s |}
      end
  | Offering j rest =>
      if room (jobs s) then
        Some {| machine := machine s; jobs := push j (jobs s); results := results s;
                wg := wg s; pool := pool s; closer := closer s;
                main := Queueing rest;
                skipped := skipped s; sent := sent s ++ [j]; processed := processed s |}
      else None
  | Queueing [] =>
      Some {| machine := machine s; jobs := close (jobs s); results := results s;
              wg := wg s; pool := pool s; closer := Waiting;
              main := Collecting {| TotalCount := len imageFiles; SuccessCount := 0;
                                    ErrorCount := 0; Errors := [] |};
              skipped := skipped s; sent := sent s; processed := processed s |}
  | Collecting res =>
      match buf (results s) with
      | r :: _ =>
          Some {| machine := collect_log r (machine s);
                  jobs := jobs s; results := pop (results s);
                  wg := wg s; pool := pool s; closer := closer s;
                  main := Collecting (collect r res);
                  skipped := skipped s; sent := sent s; processed := processed s |}
      | [] =>
          if closed (results s) then
            Some {| machine := machine s; jobs := jobs s; results := results s;
                    wg := wg s; pool := pool s; closer := closer s;
                    main := Done res;
                    skipped := skipped s; sent := sent s; processed := processed s |}
          else None
      end
  | Done _ => None
  end.

(** Replaces the [k]-th element of a list. *)
Fixpoint update {A : Type} (k : nat) (a : A) (l : list A) : list A :=
  match l, k with
  | [], _ => []
  | _ :: l', O => a :: l'
  | b :: l', S k' => b :: update k' a l'
  end.

Definition set_worker (k : nat) (w : worker_pc) (s : State) : State :=
  {| machine := machine s; jobs := jobs s; results := results s;
     wg := wg s; pool := update k w (pool s); closer := closer s; main := main s;
     skipped := skipped s; sent := sent s; processed := processed s |}.

(** One step of the [k]-th worker; [fuel] bounds the loops of the call to
    [ProcessFile]. *)
Definition step_worker (k : nat) (fuel : nat) (s : State) : option State :=
  match nth_error (pool s) k with
  | None => None
  | Some Ranging =>
      match buf (jobs s) with
      | j :: _ =>
          Some {| machine := machine s; jobs := pop (jobs s); results := results s;
                  wg := wg s; pool := update k (Processing j) (pool s);
                  closer := closer s; main := main s;
                  skipped := skipped s; sent := sent s; processed := processed s |}
      | [] =>
          if closed (jobs s) then
            Some {| machine := machine s; jobs := jobs s; results := results s;
                    wg := wg s - 1; pool := update k Exited (pool s);
                    closer := closer s; main := main s;
                    skipped := skipped s; sent := sent s; processed := processed s |}
          else None
      end
  | Some (Processing j) =>
      match ProcessFile fuel (processor bp) (inputPath j) (outputPath j) (machine s) with
      | None => None
      | Some (e, m) =>
          Some {| machine := m; jobs := jobs s; results := results s;
                  wg := wg s;
                  pool := update k (Sending {| resultPath := inputPath j; err := e |})
                            (pool s);
                  closer := closer s; main := main s;
                  skipped := skipped s; sent := sent s;
                  processed := processed s ++ [(j, e)] |}
      end
  | Some (Sending r) =>
      if room (results s) then
        Some {| machine := machine s; jobs := jobs s; results := push r (results s);
                wg := wg s; pool := update k Ranging (pool s);
                closer := closer s; main := main s;
                skipped := skipped s; sent := sent s; processed := processed s |}
      else None
  | Some Exited => None
  end.

(** The step of the goroutine that closes [results] once [wg.Wait()]
    returns. *)
Definition step_closer (s : State) : option State :=
  match closer s with
  | Waiting =>
      if (wg s =? 0)%Z then
        Some {| machine := machine s; jobs := jobs s; results := close (results s);
                wg := wg s; pool := pool s; closer := Finished; main := main s;
                skipped := skipped s; sent := sent s; processed := processed s |}
      else None
  | _ => None
  end.

Definition step_thread (t : thread) (fuel : nat) (s : State) : option State :=
  match t with
  | MainT => step_main s
  | WorkerT k => step_worker k fuel s
  | CloserT => step_closer s
  end.

(** Some goroutine takes a step. *)
Definition step (s s' : State) : Prop :=
  exists t fuel, step_thread t fuel s = Some s'.

(** The states a run reaches. *)
Definition reaches : State -> State -> Prop := clos_refl_trans_1n State step.

(** A run under a given schedule: the goroutine named takes its step when
    it can, and nothing happens when it cannot. *)
Fixpoint run (schedule : list (thread * nat)) (s : State) : State :=
  match schedule with
  | [] => s
  | (t, fuel) :: schedule' =>
      match step_thread t fuel s with
      | Some s' => run schedule' s'
      | None => run schedule' s
      end
  end.

(** [processFiles] returns [res], leaving the state [m'] behind. *)
Definition processFiles_returns (m : Machine) (res : BatchResult) (m' : Machine) : Prop :=
  exists s, reaches (initial m) s /\ main s = Done res /\ machine s = m'.

End Pool.

(** ** [ProcessDirectory] *)

(** What [ProcessDirectory] returns: an error, or a result. *)
Inductive outcome : Type :=
| Failed (e : error)
| Returned (res : BatchResult).

Section Directory.

Context `{Externals}.

Local Open Scope string_scope.

Definition starting_log (bp : BatchProcessor) (inputDir outputDir : string)
    (imageFiles : list string) : Machine -> Machine :=
  log Info "Starting batch processing"
    [("input_dir", FStr inputDir); ("output_dir", FStr outputDir);
     ("files", FInt (len imageFiles)); ("workers", FInt (workers bp));
     ("recursive", FBool (recursive bp))].

Definition completed_log (result : BatchResult) : Machine -> Machine :=
  log Info "Batch processing completed"
    [("success", FInt (SuccessCount result)); ("errors", FInt (ErrorCount result));
     ("total", FInt (TotalCount result))].

(** The part of [ProcessDirectory] before [processFiles]: the error it
    returns, or the files found, and the state. *)
Definition setup (bp : BatchProcessor) (inputDir outputDir : string) (m : Machine)
    : result (list string) * Machine :=
  match findImageFiles bp inputDir (world m) with
  | (_, Some err) => (Err (Wrapf "finding image files: %w" err), m)
  | (imageFiles, None) =>
      if (len imageFiles =? 0)%Z then
        (Err (ErrorfStr "no image files found in %s" inputDir), m)
      else
        let m := starting_log bp inputDir outputDir imageFiles m in
        match os_MkdirAll outputDir (world m) with
        | (Some err, w) => (Err (Wrapf "creating output directory: %w" err), set_world w m)
        | (None, w) => (Ok imageFiles, set_world w m)
        end
  end.

(** [ProcessDirectory], under a schedule of its goroutines; [None] when
    the schedule ends before [processFiles] has returned. *)
Definition ProcessDirectory (schedule : list (thread * nat)) (bp : BatchProcessor)
    (inputDir outputDir : string) (m : Machine) : option (outcome * Machine) :=
  match setup bp inputDir outputDir m with
  | (Err e, m) => Some (Failed e, m)
  | (Ok imageFiles, m) =>
      let s := run bp imageFiles inputDir outputDir schedule (initial imageFiles m) in
      match main s with
      | Done result => Some (Returned result, completed_log result (machine s))
      | _ => None
      end
  end.

(** [ProcessDirectory] returns [o] and leaves [m'], under some
    interleaving of its goroutines. *)
Definition ProcessDirectory_returns (bp : BatchProcessor) (inputDir outputDir : string)
    (m : Machine) (o : outcome) (m' : Machine) : Prop :=
  match setup bp inputDir outputDir m with
  | (Err e, m1) => o = Failed e /\ m' = m1
  | (Ok imageFiles, m1) =>
      exists result m2,
        processFiles_returns bp imageFiles inputDir outputDir m1 result m2 /\
        o = Returned result /\ m' = completed_log result m2
  end.

(** [ProcessDirectory] returns [result], the pool being left in the
    state [s]. *)
Definition ProcessDirectory_ends (bp : BatchProcessor) (inputDir outputDir : string)
    (m : Machine) (result : BatchResult) (s : State) : Prop :=
  exists imageFiles m1,
    setup bp inputDir outputDir m = (Ok imageFiles, m1) /\
    reaches bp imageFiles inputDir outputDir (initial imageFiles m1) s /\
    main s = Done result.

End Directory.

(** ** A small concrete world, to run the program on *)

Module Example.

Local Open Scope string_scope.

(** A file system: the tree under the input directory, the contents of
    files, the directories that cannot be created, and what was created
    and written so far. *)
Record Disk : Type := {
  tree : entry;
  contents : list (string * string);
  readonly : list string;
  made : list string;
  written : list (string * string)
}.

Fixpoint lookup (path : string) (l : list (string * string)) : option string :=
  match l with
  | [] => None
  | (p, c) :: l' => if String.eqb p path then Some c else lookup path l'
  end.

(** The path split at its last separator (scanning the reversed path). *)
Fixpoint split_scan (r acc : string) : option (string * string) :=
  match r with
  | EmptyString => None
  | String c r' =>
      if Ascii.eqb c "/"%char then Some (GoString.rev r', acc)
      else split_scan r' (String c acc)
  end.

Definition Dir_ (path : string) : string :=
  match split_scan (GoString.rev path) EmptyString with
  | Some (d, _) => d
  | None => "."
  end.

Definition Base_ (path : string) : string :=
  match split_scan (GoString.rev path) EmptyString with
  | Some (_, b) => b
  | None => path
  end.

Definition Rel_ (base target : string) : result string :=
  match GoString.strip (base ++ "/") target with
  | Some rest => Ok rest
  | None => Err (Errorf "Rel: can't make relative")
  end.

(** Square roots of the rationals whose reduced numerator and denominator
    are squares (rounded down on the others). *)
Definition Sqrt_ (x : float64) : float64 :=
  match x with
  | Fin q =>
      if Qltb q 0 then NaN
      else let r := Qred q in Fin (Z.sqrt (Qnum r) # Pos.sqrt (Qden r))
  | PInf => PInf
  | _ => NaN
  end.

(** Every image file decodes to a 12 by 16 image, unless its content is
    the word corrupt. *)
Definition decode_ (data : string) : result Image :=
  if String.eqb data "corrupt" then Err (Errorf "invalid format")
  else Ok (NewRGBA (Rect 0 0 12 16)).

Definition mkdir_ (path : string) (d : Disk) : option error * Disk :=
  if existsb (String.eqb path) (readonly d)
  then (Some (Errorf "mkdir: permission denied"), d)
  else (None, {| tree := tree d; contents := contents d; readonly := readonly d;
                 made := made d ++ [path]; written := written d |}).

Definition write_ (path data : string) (d : Disk) : option error * Disk :=
  (None, {| tree := tree d; contents := contents d; readonly := readonly d;
            made := made d; written := written d ++ [(path, data)] |}).

#[export] Instance toy : Externals := {|
  World := Disk;
  math_Sqrt := Sqrt_;
  Face_Width := fun _ text => lit (Z.of_nat (String.length text));
  PngCanvas_WriteTo := fun _ => Ok "canvas";
  image_Decode := fun _ => Ok (NewRGBA (Rect 0 0 20 20));
  png_Decode := decode_;
  jpeg_Decode := decode_;
  png_Encode := fun _ => Ok "png";
  jpeg_Encode := fun _ _ => Ok "jpeg";
  os_Open := fun path d =>
    match lookup path (contents d) with
    | Some c => Ok c
    | None => Err (Errorf "open: no such file or directory")
    end;
  os_Create := fun _ d => (None, d);
  file_Write := write_;
  os_MkdirAll := mkdir_;
  time_Now := fun _ => {| year := 2024; month := 3; day := 9; nanos := 1 |};
  filepath_Rel := Rel_;
  filepath_Base := Base_;
  filepath_Join := fun a b => a ++ "/" ++ b;
  filepath_Dir := Dir_;
  os_tree := fun _ d => tree d
|}.

(** in/a.png, in/b.JPG (corrupt), in/notes.txt, in/sub/c.jpeg. *)
Definition disk : Disk := {|
  tree := Dir "in" (Ok [File "a.png"; File "b.JPG"; File "notes.txt";
                        Dir "sub" (Ok [File "c.jpeg"])]);
  contents := [("in/a.png", "image"); ("in/b.JPG", "corrupt");
               ("in/sub/c.jpeg", "image")];
  readonly := [];
  made := [];
  written := []
|}.

(** The same, with a directory out/sub that cannot be created. *)
Definition disk_readonly : Disk := {|
  tree := tree disk; contents := contents disk; readonly := ["out/sub"];
  made := []; written := []
|}.

Definition boot (d : Disk) : Machine :=
  {| world := d;
     DefaultFont := {| font.Typeface := "Liberation"; font.Size := lit 12 |};
     logged := [] |}.

Definition acme : Config := {|
  CompanyName := "ACME";
  Timestamp := {| year := 2024; month := 3; day := 9; nanos := 0 |};
  FontSize := lit 40;
  Opacity := 40;
  Angle := lit 0;
  Font := Some "ttf";
  TextSpacing := lit 30;
  LineSpacing := lit 30;
  Quality := 95;
  WatermarkColor := {| R := 150; G := 150; B := 150; A := 40 |}
|}.

(** The configuration with a font size that is not a number. *)
Definition acme_nan : Config := {|
  CompanyName := "ACME";
  Timestamp := Timestamp acme;
  FontSize := NaN;
  Opacity := 40;
  Angle := lit 0;
  Font := Some "ttf";
  TextSpacing := lit 30;
  LineSpacing := lit 30;
  Quality := 95;
  WatermarkColor := WatermarkColor acme
|}.

(** A short name, a small font and a spacing of 17. *)
Definition narrow : Config := {|
  CompanyName := "A";
  Timestamp := Timestamp acme;
  FontSize := lit 10;
  Opacity := 40;
  Angle := lit 0;
  Font := Some "ttf";
  TextSpacing := lit 17;
  LineSpacing := lit 5;
  Quality := 95;
  WatermarkColor := WatermarkColor acme
|}.

Definition proc : Processor := {| config := acme |}.

(** A blank 12 by 16 image, what the renderer returns for it, and the
    state the renderer leaves. *)
Definition img12 : Image := NewRGBA (Rect 0 0 12 16).

Definition rendered : Image := crop img12 (NewRGBA (Rect 0 0 20 20)).

Definition after_render (m : Machine) : Machine :=
  set_DefaultFont {| font.Typeface := "WatermarkFont"; font.Size := lit 40 |} m.

Definition batch (rec : bool) : BatchProcessor :=
  {| processor := {| config := acme |}; workers := 2; recursive := rec |}.

(** The processor [NewBatchProcessor] makes from the configuration. *)
Definition options (rec : bool) : BatchOptions := {| Workers := 2; Recursive := rec |}.

(** Main, the two workers and the closer in turn, [n] times over. *)
Fixpoint round_robin (n : nat) : list (thread * nat) :=
  match n with
  | O => []
  | S n' =>
      [(MainT, 100); (WorkerT 0, 100); (WorkerT 1, 100); (CloserT, 100)]
      ++ round_robin n'
  end.

(** The three image files of the small world, the state in which
    [processFiles] starts on them, and the state in which it ends under
    the schedule above. *)
Definition files3 : list string := ["in/a.png"; "in/b.JPG"; "in/sub/c.jpeg"].

Definition ready (d : Disk) : Machine := snd (setup (batch true) "in" "out" (boot d)).

Definition final (d : Disk) : State :=
  run (batch true) files3 "in" "out" (round_robin 30) (initial files3 (ready d)).

Definition corrupt_b : BatchError :=
  {| FilePath := "in/b.JPG";
     Error := Some (Wrapf "decoding image: %w" (Errorf "invalid format")) |}.

(** The result on the small world, and on the one where out/sub cannot
    be created. *)
Definition result3 : BatchResult :=
  {| TotalCount := 3; SuccessCount := 2; ErrorCount := 1; Errors := [corrupt_b] |}.

Definition result2 : BatchResult :=
  {| TotalCount := 3; SuccessCount := 1; ErrorCount := 1; Errors := [corrupt_b] |}.

End Example.

(** ** Fonts ([pkg/watermark/font.go]) *)

(** What the font manager asks of the libraries: [os.ReadFile],
    [opentype.Parse], and [os.Stat] (as the error it returns) with
    [os.IsNotExist]. *)
Class FontLibs `{Externals} : Type := {
  os_ReadFile : string -> World -> result string;
  opentype_Parse : string -> result opentype_Font;
  os_Stat : string -> World -> option error;
  os_IsNotExist : option error -> bool
}.

Section Fonts.

Context `{FontLibs}.

Local Open Scope string_scope.

(** [FontManager]. *)
Record FontManager : Type := { systemFontPaths : list string }.

(** [NewFontManager]: the default system font paths. *)
Definition NewFontManager : FontManager :=
  {| systemFontPaths :=
       ["/usr/share/fonts/truetype/dejavu/DejaVuSans.ttf";
        "/usr/share/fonts/truetype/dejavu/DejaVuSans-Bold.ttf";
        "/System/Library/Fonts/Arial.ttf";
        "/System/Library/Fonts/Helvetica.ttc";
        "/Windows/Fonts/arial.ttf";
        "/Windows/Fonts/Arial.ttf";
        "/usr/share/fonts/TTF/arial.ttf";
        "/usr/share/fonts/TTF/DejaVuSans.ttf"] |}.

(** [SetSystemFontPaths]. *)
Definition SetSystemFontPaths (paths : list string) (fm : FontManager) : FontManager :=
  {| systemFontPaths := paths |}.

(** [loadFontFromPath]; the path is written into the message of the
    error, the cause is wrapped. *)
Definition loadFontFromPath (path : string) (w : World) : result opentype_Font :=
  match os_ReadFile path w with
  | Err err => Err (Wrapf ("reading font file " ++ path ++ ": %w") err)
  | Ok fontData =>
      match opentype_Parse fontData with
      | Err err => Err (Wrapf ("parsing font file " ++ path ++ ": %w") err)
      | Ok font => Ok font
      end
  end.

(** [fileExists]: [os.Stat] did not fail for want of the file. *)
Definition fileExists (path : string) (w : World) : bool :=
  negb (os_IsNotExist (os_Stat path w)).

(** The loop of [LoadFont] over the system fonts: the first that exists
    and loads. *)
Fixpoint fallback (paths : list string) (w : World) : option opentype_Font :=
  match paths with
  | [] => None
  | path :: paths' =>
      if fileExists path w then
        match loadFontFromPath path w with
        | Ok font => Some font
        | Err _ => fallback paths' w
        end
      else fallback paths' w
  end.

(** [LoadFont]. *)
Definition LoadFont (fm : FontManager) (fontPath : string) (w : World)
    : result opentype_Font :=
  let given :=
    if negb (String.eqb fontPath "") then
      match loadFontFromPath fontPath w with
      | Ok font => Some font
      | Err _ => None
      end
    else None in
  match given with
  | Some font => Ok font
  | None =>
      match fallback (systemFontPaths fm) w with
      | Some font => Ok font
      | None => Err (ErrorfStr "no suitable font found. Tried: %s and system fonts" fontPath)
      end
  end.

(** The loop of [GetAvailableSystemFonts]. *)
Fixpoint available_from (paths : list string) (w : World) (available : list string)
    : list string :=
  match paths with
  | [] => available
  | path :: paths' =>
      available_from paths' w
        (if fileExists path w then (available ++ [path])%list else available)
  end.

(** [GetAvailableSystemFonts]. *)
Definition GetAvailableSystemFonts (fm : FontManager) (w : World) : list string :=
  available_from (systemFontPaths fm) w [].

End Fonts.

(** ** The first version of the command ([main.go]) *)

Module Legacy.

(** What a [PngCanvas.WriteTo] that failed has left in the buffer. *)
Class CanvasLibs `{Externals} : Type := {
  PngCanvas_left : vgimg.Canvas -> error -> string
}.

(** [WatermarkConfig]. *)
Record WatermarkConfig : Type := {
  CompanyName : string;
  Timestamp : Time;
  FontSize : float64;
  Opacity : Z;
  Angle : float64;
  Font : option opentype_Font
}.

Section Command.

Context `{E : Externals} {F : @FontLibs E} {C : @CanvasLibs E}.

Local Open Scope string_scope.

(** The outer loop of [WaterMark]; the inner one is that of
    [applyWatermark], started at
    [-vg.Length(line)*1.5*textWidth + vg.Length(0)]. *)
Fixpoint rows (fuel : nat) (fnt : font.Face) (markText : string)
    (w diagonal lineHeight textWidth xDistance yDistance : vg.Length)
    (line : Z) (offset : vg.Length) (c : vgimg.Canvas) : option vgimg.Canvas :=
  match fuel with
  | O => None
  | S fuel' =>
      if (offset <? lit 2 * diagonal)%f64 then
        let line := wrap_int (line + 1) in
        match columns fuel' fnt markText w textWidth xDistance offset
                (- of_int line * Fin (3 # 2) * textWidth + lit 0)%f64 c with
        | None => None
        | Some c =>
            rows fuel' fnt markText w diagonal lineHeight textWidth xDistance yDistance
              line (offset + (lineHeight + yDistance))%f64 c
        end
      else Some c
  end.

(** The canvas of [WaterMark] before the loops, and after them. *)
Definition canvas_of (img : Image) (config : WatermarkConfig) : vgimg.Canvas :=
  let bounds := Bounds img in
  let w := pixels (Img.X (Img.Max bounds)) in
  let h := pixels (Img.Y (Img.Max bounds)) in
  let diagonal := diagonal_of w h in
  let rect :=
    {| vg.Min := {| vg.X := diagonal / lit 2 - w / lit 2;
                    vg.Y := diagonal / lit 2 - h / lit 2 |};
       vg.Max := {| vg.X := diagonal / lit 2 + w / lit 2;
                    vg.Y := diagonal / lit 2 + h / lit 2 |} |}%f64 in
  vgimg.draw
    (vgimg.SetColor {| R := 150; G := 150; B := 150; A := Opacity config |})
    (vgimg.draw (vgimg.DrawImage rect img) (vgimg.New diagonal diagonal)).

Definition tiled (fuel : nat) (img : Image) (markText : string)
    (config : WatermarkConfig) : option vgimg.Canvas :=
  let bounds := Bounds img in
  let w := pixels (Img.X (Img.Max bounds)) in
  let h := pixels (Img.Y (Img.Max bounds)) in
  let mincho := {| font.Typeface := "MyFont"; font.Size := FontSize config |} in
  let fnt := {| font.Font_ := mincho; font.Face_ := Font config |} in
  rows fuel fnt markText w (diagonal_of w h) (FontSize config)
    (Face_Width fnt markText) (lit 30) (lit 30) 0%Z
    (lit (-2) * diagonal_of w h)%f64 (canvas_of img config).

(** [ctp], the half of the side of the canvas in pixels. *)
Definition ctp (img : Image) : Z :=
  let bounds := Bounds img in
  let w := pixels (Img.X (Img.Max bounds)) in
  let h := pixels (Img.Y (Img.Max bounds)) in
  to_int (diagonal_of w h * vgimg.DefaultDPI / vg.Inch / lit 2)%f64.

(** The rectangle that is cut out, which becomes the bounds of the
    result. *)
Definition cutout (img : Image) : Rectangle :=
  let size := Img.Size (Bounds img) in
  Rect (wrap_int (ctp img - Z.quot (Img.X size) 2))
       (wrap_int (ctp img - Z.quot (Img.Y size) 2))
       (wrap_int (ctp img + Z.quot (Img.X size) 2))
       (wrap_int (ctp img + Z.quot (Img.Y size) 2)).

(** [WaterMark]. The error of [jc.WriteTo] is dropped, and what is in
    the buffer is decoded; the error of [image.Decode] is returned as it
    is. *)
Definition WaterMark (fuel : nat) (img : Image) (markText : string)
    (config : WatermarkConfig) : M Image :=
  fun m =>
    let mincho := {| font.Typeface := "MyFont"; font.Size := FontSize config |} in
    let m := set_DefaultFont mincho m in
    match tiled fuel img markText config with
    | None => None
    | Some c =>
        let buff :=
          match PngCanvas_WriteTo c with
          | Ok buff => buff
          | Err err => PngCanvas_left c err
          end in
        match image_Decode buff with
        | Err err => Some (Err err, m)
        | Ok img' =>
            let bounds := cutout img in
            let rv := NewRGBA bounds in
            Some (Ok (Draw rv bounds img' (Img.Min bounds)), m)
        end
    end.

(** The copy of the input that [processImage] hands to [WaterMark]. *)
Definition copy_of (inputImage : Image) : Image :=
  let bounds := Bounds inputImage in
  Draw (NewRGBA bounds) bounds inputImage (Img.Min bounds).

(** [processImage]; the errors are formatted with [%v]. The input is
    decoded as a JPEG and the output encoded as one, at the quality 95,
    whatever the names of the files. *)
Definition processImage (fuel : nat) (inputPath outputPath : string)
    (config : WatermarkConfig) : Machine -> option (option error * Machine) :=
  fun m =>
    let m := log Info "Processing image"
               [("input", FStr inputPath); ("output", FStr outputPath);
                ("company", FStr (CompanyName config))] m in
    match os_Open inputPath (world m) with
    | Err err => Some (Some (Wrapf "error opening input file: %v" err), m)
    | Ok inputFile =>
        match jpeg_Decode inputFile with
        | Err err => Some (Some (Wrapf "error decoding image: %v" err), m)
        | Ok inputImage =>
            let output := copy_of inputImage in
            let watermarkText :=
              CompanyName config ++ " - " ++ Fmt.Format_2006_01_02 (Timestamp config) in
            match WaterMark fuel output watermarkText config m with
            | None => None
            | Some (Err err, m) =>
                Some (Some (Wrapf "error applying watermark: %v" err), m)
            | Some (Ok outputImage, m) =>
                match os_Create outputPath (world m) with
                | (Some err, w) =>
                    Some (Some (Wrapf "error creating output file: %v" err), set_world w m)
                | (None, w) =>
                    let m := set_world w m in
                    match jpeg_Encode outputImage 95 with
                    | Err err =>
                        Some (Some (Wrapf "error encoding output image: %v" err), m)
                    | Ok data =>
                        match file_Write outputPath data (world m) with
                        | (Some err, w) =>
                            Some (Some (Wrapf "error encoding output image: %v" err),
                                  set_world w m)
                        | (None, w) =>
                            Some (None,
                                  log Info "Watermark applied successfully!" []
                                    (set_world w m))
                        end
                    end
                end
            end
        end
    end.

(** [loadFont]. *)
Definition loadFont (path : string) (w : World) : result opentype_Font :=
  match os_ReadFile path w with
  | Err err => Err (Wrapf "error reading font file: %v" err)
  | Ok fontData => opentype_Parse fontData
  end.

End Command.

End Legacy.

(** ** The configuration manager ([internal/config/config.go]) *)

(** A value put in the map of overrides (an [interface{}]). *)
Inductive value : Type :=
| VFloat (f : float64)
| VInt (z : Z).

(** What is asked of [viper]: a store, [Set] and the getters. *)
Class ViperLibs : Type := {
  Viper : Type;
  viper_Set : string -> value -> Viper -> Viper;
  viper_GetString : string -> Viper -> string;
  viper_GetFloat64 : string -> Viper -> float64;
  viper_GetInt : string -> Viper -> Z;
  viper_GetBool : string -> Viper -> bool;
  viper_GetStringSlice : string -> Viper -> list string
}.

(** The conversion [uint8(n)] of an [int]: its low eight bits. *)
Definition uint8 (n : Z) : Z := (n mod 256)%Z.

Module Settings.

Module App.

(** [AppConfig]; the colour is the struct of its three channels. *)
Record AppConfig : Type := {
  FontPath : string;
  FontSize : float64;
  Opacity : Z;
  TextSpacing : float64;
  LineSpacing : float64;
  Quality : Z;
  LogLevel : string;
  WatermarkColor : Z * Z * Z;
  SystemFontPaths : list string;
  DefaultWorkers : Z
}.

End App.

Section Manager.

Context `{E : Externals} {F : @FontLibs E} {V : ViperLibs}.

Local Open Scope string_scope.

(** [Manager]. *)
Record Manager : Type := { config : App.AppConfig; viper : Viper }.

(** [GetAppConfig]. *)
Definition GetAppConfig (m : Manager) : App.AppConfig := config m.

(** [CreateWatermarkConfig]; [overrides] are the entries of the map in
    the order in which the loop over it meets them. The store of the
    manager keeps what was set. *)
Definition CreateWatermarkConfig (m : Manager) (companyName fontPath : string)
    (overrides : list (string * value)) (w : World) : result Config * Manager :=
  let v := fold_left (fun v kv => viper_Set (fst kv) (snd kv) v) overrides (viper m) in
  let m := {| config := config m; viper := v |} in
  let fontPath :=
    if String.eqb fontPath "" then viper_GetString "font_path" v else fontPath in
  let fontManager :=
    SetSystemFontPaths (viper_GetStringSlice "system_font_paths" v) NewFontManager in
  match LoadFont fontManager fontPath w with
  | Err err => (Err (Wrapf "loading font: %w" err), m)
  | Ok font =>
      (Ok {| CompanyName := companyName;
             Timestamp := time_Now w;
             FontSize := viper_GetFloat64 "font_size" v;
             Opacity := uint8 (viper_GetInt "opacity" v);
             Angle := lit 0;
             Font := Some font;
             TextSpacing := viper_GetFloat64 "text_spacing" v;
             LineSpacing := viper_GetFloat64 "line_spacing" v;
             Quality := viper_GetInt "quality" v;
             WatermarkColor :=
               {| R := uint8 (viper_GetInt "watermark_color.r" v);
                  G := uint8 (viper_GetInt "watermark_color.g" v);
                  B := uint8 (viper_GetInt "watermark_color.b" v);
                  A := uint8 (viper_GetInt "opacity" v) |} |}, m)
  end.

End Manager.

End Settings.

(** ** The commands ([cmd/process.go], [cmd/batch.go]) *)

Module Cmd.

(** What is asked of [cobra]: whether a flag was given. *)
Class CommandLibs : Type := {
  Command : Type;
  flag_Changed : string -> Command -> bool
}.

(** [%d] of an [int]. *)
Definition itoa (n : Z) : string :=
  ((if (n <? 0)%Z then "-" else "") ++ Fmt.pad 1 (Z.abs n))%string.

Section Commands.

Context `{E : Externals} {F : @FontLibs E} {V : ViperLibs} {K : CommandLibs}.

Local Open Scope string_scope.

(** The map of overrides both commands build from the flags that were
    given; [g] is the package-level store the flags are bound to. *)
Definition overrides_of (cmd : Command) (g : Viper) : list (string * value) :=
  ((if flag_Changed "size" cmd
    then [("font_size", VFloat (viper_GetFloat64 "font_size" g))] else []) ++
   (if flag_Changed "opacity" cmd
    then [("opacity", VInt (viper_GetInt "opacity" g))] else []) ++
   (if flag_Changed "text-spacing" cmd
    then [("text_spacing", VFloat (viper_GetFloat64 "text_spacing" g))] else []) ++
   (if flag_Changed "line-spacing" cmd
    then [("line_spacing", VFloat (viper_GetFloat64 "line_spacing" g))] else []) ++
   (if flag_Changed "quality" cmd
    then [("quality", VInt (viper_GetInt "quality" g))] else []))%list.

(** The configuration both commands make; [order] is the order in which
    the entries of a map are met by a loop over it. *)
Definition watermark_config (order : list (string * value) -> list (string * value))
    (cmd : Command) (g : Viper) (configMgr : Settings.Manager) (w : World)
    : result Config * Settings.Manager :=
  Settings.CreateWatermarkConfig configMgr (viper_GetString "company" g)
    (viper_GetString "font_path" g) (order (overrides_of cmd g)) w.

(** [runProcess]; the two arguments are [args[0]] and [args[1]]. *)
Definition runProcess (fuel : nat)
    (order : list (string * value) -> list (string * value))
    (cmd : Command) (inputPath outputPath : string)
    (g : Viper) (configMgr : Settings.Manager)
    : Machine -> option (option error * Settings.Manager * Machine) :=
  fun m =>
    let m := log Info "Processing single image"
               [("input", FStr inputPath); ("output", FStr outputPath)] m in
    match watermark_config order cmd g configMgr (world m) with
    | (Err err, configMgr) =>
        Some (Some (Wrapf "creating watermark config: %w" err), configMgr, m)
    | (Ok config, configMgr) =>
        match NewProcessor config m with
        | None => None
        | Some (Err err, m) => Some (Some err, configMgr, m)
        | Some (Ok processor, m) =>
            match ProcessFile fuel processor inputPath outputPath m with
            | None => None
            | Some (Some err, m) =>
                Some (Some (Wrapf "processing image: %w" err), configMgr, m)
            | Some (None, m) =>
                Some (None, configMgr, log Info "Image processed successfully" [] m)
            end
        end
    end.

(** The options [runBatch] makes: the number of workers is that of the
    flag, or the default of the configuration when the flag is 0. *)
Definition batchOptions_of (g : Viper) (configMgr : Settings.Manager) : BatchOptions :=
  let workers := viper_GetInt "workers" g in
  let workers :=
    if (workers =? 0)%Z
    then Settings.App.DefaultWorkers (Settings.GetAppConfig configMgr)
    else workers in
  {| Workers := workers; Recursive := viper_GetBool "recursive" g |}.

(** The report of the results at the end of [runBatch]. *)
Definition report (result : BatchResult) (m : Machine) : Machine :=
  if (ErrorCount result >? 0)%Z then
    fold_left
      (fun m batchErr =>
         log Error_ "Processing failed"
           [("error", match Error batchErr with
                      | Some e => FErr e
                      | None => FStr "<nil>"
                      end);
            ("file", FStr (FilePath batchErr))] m)
      (Errors result)
      (log Warn ("Completed with " ++ itoa (ErrorCount result) ++ " errors out of "
                 ++ itoa (TotalCount result) ++ " files") [] m)
  else
    log Info ("Successfully processed all " ++ itoa (SuccessCount result) ++ " files") [] m.

(** [runBatch], under a schedule of the goroutines of the pool. *)
Definition runBatch (schedule : list (thread * nat))
    (order : list (string * value) -> list (string * value))
    (cmd : Command) (inputDir outputDir : string)
    (g : Viper) (configMgr : Settings.Manager)
    : Machine -> option (option error * Settings.Manager * Machine) :=
  fun m =>
    let m := log Info "Starting batch processing"
               [("input_dir", FStr inputDir); ("output_dir", FStr outputDir)] m in
    match watermark_config order cmd g configMgr (world m) with
    | (Err err, configMgr) =>
        Some (Some (Wrapf "creating watermark config: %w" err), configMgr, m)
    | (Ok config, configMgr) =>
        match NewBatchProcessor (Some config) (batchOptions_of g configMgr) m with
        | None => None
        | Some (Err err, m) =>
            Some (Some (Wrapf "creating batch processor: %w" err), configMgr, m)
        | Some (Ok batchProcessor, m) =>
            match ProcessDirectory schedule batchProcessor inputDir outputDir m with
            | None => None
            | Some (Failed err, m) =>
                Some (Some (Wrapf "processing directory: %w" err), configMgr, m)
            | Some (Returned result, m) => Some (None, configMgr, report result m)
            end
        end
    end.

End Commands.

End Cmd.

(** ** The small world, with fonts, a store and flags *)

Module Workbench.

Local Open Scope string_scope.

(** Files are read from the disk of the small world; a font file parses
    unless its content is the word corrupt; a file exists when it has a
    content. *)
Definition read_ (path : string) (d : Example.Disk) : result string :=
  match Example.lookup path (Example.contents d) with
  | Some c => Ok c
  | None => Err (Errorf "open: no such file or directory")
  end.

Definition parse_ (data : string) : result opentype_Font :=
  if String.eqb data "corrupt" then Err (Errorf "invalid font") else Ok data.

Definition stat_ (path : string) (d : Example.Disk) : option error :=
  match Example.lookup path (Example.contents d) with
  | Some _ => None
  | None => Some (Errorf "stat: no such file or directory")
  end.

#[export] Instance fonts : @FontLibs Example.toy :=
  @Build_FontLibs Example.toy read_ parse_ stat_
    (fun e => match e with Some _ => true | None => false end).

#[export] Instance canvas : @Legacy.CanvasLibs Example.toy :=
  @Legacy.Build_CanvasLibs Example.toy (fun _ _ => "").

(** A store: what was set, the last first, over the defaults of the
    configuration manager. *)
Fixpoint find (key : string) (s : list (string * value)) : option value :=
  match s with
  | [] => None
  | (k, v) :: s' => if String.eqb k key then Some v else find key s'
  end.

Definition default_float (key : string) : float64 :=
  if String.eqb key "font_size" then lit 40
  else if String.eqb key "text_spacing" then lit 30
  else if String.eqb key "line_spacing" then lit 30
  else lit 0.

Definition default_int (key : string) : Z :=
  if String.eqb key "opacity" then 40%Z
  else if String.eqb key "quality" then 95%Z
  else if String.eqb key "default_workers" then 4%Z
  else if String.eqb key "watermark_color.r" then 150%Z
  else if String.eqb key "watermark_color.g" then 150%Z
  else if String.eqb key "watermark_color.b" then 150%Z
  else 0%Z.

#[export] Instance store : ViperLibs := {|
  Viper := list (string * value);
  viper_Set := fun key v s => (key, v) :: s;
  viper_GetString := fun key _ =>
    if String.eqb key "company" then "ACME"
    else if String.eqb key "font_path" then "fonts/a.ttf"
    else "";
  viper_GetFloat64 := fun key s =>
    match find key s with
    | Some (VFloat f) => f
    | Some (VInt z) => of_int z
    | None => default_float key
    end;
  viper_GetInt := fun key s =>
    match find key s with
    | Some (VInt z) => z
    | Some (VFloat _) => 0%Z
    | None => default_int key
    end;
  viper_GetBool := fun _ _ => false;
  viper_GetStringSlice := fun _ _ => ["fonts/system.ttf"]
|}.

(** The flags that were given. *)
#[export] Instance flags : Cmd.CommandLibs := {|
  Cmd.Command := list string;
  Cmd.flag_Changed := fun name cmd => existsb (String.eqb name) cmd
|}.

(** A disk with two images, one of them corrupt, and a font. *)
Definition studio : Example.Disk := {|
  Example.tree := Dir "in" (Ok [File "a.png"; File "b.JPG"]);
  Example.contents := [("in/a.png", "image"); ("in/b.JPG", "corrupt");
                       ("fonts/a.ttf", "ttf")];
  Example.readonly := [];
  Example.made := [];
  Example.written := []
|}.

(** The same, both images corrupt. *)
Definition ruined : Example.Disk := {|
  Example.tree := Example.tree studio;
  Example.contents := [("in/a.png", "corrupt"); ("in/b.JPG", "corrupt");
                       ("fonts/a.ttf", "ttf")];
  Example.readonly := [];
  Example.made := [];
  Example.written := []
|}.

(** The manager as [NewManager] and [LoadConfig] leave it when there is
    no configuration file. *)
Definition manager : Settings.Manager := {|
  Settings.config := {|
    Settings.App.FontPath := "./DejaVuSans.ttf";
    Settings.App.FontSize := lit 40;
    Settings.App.Opacity := 40;
    Settings.App.TextSpacing := lit 30;
    Settings.App.LineSpacing := lit 30;
    Settings.App.Quality := 95;
    Settings.App.LogLevel := "info";
    Settings.App.WatermarkColor := (150, 150, 150)%Z;
    Settings.App.SystemFontPaths := ["fonts/system.ttf"];
    Settings.App.DefaultWorkers := 4
  |};
  Settings.viper := []
|}.

(** The same with a default of 8 workers. *)
Definition eager : Settings.Manager := {|
  Settings.config := {|
    Settings.App.FontPath := "./DejaVuSans.ttf";
    Settings.App.FontSize := lit 40;
    Settings.App.Opacity := 40;
    Settings.App.TextSpacing := lit 30;
    Settings.App.LineSpacing := lit 30;
    Settings.App.Quality := 95;
    Settings.App.LogLevel := "info";
    Settings.App.WatermarkColor := (150, 150, 150)%Z;
    Settings.App.SystemFontPaths := ["fonts/system.ttf"];
    Settings.App.DefaultWorkers := 8
  |};
  Settings.viper := []
|}.

(** The store the flags are bound to, when two workers were asked for. *)
Definition two_workers : list (string * value) := [("workers", VInt 2)].

(** The order of a map: the order of insertion. *)
Definition in_order (l : list (string * value)) : list (string * value) := l.

(** The configuration of the first version of the command. *)
Definition old_acme : Legacy.WatermarkConfig := {|
  Legacy.CompanyName := "ACME";
  Legacy.Timestamp := Timestamp Example.acme;
  Legacy.FontSize := lit 40;
  Legacy.Opacity := 40;
  Legacy.Angle := lit 34;
  Legacy.Font := Some "ttf"
|}.

(** A blank image 13 pixels wide and 16 high. *)
Definition img13 : Image := NewRGBA (Rect 0 0 13 16).

End Workbench.

(* ================================================================== *)
(** * Part II. The vocabulary of the properties                        *)
(* ================================================================== *)

Module Spec.

Section Ranges.

Local Open Scope Q_scope.

(** [x] is a number between [lo] and [hi], both included. *)
Definition between (lo hi : Z) (x : float64) : Prop :=
  match x with
  | Fin q => inject_Z lo <= q <= inject_Z hi
  | _ => False
  end.

(** What the design document asks of an accepted configuration. *)
Definition in_ranges (c : Config) : Prop :=
  GoString.TrimSpace (CompanyName c) <> ""%string /\
  between 10 200 (FontSize c) /\
  between 5 200 (TextSpacing c) /\
  between 5 200 (LineSpacing c) /\
  (1 <= Quality c <= 100)%Z /\
  Font c <> None.

(** What the two comparisons of a range check let through: numbers in
    the range, and [NaN]. *)
Definition passes (lo hi : Z) (x : float64) : Prop :=
  between lo hi x \/ x = NaN.

End Ranges.

Section Libraries.

Context `{Externals}.



End Libraries.

Section Discovery.

Context `{Externals}.

(** A path is eligible when its extension, in lower case, is one of the
    three supported ones. *)
Definition eligible (path : string) : bool :=
  existsb (String.eqb (GoString.ToLower (GoString.Ext path))) supportedExts.

(** The files below a root, directory after directory, in the order of
    the listings. *)
Fixpoint files_under (path : string) (e : entry) {struct e} : list string :=
  match e with
  | File _ => [path]
  | Dir _ (Ok names) =>
      (fix entries (l : list entry) : list string :=
         match l with
         | [] => []
         | c :: l' => files_under (filepath_Join path (Walk.name_of c)) c ++ entries l'
         end) names
  | _ => []
  end.

(** The files of the root itself, whatever its subdirectories hold. *)
Definition files_in (path : string) (e : entry) : list string :=
  match e with
  | File _ => [path]
  | Dir _ (Ok names) =>
      flat_map (fun c => match c with
                         | File n => [filepath_Join path n]
                         | _ => []
                         end) names
  | _ => []
  end.

(** Every name below the root can be examined and every directory
    listed. *)
Fixpoint readable (e : entry) {struct e} : Prop :=
  match e with
  | File _ => True
  | Dir _ (Ok names) =>
      (fix entries (l : list entry) : Prop :=
         match l with
         | [] => True
         | c :: l' => readable c /\ entries l'
         end) names
  | _ => False
  end.

(** The same for the root and its own entries only; and the path of no
    entry is spelled like the root. *)
Definition readable_top (inputDir : string) (e : entry) : Prop :=
  match e with
  | File _ => True
  | Dir _ (Ok names) =>
      Forall (fun c => match c with
                       | File _ => True
                       | Dir n (Ok _) => filepath_Join inputDir n <> inputDir
                       | _ => False
                       end) names
  | _ => False
  end.

(** What the design document says is found, in either mode. *)
Definition found (rec : bool) (inputDir : string) (e : entry) : list string :=
  filter eligible (if rec then files_under inputDir e else files_in inputDir e).

Definition listable (rec : bool) (inputDir : string) (e : entry) : Prop :=
  if rec then readable e else readable_top inputDir e.

End Discovery.

Section Failures.

Context `{Externals}.

(** The three failures at the level of the directories. *)
Definition cannot_enumerate (bp : BatchProcessor) (inputDir : string) (m : Machine) : Prop :=
  snd (findImageFiles bp inputDir (world m)) <> None.

Definition no_files (bp : BatchProcessor) (inputDir : string) (m : Machine) : Prop :=
  fst (findImageFiles bp inputDir (world m)) = [].

Definition cannot_create (outputDir : string) (m : Machine) : Prop :=
  fst (os_MkdirAll outputDir (world m)) <> None.

Definition setup_fails (bp : BatchProcessor) (inputDir outputDir : string)
    (m : Machine) : Prop :=
  cannot_enumerate bp inputDir m \/ no_files bp inputDir m \/ cannot_create outputDir m.

(** No directory was created: the operating system is as it was, or as
    the one call to [os.MkdirAll] that failed has left it. *)
Definition nothing_created (outputDir : string) (m m' : Machine) : Prop :=
  world m' = world m \/
  exists err, os_MkdirAll outputDir (world m) = (Some err, world m').

End Failures.

Section Results.

Context `{Externals}.

(** The result a worker sends for a job. *)
Definition result_of (x : job * option error) : jobResult :=
  {| resultPath := inputPath (fst x); err := snd x |}.

(** The entries of [Errors] that a list of results gives rise to, and the
    results without an error. *)
Definition failures (col : list jobResult) : list BatchError :=
  flat_map (fun r => match err r with
                     | Some e => [{| FilePath := resultPath r; Error := Some e |}]
                     | None => []
                     end) col.

Definition succeeded (r : jobResult) : bool :=
  match err r with Some _ => false | None => true end.

(** The processor was made by [NewBatchProcessor], from options whose
    number of workers is an [int]. *)
Definition made_by_NewBatchProcessor (bp : BatchProcessor) : Prop :=
  exists config options m0 m0',
    NewBatchProcessor config options m0 = Some (Ok bp, m0') /\
    (Workers options <= max_int)%Z.


(** The files [ProcessDirectory] works on. *)
Definition discovered (bp : BatchProcessor) (inputDir : string) (m : Machine)
    : list string :=
  fst (findImageFiles bp inputDir (world m)).

End Results.

Section Layout.

Local Open Scope Q_scope.









End Layout.

End Spec.

Import Spec.

(* ================================================================== *)
(** * Part III. Properties                                             *)
(* ================================================================== *)

(** ** Numbers *)

Module Numbers.

Local Open Scope Q_scope.

Lemma Qltb_true (a b : Q) : Qltb a b = true <-> a < b.
Proof.
  unfold Qltb. rewrite negb_true_iff, <- not_true_iff_false, Qle_bool_iff.
  split; [apply Qnot_le_lt | apply Qlt_not_le].
Qed.

Lemma Qltb_false (a b : Q) : Qltb a b = false <-> b <= a.
Proof.
  unfold Qltb. rewrite negb_false_iff, Qle_bool_iff. tauto.
Qed.




End Numbers.

Import Numbers.

(** ** Validation of the configuration *)

Module Validation.

Local Open Scope Q_scope.

Lemma range_check (lo hi : Z) (x : float64) :
  (x <? lit lo)%f64 || (x >? lit hi)%f64 = false <-> passes lo hi x.
Proof.
  unfold passes, between, F64.gt, lit, of_int.
  destruct x as [q| | |]; simpl.
  - rewrite orb_false_iff, !Qltb_false. intuition discriminate.
  - intuition discriminate.
  - intuition discriminate.
  - intuition.
Qed.

(** [ValidateConfig] accepts exactly the configurations whose name is not
    blank, whose three sizes pass their range checks, whose quality is in
    range and whose font is not nil. *)
Lemma ValidateConfig_accepts (c : Config) :
  ValidateConfig (Some c) = None <->
  GoString.TrimSpace (CompanyName c) <> ""%string /\
  passes 10 200 (FontSize c) /\
  passes 5 200 (TextSpacing c) /\
  passes 5 200 (LineSpacing c) /\
  (1 <= Quality c <= 100)%Z /\
  Font c <> None.
Proof.
  unfold ValidateConfig.
  destruct (String.eqb_spec (GoString.TrimSpace (CompanyName c)) "") as [E|E].
  { split; [discriminate | tauto]. }
  rewrite <- !range_check.
  destruct ((FontSize c <? lit 10)%f64 || (FontSize c >? lit 200)%f64).
  { split; [discriminate | intuition discriminate]. }
  destruct ((TextSpacing c <? lit 5)%f64 || (TextSpacing c >? lit 200)%f64).
  { split; [discriminate | intuition discriminate]. }
  destruct ((LineSpacing c <? lit 5)%f64 || (LineSpacing c >? lit 200)%f64).
  { split; [discriminate | intuition discriminate]. }
  destruct (Z.ltb_spec (Quality c) 1); simpl.
  { split; [discriminate | intros; exfalso; lia]. }
  destruct (Z.gtb_spec (Quality c) 100); simpl.
  { split; [discriminate | intros; exfalso; lia]. }
  destruct (Font c).
  - split; intros; [repeat split; auto; try lia; discriminate | reflexivity].
  - split; [discriminate | intuition congruence].
Qed.

(** A nil configuration is rejected. *)
Lemma ValidateConfig_nil : ValidateConfig None <> None.
Proof. discriminate. Qed.

(** Every configuration within the ranges is accepted. *)
Lemma ValidateConfig_in_ranges (c : Config) :
  in_ranges c -> ValidateConfig (Some c) = None.
Proof.
  unfold in_ranges. intros. apply ValidateConfig_accepts. unfold passes. tauto.
Qed.

(** When none of the three sizes is [NaN], acceptance is the document's
    condition. *)
Lemma ValidateConfig_numbers (c : Config) :
  FontSize c <> NaN -> TextSpacing c <> NaN -> LineSpacing c <> NaN ->
  (ValidateConfig (Some c) = None <-> in_ranges c).
Proof.
  intros. rewrite ValidateConfig_accepts. unfold in_ranges, passes. tauto.
Qed.

(** The rejections the design document lists. *)
Lemma ValidateConfig_rejects (c : Config) :
  FontSize c = lit 5 \/ Quality c = 0%Z \/ Quality c = 101%Z \/ CompanyName c = ""%string ->
  ValidateConfig (Some c) <> None.
Proof.
  rewrite ValidateConfig_accepts. unfold passes, between.
  intros [E | [E | [E | E]]] (Hn & Hf & _ & _ & Hq & _).
  - rewrite E in Hf. destruct Hf as [[Hf _] | Hf]; [| discriminate].
    apply Qle_bool_iff in Hf. discriminate.
  - lia.
  - lia.
  - rewrite E in Hn. apply Hn. reflexivity.
Qed.

(** C5 fails on the code at a size that is not a number: [NaN] is not
    between 10 and 200, and the configuration whose font size it is, in
    range otherwise, is accepted all the same, both comparisons of the
    range check being false on [NaN]. *)
Theorem ValidateConfig_accepts_NaN :
  ValidateConfig (Some Example.acme_nan) = None /\
  ~ between 10 200 (FontSize Example.acme_nan) /\
  ~ in_ranges Example.acme_nan.
Proof.
  split; [reflexivity |].
  split; [simpl; tauto | unfold in_ranges; simpl; tauto].
Qed.

End Validation.

(** ** The renderer *)

Module Rendering.

Section Fuel.

Context `{Externals}.

(** More fuel does not change what a loop that ended has painted. *)
Lemma columns_mono (fontFace : font.Face) (text : string)
    (w textWidth xDistance offset : vg.Length) (f f' : nat) :
  f <= f' ->
  forall xOffset c c',
    columns f fontFace text w textWidth xDistance offset xOffset c = Some c' ->
    columns f' fontFace text w textWidth xDistance offset xOffset c = Some c'.
Proof.
  revert f'. induction f as [|f IH]; intros f' Hle xOffset c c' Hc.
  - discriminate.
  - destruct f' as [|f']; [lia |].
    cbn [columns] in *. destruct (xOffset <? w)%f64; [| assumption].
    apply IH; [lia | assumption].
Qed.

Lemma rows_mono (fontFace : font.Face) (text : string)
    (w diagonal lineHeight textWidth xDistance yDistance : vg.Length) (f f' : nat) :
  f <= f' ->
  forall line offset c c',
    rows f fontFace text w diagonal lineHeight textWidth xDistance yDistance
      line offset c = Some c' ->
    rows f' fontFace text w diagonal lineHeight textWidth xDistance yDistance
      line offset c = Some c'.
Proof.
  revert f'. induction f as [|f IH]; intros f' Hle line offset c c' Hc.
  - discriminate.
  - destruct f' as [|f']; [lia |].
    cbn [rows] in *. destruct (offset <? lit 2 * diagonal)%f64; [| assumption].
    destruct (columns f fontFace text w textWidth xDistance offset
                (- of_int (wrap_int (line + 1)) * Fin (3 # 2) * textWidth)%f64 c)
      as [c1|] eqn:E; [| discriminate].
    rewrite (columns_mono fontFace text w textWidth xDistance offset f f'
               ltac:(lia) _ _ _ E).
    apply IH; [lia | assumption].
Qed.

Lemma tiled_mono (cfg : Config) (img : Image) (f f' : nat) (c : vgimg.Canvas) :
  f <= f' -> tiled f cfg img = Some c -> tiled f' cfg img = Some c.
Proof. unfold tiled, tile. intros. eapply rows_mono; eassumption. Qed.

(** What the loops paint does not depend on the fuel they were given. *)
Lemma tiled_unique (cfg : Config) (img : Image) (f1 f2 : nat) (c1 c2 : vgimg.Canvas) :
  tiled f1 cfg img = Some c1 -> tiled f2 cfg img = Some c2 -> c1 = c2.
Proof.
  intros H1 H2.
  apply (tiled_mono cfg img f1 (Nat.max f1 f2)) in H1; [| lia].
  apply (tiled_mono cfg img f2 (Nat.max f1 f2)) in H2; [| lia].
  congruence.
Qed.

(** The crop has the bounds of the input. *)
Lemma crop_Bounds (img processedImg : Image) :
  Bounds (crop img processedImg) = Bounds img.
Proof. reflexivity. Qed.

(** What [applyWatermark] returns, spelled out. *)
Lemma applyWatermark_Ok (fuel : nat) (p : Processor) (img out : Image) (m m' : Machine) :
  applyWatermark fuel p img m = Some (Ok out, m') ->
  exists c buff processedImg,
    tiled fuel (config p) img = Some c /\
    PngCanvas_WriteTo c = Ok buff /\
    image_Decode buff = Ok processedImg /\
    out = crop img processedImg.
Proof.
  unfold applyWatermark. intros Hr.
  destruct (tiled fuel (config p) img) as [c|]; [| discriminate].
  destruct (PngCanvas_WriteTo c) as [buff|] eqn:Ew; [| discriminate].
  destruct (image_Decode buff) as [processedImg|] eqn:Ed; [| discriminate].
  exists c, buff, processedImg. repeat split; congruence.
Qed.

(** [ProcessFile] returns nil only when the file was opened, decoded,
    rendered and saved: a failure of any of these is the error it
    returns. *)
Lemma ProcessFile_nil (fuel : nat) (p : Processor) (inputPath outputPath : string)
    (m m' : Machine) :
  ProcessFile fuel p inputPath outputPath m = Some (None, m') ->
  exists data img out m1,
    os_Open inputPath (world m) = Ok data /\
    decodeImage data inputPath = Ok img /\
    applyWatermark fuel p img m = Some (Ok out, m1) /\
    saveImage p out outputPath m1 = Some (Ok tt, m').
Proof.
  unfold ProcessFile, bind, wrapping, lift. intros Hp.
  destruct (os_Open inputPath (world m)) as [data|]; [| discriminate].
  destruct (decodeImage data inputPath) as [img|] eqn:Ed; [| discriminate].
  destruct (applyWatermark fuel p img m) as [[[out|] m1]|] eqn:Ea; try discriminate.
  destruct (saveImage p out outputPath m1) as [[[[]|] m2]|] eqn:Es; try discriminate.
  injection Hp as <-. exists data, img, out, m1. repeat split; assumption.
Qed.

(** A file that cannot be decoded: the error of the decoder, wrapped. *)
Lemma ProcessFile_decode_error (fuel : nat) (p : Processor)
    (inputPath outputPath data : string) (e : error) (m : Machine) :
  os_Open inputPath (world m) = Ok data ->
  decodeImage data inputPath = Err e ->
  ProcessFile fuel p inputPath outputPath m
  = Some (Some (Wrapf "decoding image: %w" e), m).
Proof.
  intros Ho Hd. unfold ProcessFile, bind, wrapping, lift. rewrite Ho, Hd. reflexivity.
Qed.

(** C6: for a configuration that passes validation, the image that
    [applyWatermark] (and so [ProcessImage]) returns has the bounds of
    the input image, hence its width and its height in pixels. *)
Theorem applyWatermark_keeps_dimensions
    (fuel : nat) (p : Processor) (img out : Image) (m m' : Machine) :
  ValidateConfig (Some (config p)) = None ->
  ProcessImage fuel p img m = Some (Ok out, m') ->
  Bounds out = Bounds img /\
  Dx (Bounds out) = Dx (Bounds img) /\
  Dy (Bounds out) = Dy (Bounds img) /\
  Img.Size (Bounds out) = Img.Size (Bounds img).
Proof.
  intros _ Hr. unfold ProcessImage in Hr.
  destruct (applyWatermark_Ok _ _ _ _ _ _ Hr) as (c & buff & processedImg & _ & _ & _ & ->).
  rewrite crop_Bounds. repeat split.
Qed.

(** C9: two calls of [applyWatermark] on the same image, with the same
    configuration (the timestamp is part of it), return the same result,
    whatever the state each starts from (the operating system, the
    package variable [plot.DefaultFont] that the call itself overwrites)
    and whatever fuel each was given; two images returned are the same
    pixel for pixel. *)
Theorem applyWatermark_deterministic
    (fuel1 fuel2 : nat) (p : Processor) (img : Image)
    (m1 m2 m1' m2' : Machine) (r1 r2 : result Image) :
  applyWatermark fuel1 p img m1 = Some (r1, m1') ->
  applyWatermark fuel2 p img m2 = Some (r2, m2') ->
  r1 = r2 /\
  forall out1 out2, r1 = Ok out1 -> r2 = Ok out2 -> pixel_identical out1 out2.
Proof.
  unfold applyWatermark. intros H1 H2.
  destruct (tiled fuel1 (config p) img) as [c1|] eqn:E1; [| discriminate].
  destruct (tiled fuel2 (config p) img) as [c2|] eqn:E2; [| discriminate].
  assert (c1 = c2) by (eapply tiled_unique; eassumption). subst c2.
  assert (r1 = r2).
  { destruct (PngCanvas_WriteTo c1) as [buff|]; [| congruence].
    destruct (image_Decode buff); congruence. }
  split; [assumption |].
  intros out1 out2 -> ->. assert (out1 = out2) by congruence. subst out2.
  split; reflexivity.
Qed.

End Fuel.

Lemma applyWatermark_keeps_dimensions_witness :
  ValidateConfig (Some Example.acme) = None /\
  @ProcessImage Example.toy 100 Example.proc Example.img12 (Example.boot Example.disk)
    = Some (Ok Example.rendered, Example.after_render (Example.boot Example.disk)) /\
  Bounds Example.rendered = Rect 0 0 12 16 /\
  Dx (Bounds Example.rendered) = 12%Z /\
  Dy (Bounds Example.rendered) = 16%Z.
Proof.
  split; [reflexivity |].
  split; [reflexivity |].
  destruct (@applyWatermark_keeps_dimensions Example.toy 100 Example.proc Example.img12
              Example.rendered (Example.boot Example.disk)
              (Example.after_render (Example.boot Example.disk)) eq_refl eq_refl)
    as (Hb & Hx & Hy & _).
  split; [exact Hb |]. split; [exact Hx | exact Hy].
Defined.

(** Two renderings, the second from the state the first has left (and
    with less fuel). *)
Lemma applyWatermark_deterministic_witness :
  @applyWatermark Example.toy 100 Example.proc Example.img12 (Example.boot Example.disk)
    = Some (Ok Example.rendered, Example.after_render (Example.boot Example.disk)) /\
  @applyWatermark Example.toy 7 Example.proc Example.img12
      (Example.after_render (Example.boot Example.disk))
    = Some (Ok Example.rendered, Example.after_render (Example.boot Example.disk)) /\
  Ok Example.rendered = Ok Example.rendered /\
  pixel_identical Example.rendered Example.rendered.
Proof.
  split; [reflexivity |].
  split; [reflexivity |].
  destruct (@applyWatermark_deterministic Example.toy 100 7 Example.proc Example.img12
              (Example.boot Example.disk)
              (Example.after_render (Example.boot Example.disk))
              _ _ _ _ eq_refl eq_refl) as [Hr Hp].
  split; [exact Hr | exact (Hp _ _ eq_refl eq_refl)].
Defined.

End Rendering.

(** ** Termination of the tiling loops *)

Module Termination.

Section Loops.

Context `{Externals}.

Local Open Scope Q_scope.

Variable fontFace : font.Face.
Variable text : string.

(** The horizontal offset at which a row starts. *)
Definition start (line : Z) (textWidth : vg.Length) : vg.Length :=
  (- of_int line * Fin (3 # 2) * textWidth)%f64.


Lemma rows_S (fuel : nat)
    (w diagonal lineHeight textWidth xDistance yDistance : vg.Length)
    (line : Z) (offset : vg.Length) (c : vgimg.Canvas) :
  rows (S fuel) fontFace text w diagonal lineHeight textWidth xDistance yDistance
    line offset c =
  if (offset <? lit 2 * diagonal)%f64 then
    match columns fuel fontFace text w textWidth xDistance offset
            (start (wrap_int (line + 1)) textWidth) c with
    | None => None
    | Some c =>
        rows fuel fontFace text w diagonal lineHeight textWidth xDistance yDistance
          (wrap_int (line + 1)) (offset + (lineHeight + yDistance))%f64 c
    end
  else Some c.
Proof. reflexivity. Qed.





Variables w lineHeight textWidth xDistance yDistance : vg.Length.






End Loops.

Section Tiling.

Context `{Externals}.

Local Open Scope Q_scope.

Lemma passes_sum (lo1 lo2 hi1 hi2 : Z) (x y : float64) :
  passes lo1 hi1 x -> passes lo2 hi2 y ->
  (x + y)%f64 = NaN \/
  exists t, (x + y)%f64 = Fin t /\ inject_Z lo1 + inject_Z lo2 <= t.
Proof.
  unfold passes, between.
  intros [Hx | ->]; [| left; reflexivity].
  intros [Hy | ->]; [| left; destruct x; reflexivity].
  destruct x as [a| | |]; try contradiction.
  destruct y as [b| | |]; try contradiction.
  right. exists (a + b). split; [reflexivity | lra].
Qed.





End Tiling.




End Termination.

(** ** The discovery of the files *)

Module Discovery.

Section Listing.

Context `{Externals}.

(** The entries of a directory, walked in order. *)
Fixpoint walk_entries (S : Type)
    (walkFn : string -> Walk.FileInfo -> option error -> S -> option Walk.stop * S)
    (path : string) (l : list entry) (st : S) {struct l} : option Walk.stop * S :=
  match l with
  | [] => (None, st)
  | c :: l' =>
      let filename := filepath_Join path (Walk.name_of c) in
      match c with
      | Broken _ err =>
          match walkFn filename None (Some err) st with
          | (Some (Walk.Stop e), st) => (Some (Walk.Stop e), st)
          | (_, st) => walk_entries S walkFn path l' st
          end
      | _ =>
          match Walk.walk S walkFn filename c st with
          | (None, st) => walk_entries S walkFn path l' st
          | (Some Walk.SkipDir, st) =>
              if Walk.IsDir c then walk_entries S walkFn path l' st
              else (Some Walk.SkipDir, st)
          | (Some (Walk.Stop e), st) => (Some (Walk.Stop e), st)
          end
      end
  end.

End Listing.

(** Induction on a tree, with the property at hand for every entry of a
    directory that could be listed. *)
Fixpoint entry_ind' (P : entry -> Prop)
    (HFile : forall n, P (File n))
    (HBroken : forall n e, P (Broken n e))
    (HErr : forall n e, P (Dir n (Err e)))
    (HDir : forall n l, Forall P l -> P (Dir n (Ok l)))
    (e : entry) {struct e} : P e :=
  match e with
  | File n => HFile n
  | Broken n err => HBroken n err
  | Dir n (Err err) => HErr n err
  | Dir n (Ok l) =>
      HDir n l
        ((fix all (l : list entry) : Forall P l :=
            match l with
            | [] => Forall_nil P
            | c :: l' =>
                Forall_cons c (entry_ind' P HFile HBroken HErr HDir c) (all l')
            end) l)
  end.

Section Facts.

Context `{Externals}.

Lemma walk_Dir (S : Type)
    (walkFn : string -> Walk.FileInfo -> option error -> S -> option Walk.stop * S)
    (path n : string) (names : list entry) (st : S) :
  Walk.walk S walkFn path (Dir n (Ok names)) st =
  match walkFn path (Some true) None st with
  | (Some err1, st) => (Some err1, st)
  | (None, st) => walk_entries S walkFn path names st
  end.
Proof.
  cbn [Walk.walk]. destruct (walkFn path (Some true) None st) as [[err1|] st'].
  - reflexivity.
  - revert st'. induction names as [|c l IH]; intros st'.
    + reflexivity.
    + cbn [walk_entries]. destruct c as [n' | n' listing | n' err].
      * destruct (Walk.walk S walkFn _ (File n') st') as [[[|e]|] st2];
          try reflexivity; apply IH.
      * destruct (Walk.walk S walkFn _ (Dir n' listing) st') as [[[|e]|] st2];
          try reflexivity; apply IH.
      * destruct (walkFn _ None (Some err) st') as [[[|e]|] st2];
          try reflexivity; apply IH.
Qed.

Lemma readable_Dir (n : string) (names : list entry) :
  readable (Dir n (Ok names)) <-> Forall readable names.
Proof.
  cbn [readable]. induction names as [|c l IH].
  - split; [constructor | trivial].
  - rewrite IH. split.
    + intros [Hc Hl]. constructor; assumption.
    + intros Hf. inversion Hf. split; assumption.
Qed.

Lemma files_under_Dir (path n : string) (names : list entry) :
  files_under path (Dir n (Ok names)) =
  flat_map (fun c => files_under (filepath_Join path (Walk.name_of c)) c) names.
Proof.
  cbn [files_under]. induction names as [|c l IH].
  - reflexivity.
  - cbn [flat_map]. rewrite IH. reflexivity.
Qed.

(** The loop over the supported extensions appends an eligible path, once. *)
Lemma match_ext_eligible (path : string) (imageFiles : list string) :
  match_ext (GoString.ToLower (GoString.Ext path)) supportedExts path imageFiles =
  imageFiles ++ filter eligible [path].
Proof.
  unfold eligible, supportedExts. cbn [match_ext existsb filter].
  destruct (String.eqb _ ".jpg"); [reflexivity |].
  destruct (String.eqb _ ".jpeg"); [reflexivity |].
  destruct (String.eqb _ ".png"); [reflexivity |].
  symmetry. apply app_nil_r.
Qed.

Lemma eligible_iff (path : string) :
  eligible path = true <->
  GoString.ToLower (GoString.Ext path) = ".jpg"%string \/
  GoString.ToLower (GoString.Ext path) = ".jpeg"%string \/
  GoString.ToLower (GoString.Ext path) = ".png"%string.
Proof.
  unfold eligible, supportedExts. cbn [existsb].
  rewrite !orb_true_iff, !String.eqb_eq. intuition discriminate.
Qed.

Section Modes.

Variable bp : BatchProcessor.
Variable inputDir : string.

Let walkFn := visit bp inputDir.

Lemma visit_file (path : string) (imageFiles : list string) :
  walkFn path (Some false) None imageFiles =
  (None, imageFiles ++ filter eligible [path]).
Proof. unfold walkFn, visit. rewrite match_ext_eligible. reflexivity. Qed.

(** In recursive mode every directory is entered. *)
Lemma walk_recursive :
  recursive bp = true ->
  forall e, readable e ->
  forall path imageFiles,
    Walk.walk (list string) walkFn path e imageFiles =
    (None, imageFiles ++ filter eligible (files_under path e)).
Proof.
  intros Hrec e.
  induction e as [n | n err | n err | n l IH] using entry_ind';
    intros Hr path imageFiles; try contradiction.
  - cbn [Walk.walk files_under]. apply visit_file.
  - rewrite walk_Dir, files_under_Dir.
    replace (walkFn path (Some true) None imageFiles) with
      (@None Walk.stop, imageFiles)
      by (unfold walkFn, visit; rewrite Hrec; reflexivity).
    apply readable_Dir in Hr. clear n.
    revert imageFiles. induction l as [|c l IHl]; intros imageFiles.
    + cbn. rewrite app_nil_r. reflexivity.
    + inversion IH as [|? ? IHc IHl']; subst. inversion Hr as [|? ? Hc Hl]; subst.
      cbn [walk_entries flat_map].
      rewrite filter_app, app_assoc.
      destruct c as [n' | n' listing | n' err]; [| | contradiction].
      * rewrite (IHc Hc). apply IHl; assumption.
      * rewrite (IHc Hc). apply IHl; assumption.
Qed.

(** In the other mode the directories of the root are listed and left. *)
Lemma walk_top :
  recursive bp = false ->
  forall e, readable_top inputDir e ->
  forall imageFiles,
    Walk.walk (list string) walkFn inputDir e imageFiles =
    (None, imageFiles ++ filter eligible (files_in inputDir e)).
Proof.
  intros Hrec e Hr imageFiles.
  destruct e as [n | n [l | err] | n err]; try contradiction.
  - cbn [Walk.walk files_in]. apply visit_file.
  - rewrite walk_Dir. cbn [readable_top files_in] in *.
    replace (walkFn inputDir (Some true) None imageFiles) with
      (@None Walk.stop, imageFiles)
      by (unfold walkFn, visit; rewrite String.eqb_refl, andb_false_r; reflexivity).
    revert imageFiles. induction l as [|c l IHl]; intros imageFiles.
    + cbn. rewrite app_nil_r. reflexivity.
    + inversion Hr as [|? ? Hc Hl]; subst.
      cbn [walk_entries flat_map].
      rewrite filter_app, app_assoc.
      destruct c as [n' | n' [l' | err] | n' err]; try contradiction.
      * cbn [Walk.walk Walk.name_of]. rewrite visit_file. apply IHl; assumption.
      * rewrite walk_Dir. cbn [Walk.name_of Walk.IsDir].
        replace (walkFn (filepath_Join inputDir n') (Some true) None imageFiles)
          with (Some Walk.SkipDir, imageFiles).
        -- cbn [filter]. rewrite app_nil_r. apply IHl; assumption.
        -- unfold walkFn, visit. rewrite Hrec.
           apply String.eqb_neq in Hc. rewrite Hc. reflexivity.
Qed.

End Modes.


End Facts.

End Discovery.

Module DiscoveryExamples.

Import Discovery.


End DiscoveryExamples.

(** ** The failures of [ProcessDirectory] *)

Module Failures.

Section Setup.

Context `{Externals}.

Lemma len_zero (A : Type) (l : list A) : (len l =? 0)%Z = true <-> l = [].
Proof.
  unfold len. rewrite Z.eqb_eq. destruct l; simpl; split; try reflexivity; try lia.
  discriminate.
Qed.

(** What [setup] returns, by cases. *)
Lemma setup_cases (bp : BatchProcessor) (inputDir outputDir : string) (m : Machine) :
  (setup_fails bp inputDir outputDir m /\
   exists e m', setup bp inputDir outputDir m = (Err e, m') /\
                nothing_created outputDir m m' /\
                (~ cannot_enumerate bp inputDir m -> no_files bp inputDir m ->
                 world m' = world m)) \/
  (~ setup_fails bp inputDir outputDir m /\
   exists w, os_MkdirAll outputDir (world m) = (None, w) /\
     setup bp inputDir outputDir m =
       (Ok (fst (findImageFiles bp inputDir (world m))),
        set_world w (starting_log bp inputDir outputDir
                       (fst (findImageFiles bp inputDir (world m))) m))).
Proof.
  unfold setup_fails, cannot_enumerate, no_files, cannot_create, nothing_created, setup.
  destruct (findImageFiles bp inputDir (world m)) as [files [err|]]; cbn [fst snd].
  - left. split; [left; discriminate |].
    eexists _, m. repeat split; auto; intros Hn; exfalso; apply Hn; discriminate.
  - destruct (len files =? 0)%Z eqn:El.
    + apply len_zero in El. left. split; [tauto |].
      eexists _, m. repeat split; auto.
    + assert (files <> []) by (intros E; apply len_zero in E; congruence).
      change (world (starting_log bp inputDir outputDir files m)) with (world m).
      destruct (os_MkdirAll outputDir (world m)) as [[err|] w] eqn:Em; cbn [fst].
      * left. split; [right; right; discriminate |].
        eexists _, _. repeat split.
        -- right. exists err. reflexivity.
        -- intros _ E. contradiction.
      * right. split.
        -- intros [Hc | [Hc | Hc]]; [apply Hc; reflexivity | contradiction
                                     | apply Hc; reflexivity].
        -- exists w. split; reflexivity.
Qed.

(** C3: [ProcessDirectory] returns an error exactly when the input
    directory cannot be enumerated, or no eligible file is found, or the
    output directory cannot be created; it does so under every schedule,
    without having created a directory or processed a file; and with no
    eligible file it returns an error, never a result. *)
Theorem ProcessDirectory_fails_exactly
    (bp : BatchProcessor) (inputDir outputDir : string) (m : Machine) :
  (forall o m',
     ProcessDirectory_returns bp inputDir outputDir m o m' ->
     ((exists e, o = Failed e) <-> setup_fails bp inputDir outputDir m)) /\
  (setup_fails bp inputDir outputDir m ->
   exists e m',
     ProcessDirectory_returns bp inputDir outputDir m (Failed e) m' /\
     (forall schedule,
        ProcessDirectory schedule bp inputDir outputDir m = Some (Failed e, m')) /\
     nothing_created outputDir m m') /\
  (~ cannot_enumerate bp inputDir m -> no_files bp inputDir m ->
   forall o m',
     ProcessDirectory_returns bp inputDir outputDir m o m' ->
     (exists e, o = Failed e) /\ world m' = world m).
Proof.
  unfold ProcessDirectory_returns, ProcessDirectory.
  destruct (setup_cases bp inputDir outputDir m)
    as [(Hf & e & m1 & Es & Hn & Hz) | (Hf & w & Ew & Es)]; rewrite Es.
  - split; [| split].
    + intros o m' [-> _]. split; eauto.
    + intros _. exists e, m1. repeat split; auto.
    + intros Hne Hz' o m' [-> ->]. split; eauto.
  - split; [| split].
    + intros o m' (result & m2 & _ & -> & _). split.
      * intros [e' E]. discriminate.
      * intros Hf'. contradiction.
    + intros Hf'. contradiction.
    + intros Hne Hz. exfalso. apply Hf. right. left. exact Hz.
Qed.

End Setup.

(** With the option that excludes subdirectories, the small world under
    in/sub alone holds no eligible file at the top: an error, and
    nothing created. *)
Example ProcessDirectory_no_files :
  forall schedule,
    option_map fst
      (@ProcessDirectory Example.toy schedule (Example.batch false) "in/sub/none" "out"
         (Example.boot
            {| Example.tree := Dir "none" (Ok [File "notes.txt"]);
               Example.contents := []; Example.readonly := [];
               Example.made := []; Example.written := [] |}))
    = Some (Failed (ErrorfStr "no image files found in %s" "in/sub/none")).
Proof. intros schedule. reflexivity. Qed.

End Failures.

(** ** The worker pool *)

Module PoolFacts.

(** Lists up to the order of their elements, for the tactics that work
    modulo associativity and commutativity. *)
Section Bags.

Context {A : Type}.

#[export] Instance bag_assoc : Associative (@Permutation A) (@app A).
Proof. intros x y z. rewrite app_assoc. reflexivity. Qed.

#[export] Instance bag_comm : Commutative (@Permutation A) (@app A).
Proof. intros x y. apply Permutation_app_comm. Qed.

#[export] Instance bag_unit : Unit (@Permutation A) (@app A) (@nil A).
Proof. split; intros x; [reflexivity | rewrite app_nil_r; reflexivity]. Qed.



Lemma update_split (l : list A) (k : nat) (a : A) :
  nth_error l k = Some a ->
  exists pre post, l = pre ++ a :: post /\ forall b, update k b l = pre ++ b :: post.
Proof.
  revert k. induction l as [|x l IH]; intros [|k] Hk; try discriminate.
  - injection Hk as ->. exists [], l. split; reflexivity.
  - destruct (IH k Hk) as (pre & post & -> & Hu).
    exists (x :: pre), post. split; [reflexivity |].
    intros b. cbn. rewrite Hu. reflexivity.
Qed.

End Bags.

(** The jobs the workers hold, the results they are about to send, and
    the number of workers that have not returned. *)
Definition in_hand (pool : list worker_pc) : list job :=
  flat_map (fun w => match w with Processing j => [j] | _ => [] end) pool.

Definition to_send (pool : list worker_pc) : list jobResult :=
  flat_map (fun w => match w with Sending r => [r] | _ => [] end) pool.

Definition running (w : worker_pc) : bool :=
  match w with Exited => false | _ => true end.

Definition alive (pool : list worker_pc) : nat := List.length (filter running pool).

Arguments in_hand : simpl never.
Arguments to_send : simpl never.
Arguments alive : simpl never.

Lemma in_hand_app (p q : list worker_pc) : in_hand (p ++ q) = in_hand p ++ in_hand q.
Proof. apply flat_map_app. Qed.

Lemma to_send_app (p q : list worker_pc) : to_send (p ++ q) = to_send p ++ to_send q.
Proof. apply flat_map_app. Qed.

Lemma alive_app (p q : list worker_pc) : alive (p ++ q) = alive p + alive q.
Proof. unfold alive. rewrite filter_app, length_app. reflexivity. Qed.

Lemma in_hand_mid (pre post : list worker_pc) (w : worker_pc) :
  in_hand (pre ++ w :: post) =
  in_hand pre ++ match w with Processing j => [j] | _ => [] end ++ in_hand post.
Proof. rewrite in_hand_app. reflexivity. Qed.

Lemma to_send_mid (pre post : list worker_pc) (w : worker_pc) :
  to_send (pre ++ w :: post) =
  to_send pre ++ match w with Sending r => [r] | _ => [] end ++ to_send post.
Proof. rewrite to_send_app. reflexivity. Qed.

Lemma alive_mid (pre post : list worker_pc) (w : worker_pc) :
  alive (pre ++ w :: post) = alive pre + ((if running w then 1 else 0) + alive post).
Proof. rewrite alive_app. unfold alive. cbn [filter]. destruct (running w); reflexivity. Qed.

Lemma length_mid (pre post : list worker_pc) (w : worker_pc) :
  List.length (pre ++ w :: post) = List.length pre + S (List.length post).
Proof. rewrite length_app. reflexivity. Qed.

Lemma alive_le (p : list worker_pc) : alive p <= List.length p.
Proof. apply filter_length_le. Qed.

(** When no worker is left, none holds a job or a result. *)
Lemma alive_zero (p : list worker_pc) :
  alive p = 0 -> in_hand p = [] /\ to_send p = [] /\ Forall (eq Exited) p.
Proof.
  induction p as [|w p IH]; [repeat split; constructor |].
  unfold alive. destruct w; cbn; try discriminate.
  intros Hp. destruct (IH Hp) as (? & ? & ?). repeat split; auto.
Qed.


Lemma failures_app (a b : list jobResult) : failures (a ++ b) = failures a ++ failures b.
Proof. apply flat_map_app. Qed.

Lemma failures_one (r : jobResult) :
  failures [r] =
  match err r with
  | Some e => [{| FilePath := resultPath r; Error := Some e |}]
  | None => []
  end.
Proof. unfold failures. cbn [flat_map]. apply app_nil_r. Qed.

(** Every result is a failure or a success. *)
Lemma failures_length (col : list jobResult) :
  List.length (failures col) + List.length (filter succeeded col) = List.length col.
Proof.
  induction col as [|r col IH]; [reflexivity |].
  unfold failures, succeeded in *. cbn [flat_map filter].
  destruct (err r); cbn [List.length app]; lia.
Qed.

(** An entry of [Errors] comes from a result with an error. *)
Lemma failures_In (col : list jobResult) (b : BatchError) :
  In b (failures col) <->
  exists r e, In r col /\ err r = Some e /\ b = {| FilePath := resultPath r; Error := Some e |}.
Proof.
  unfold failures. rewrite in_flat_map. split.
  - intros (r & Hr & Hb). destruct (err r) as [e|] eqn:Er; [| destruct Hb].
    destruct Hb as [<- | []]. exists r, e. auto.
  - intros (r & e & Hr & Er & ->). exists r. split; [assumption |].
    rewrite Er. left. reflexivity.
Qed.

Lemma wrap_int_id (z : Z) : (min_int <= z <= max_int)%Z -> wrap_int z = z.
Proof.
  unfold wrap_int, min_int, max_int. intros Hz.
  rewrite Z.mod_small; lia.
Qed.

Section Run.

Context `{Externals}.

Variable bp : BatchProcessor.
Variable imageFiles : list string.
Variables inputDir outputDir : string.

(** The processor was made by [NewBatchProcessor]: at least one worker. *)
Hypothesis Hworkers : (1 <= workers bp <= max_int)%Z.

(** The result after the results [col] were collected, in order. *)
Definition tally (col : list jobResult) : BatchResult :=
  fold_left (fun res r => collect r res) col
    {| TotalCount := len imageFiles; SuccessCount := 0; ErrorCount := 0; Errors := [] |}.

Definition before_close (s : State) : bool :=
  match main s with
  | Starting _ | Queueing _ | Offering _ _ => true
  | _ => false
  end.

(** The results collected so far are [col]. *)
Definition tallied (s : State) (col : list jobResult) : Prop :=
  match main s with
  | Collecting res | Done res => res = tally col
  | _ => col = []
  end.

(** The files gone through so far were skipped or sent. *)
Definition queued (s : State) : Prop :=
  match main s with
  | Starting _ => skipped s = [] /\ sent s = []
  | Queueing rest =>
      exists done, imageFiles = done ++ rest /\
        Permutation (skipped s ++ map inputPath (sent s)) done
  | Offering j rest =>
      exists done, imageFiles = done ++ inputPath j :: rest /\
        Permutation (skipped s ++ map inputPath (sent s)) done
  | Collecting _ | Done _ =>
      Permutation (skipped s ++ map inputPath (sent s)) imageFiles
  end.

(** What holds in every state of a run. *)
Record Inv (s : State) : Prop := {
  inv_caps : cap (jobs s) = len imageFiles /\ cap (results s) = len imageFiles;
  inv_jobs :
    Permutation (sent s) (buf (jobs s) ++ in_hand (pool s) ++ map fst (processed s));
  inv_results :
    exists col,
      Permutation (map result_of (processed s))
        (to_send (pool s) ++ buf (results s) ++ col) /\
      tallied s col;
  inv_queue : queued s;
  inv_phase :
    if before_close s
    then closed (jobs s) = false /\ closer s = NotStarted /\ closed (results s) = false
    else closed (jobs s) = true /\ closer s <> NotStarted;
  inv_closer :
    (closed (results s) = true <-> closer s = Finished) /\
    (closer s = Finished -> wg s = 0%Z);
  inv_wg : wg s = Z.of_nat (alive (pool s));
  inv_exited :
    alive (pool s) < List.length (pool s) -> closed (jobs s) = true /\ buf (jobs s) = [];
  inv_pool :
    match main s with
    | Starting i => (0 <= i <= workers bp)%Z /\ len (pool s) = i
    | _ => 1 <= List.length (pool s)
    end;
  inv_done :
    forall res, main s = Done res -> buf (results s) = [] /\ closed (results s) = true
}.

Lemma tally_snoc (col : list jobResult) (r : jobResult) :
  tally (col ++ [r]) = collect r (tally col).
Proof. unfold tally. rewrite fold_left_app. reflexivity. Qed.

Lemma Inv_initial (m : Machine) : Inv (initial imageFiles m).
Proof.
  constructor; cbn; auto.
  - exists []. split; [constructor | reflexivity].
  - split; [split; discriminate | discriminate].
  - intros Hlt. inversion Hlt.
  - split; [lia | reflexivity].
  - discriminate.
Qed.

(** The fields of the invariant, one goal each, in order. *)
Ltac fields :=
  constructor;
  cbn [machine jobs results wg pool closer main skipped sent processed
       push pop close buf cap closed];
  unfold before_close, tallied, queued;
  cbn [machine jobs results wg pool closer main skipped sent processed
       push pop close buf cap closed].

Ltac easy_field :=
  solve [ assumption | discriminate | intros; discriminate
        | split; [reflexivity | discriminate]
        | eexists; split; eassumption ].

Lemma step_main_Inv (s s' : State) :
  Inv s -> step_main bp imageFiles inputDir outputDir s = Some s' -> Inv s'.
Proof.
  intros [Hcaps Hjobs (col & Hres & Htal) Hq Hph Hcl Hwg Hex Hpool Hdone].
  unfold step_main, before_close, tallied, queued in *.
  destruct (main s) as [i | [|file rest] | j rest | res | res] eqn:Em.
  - (* starting the workers *)
    destruct Hpool as [Hi Hlen]. destruct Hph as (Hj & Hc & Hr).
    assert (Hal : alive (pool s) = List.length (pool s)).
    { pose proof (alive_le (pool s)).
      destruct (Nat.eq_dec (alive (pool s)) (List.length (pool s))); [assumption |].
      destruct Hex as [Hex _]; [lia | congruence]. }
    destruct (Z.ltb_spec i (workers bp)); intros [= <-]; fields; try easy_field.
    + rewrite in_hand_app. change (in_hand [Ranging]) with (@nil job).
      rewrite app_nil_r. assumption.
    + exists col. rewrite to_send_app. change (to_send [Ranging]) with (@nil jobResult).
      rewrite app_nil_r. auto.
    + auto.
    + split; [apply Hcl | intros; congruence].
    + rewrite alive_app. change (alive [Ranging]) with 1. lia.
    + rewrite alive_app, length_app. change (alive [Ranging]) with 1. cbn. lia.
    + rewrite wrap_int_id by (unfold min_int; lia).
      unfold len in *. rewrite length_app. cbn. lia.
    + destruct Hq as [-> ->]. exists []. split; [reflexivity | constructor].
    + auto.
    + unfold len in Hlen. lia.
  - (* the jobs are all sent *)
    intros [= <-]. destruct Hph as (Hj & Hc & Hr). fields; try easy_field.
    + exists col. subst col. auto.
    + destruct Hq as (done & E & Hp). rewrite app_nil_r in E. subst done. assumption.
    + split; [| discriminate]. rewrite Hr. split; discriminate.
    + intros Hlt. destruct (Hex Hlt). congruence.
  - (* the directory of the next file *)
    destruct Hq as (done & E & Hp).
    destruct (os_MkdirAll _ _) as [[e|] w]; intros [= <-]; fields; try easy_field.
    exists (done ++ [file]). split; [rewrite <- app_assoc; assumption |].
    rewrite <- Hp. aac_reflexivity.
  - (* the job goes into the channel *)
    destruct (room (jobs s)); intros [= <-].
    destruct Hq as (done & E & Hp). fields; try easy_field.
    + rewrite Hjobs. aac_reflexivity.
    + exists (done ++ [inputPath j]). split; [rewrite <- app_assoc; assumption |].
      rewrite map_app. cbn [map]. rewrite <- Hp. aac_reflexivity.
    + intros Hlt. destruct (Hex Hlt) as [Hc _]. destruct Hph as [Hj _]. congruence.
  - (* a result is collected, or the channel is closed and empty *)
    destruct (buf (results s)) as [|r rs] eqn:Eb.
    + destruct (closed (results s)) eqn:Ec; intros [= <-]. fields; try easy_field.
      * exists col. rewrite Eb. auto.
      * rewrite Ec. assumption.
      * intros res' _. rewrite Eb, Ec. auto.
    + intros [= <-]. fields; try easy_field.
      exists (col ++ [r]). split; [| rewrite tally_snoc; congruence].
      rewrite Hres, Eb. cbn [tl]. change (r :: rs) with ([r] ++ rs). aac_reflexivity.
  - discriminate.
Qed.

Ltac mid :=
  unfold len in *;
  rewrite ?in_hand_mid, ?to_send_mid, ?alive_mid, ?length_mid in *;
  cbn [running] in *.

Lemma step_worker_Inv (k fuel : nat) (s s' : State) :
  Inv s -> step_worker bp k fuel s = Some s' -> Inv s'.
Proof.
  intros [Hcaps Hjobs (col & Hres & Htal) Hq Hph Hcl Hwg Hex Hpool Hdone].
  unfold step_worker.
  destruct (nth_error (pool s) k) as [w|] eqn:Ek; [| discriminate].
  destruct (update_split _ _ _ Ek) as (pre & post & Epool & Eup).
  pose proof (alive_le pre) as Hpre. pose proof (alive_le post) as Hpost.
  destruct w as [| j | r |].
  - (* at the head of the loop *)
    destruct (buf (jobs s)) as [|j js] eqn:Eb.
    + destruct (closed (jobs s)) eqn:Ec; intros [= <-].
      rewrite Eup. fields; rewrite Epool in *; mid; rewrite ?Eb, ?Ec; try easy_field.
      * split; [apply Hcl | intros Hf; apply Hcl in Hf; lia].
      * lia.
    + intros [= <-].
      rewrite Eup. fields; rewrite Epool in *; mid; rewrite ?Eb; try easy_field.
      * rewrite Hjobs. cbn [tl]. change (j :: js) with ([j] ++ js). aac_reflexivity.
      * intros Hlt. destruct (Hex Hlt) as [_ ?]. discriminate.
  - (* with a job in hand *)
    destruct (ProcessFile _ _ _ _ _) as [[e m]|]; intros [= <-].
    rewrite Eup. fields; rewrite Epool in *; mid; try easy_field.
    + rewrite map_app. cbn [map fst]. rewrite Hjobs. aac_reflexivity.
    + exists col. split; [| assumption].
      rewrite map_app. cbn [map]. unfold result_of at 2. cbn [fst snd].
      rewrite Hres. aac_reflexivity.
  - (* with a result to send *)
    destruct (room (results s)); intros [= <-].
    rewrite Eup. fields; rewrite Epool in *; mid; try easy_field.
    + exists col. split; [| assumption]. rewrite Hres. aac_reflexivity.
    + intros res Hd. destruct (Hdone res Hd) as [_ Hc].
      apply Hcl in Hc. apply Hcl in Hc. lia.
  - discriminate.
Qed.

Lemma step_closer_Inv (s s' : State) :
  Inv s -> step_closer s = Some s' -> Inv s'.
Proof.
  intros [Hcaps Hjobs (col & Hres & Htal) Hq Hph Hcl Hwg Hex Hpool Hdone].
  unfold step_closer.
  destruct (closer s) eqn:Ec; try discriminate.
  destruct (Z.eqb_spec (wg s) 0); intros [= <-].
  fields; try easy_field.
  - unfold before_close in Hph.
    destruct (match main s with Collecting _ | Done _ => false | _ => true end).
    + destruct Hph as (_ & Hn & _). discriminate.
    + split; [apply Hph | discriminate].
  - tauto.
  - intros res Hd. split; [apply (Hdone res Hd) | reflexivity].
Qed.

(** The invariant holds along every run. *)
Lemma step_Inv (s s' : State) :
  Inv s -> step bp imageFiles inputDir outputDir s s' -> Inv s'.
Proof.
  intros Hi (t & fuel & Hs). destruct t as [| k |]; cbn [step_thread] in Hs.
  - eapply step_main_Inv; eassumption.
  - eapply step_worker_Inv; eassumption.
  - eapply step_closer_Inv; eassumption.
Qed.

Lemma reaches_Inv (s s' : State) :
  Inv s -> reaches bp imageFiles inputDir outputDir s s' -> Inv s'.
Proof.
  intros Hi Hr. induction Hr as [| s1 s2 s3 Hs _ IH]; [assumption |].
  apply IH. eapply step_Inv; eassumption.
Qed.

(** *** The result *)

(** What was tallied: the total, the entries of [Errors] in the order of
    collection, and the two counts. *)
Lemma tally_facts (col : list jobResult) :
  (len col <= max_int)%Z ->
  TotalCount (tally col) = len imageFiles /\
  Errors (tally col) = failures col /\
  ErrorCount (tally col) = len (failures col) /\
  SuccessCount (tally col) = len (filter succeeded col).
Proof.
  induction col as [|r col IH] using rev_ind; intros Hlen.
  - repeat split.
  - unfold len in *. rewrite length_app in Hlen. cbn [List.length] in Hlen.
    destruct IH as (Ht & He & Hec & Hsc); [lia |].
    pose proof (failures_length col) as Hfl.
    rewrite tally_snoc, failures_app, filter_app, !length_app, failures_one.
    unfold collect, succeeded at 2. cbn [filter].
    destruct (err r) as [e|] eqn:Er; cbn [TotalCount Errors ErrorCount SuccessCount];
      rewrite ?Hec, ?Hsc, ?He; cbn [List.length app];
      rewrite ?wrap_int_id by (unfold min_int; lia);
      rewrite ?app_nil_r;
      repeat split; try assumption; try lia.
Qed.

(** When [processFiles] has returned: every job sent was processed, once;
    the results collected are those of the jobs processed; and every file
    was skipped or sent. *)
Lemma Done_facts (s : State) (res : BatchResult) :
  Inv s -> main s = Done res ->
  Permutation (sent s) (map fst (processed s)) /\
  (exists col, Permutation (map result_of (processed s)) col /\ res = tally col) /\
  Permutation (skipped s ++ map inputPath (sent s)) imageFiles.
Proof.
  intros [Hcaps Hjobs (col & Hres & Htal) Hq Hph Hcl Hwg Hex Hpool Hdone] Em.
  unfold tallied, queued in *. rewrite Em in *.
  destruct (Hdone res eq_refl) as [Eb Ec].
  assert (Ha : alive (pool s) = 0).
  { apply Hcl in Ec. apply Hcl in Ec. lia. }
  destruct (alive_zero _ Ha) as (Eh & Es & _).
  destruct Hex as [_ Ej]; [lia |].
  rewrite Ej, Eh in Hjobs. rewrite Es, Eb in Hres. cbn [app] in *.
  split; [assumption |]. split; [| assumption].
  exists col. split; assumption.
Qed.

(** *** Every run ends *)

(** What is left to do, in steps: by [processFiles] itself, for each job
    on its way through the pool, by the workers and by the goroutine that
    closes the results. *)
Definition main_weight (p : main_pc) : nat :=
  match p with
  | Starting i => 2 * Z.to_nat (workers bp - i) + (6 * List.length imageFiles + 4)
  | Queueing rest => 6 * List.length rest + 3
  | Offering _ rest => 6 * List.length rest + 8
  | Collecting _ => 1
  | Done _ => 0
  end.

Definition closer_weight (c : closer_pc) : nat :=
  match c with
  | Finished => 0
  | _ => 1
  end.

Definition weight (s : State) : nat :=
  main_weight (main s) + 4 * List.length (buf (jobs s))
  + 3 * List.length (in_hand (pool s)) + 2 * List.length (to_send (pool s))
  + List.length (buf (results s)) + alive (pool s) + closer_weight (closer s).

Ltac weigh :=
  unfold weight;
  cbn [machine jobs results wg pool closer main skipped sent processed
       push pop close buf cap closed main_weight closer_weight].

Lemma step_weight (s s' : State) :
  Inv s -> step bp imageFiles inputDir outputDir s s' -> weight s' < weight s.
Proof.
  intros Hi (t & fuel & Hs). destruct t as [| k |]; cbn [step_thread] in Hs.
  - unfold step_main in Hs.
    destruct (main s) as [i | [|file rest] | j rest | res | res] eqn:Em.
    + pose proof (inv_pool s Hi) as Hp. rewrite Em in Hp.
      destruct (Z.ltb_spec i (workers bp)); injection Hs as <-; weigh; rewrite Em.
      * rewrite wrap_int_id by (unfold min_int; lia).
        rewrite in_hand_app, to_send_app, alive_app, !length_app.
        change (alive [Ranging]) with 1. cbn [main_weight List.length in_hand to_send].
        replace (Z.to_nat (workers bp - i)) with (S (Z.to_nat (workers bp - (i + 1))))
          by lia.
        change (in_hand [Ranging]) with (@nil job).
        change (to_send [Ranging]) with (@nil jobResult).
        cbn [List.length]. lia.
      * cbn [main_weight]. lia.
    + injection Hs as <-; weigh; rewrite Em. cbn [main_weight List.length]. lia.
    + destruct (os_MkdirAll _ _) as [[e|] w]; injection Hs as <-; weigh; rewrite Em;
        cbn [main_weight List.length]; lia.
    + destruct (room (jobs s)); [| discriminate].
      injection Hs as <-; weigh; rewrite Em, length_app. cbn [main_weight List.length]. lia.
    + destruct (buf (results s)) as [|r rs] eqn:Eb.
      * destruct (closed (results s)); [| discriminate].
        injection Hs as <-; weigh; rewrite Em, Eb. cbn [main_weight]. lia.
      * injection Hs as <-; weigh; rewrite Em, Eb. cbn [main_weight List.length tl]. lia.
    + discriminate.
  - unfold step_worker in Hs.
    destruct (nth_error (pool s) k) as [w|] eqn:Ek; [| discriminate].
    destruct (update_split _ _ _ Ek) as (pre & post & Epool & Eup).
    destruct w as [| j | r |].
    + destruct (buf (jobs s)) as [|j js] eqn:Eb.
      * destruct (closed (jobs s)); [| discriminate].
        injection Hs as <-; weigh. rewrite Eup, Epool, Eb. mid.
        rewrite !length_app. cbn [List.length]. lia.
      * injection Hs as <-; weigh. rewrite Eup, Epool, Eb. mid.
        rewrite !length_app. cbn [List.length tl]. lia.
    + destruct (ProcessFile _ _ _ _ _) as [[e m]|]; [| discriminate].
      injection Hs as <-; weigh. rewrite Eup, Epool. mid.
      rewrite !length_app. cbn [List.length]. lia.
    + destruct (room (results s)); [| discriminate].
      injection Hs as <-; weigh. rewrite Eup, Epool. mid.
      rewrite !length_app. cbn [List.length]. lia.
    + discriminate.
  - unfold step_closer in Hs. destruct (closer s) eqn:Ec; try discriminate.
    destruct (wg s =? 0)%Z; [| discriminate].
    injection Hs as <-; weigh. rewrite Ec. cbn [closer_weight]. lia.
Qed.




End Run.

End PoolFacts.

(** ** The results of a batch *)

Module Batching.

Import PoolFacts.

Section Results.

Context `{Externals}.

Lemma made_by_facts (bp : BatchProcessor) :
  made_by_NewBatchProcessor bp ->
  ValidateConfig (Some (config (processor bp))) = None /\
  (1 <= workers bp <= max_int)%Z.
Proof.
  intros (cfg & options & m0 & m0' & Hn & Hw).
  unfold NewBatchProcessor in Hn.
  destruct (ValidateConfig cfg) as [e|] eqn:Hv; [discriminate |].
  destruct cfg as [c|]; [| discriminate].
  unfold bind, NewProcessor, ret in Hn. injection Hn as <- _.
  cbn [processor workers config]. split.
  - destruct (IsZero (Timestamp c)); exact Hv.
  - destruct (Z.leb_spec (Workers options) 0); unfold max_int in *; lia.
Qed.

Lemma setup_Ok (bp : BatchProcessor) (inputDir outputDir : string) (m m1 : Machine)
    (imageFiles : list string) :
  setup bp inputDir outputDir m = (Ok imageFiles, m1) ->
  imageFiles = discovered bp inputDir m /\
  snd (findImageFiles bp inputDir (world m)) = None /\
  imageFiles <> [] /\
  fst (os_MkdirAll outputDir (world m)) = None.
Proof.
  unfold setup, discovered.
  destruct (findImageFiles bp inputDir (world m)) as [files [e|]]; [discriminate |].
  destruct (len files =? 0)%Z eqn:El; [discriminate |].
  change (world (starting_log bp inputDir outputDir files m)) with (world m).
  destruct (os_MkdirAll outputDir (world m)) as [[e|] w]; [discriminate |].
  intros [= <- _]. repeat split.
  intros E. apply Failures.len_zero in E. congruence.
Qed.

(** A run under a schedule is a run. *)
Lemma run_reaches (bp : BatchProcessor) (imageFiles : list string)
    (inputDir outputDir : string) (schedule : list (thread * nat)) (s : State) :
  reaches bp imageFiles inputDir outputDir s
    (run bp imageFiles inputDir outputDir schedule s).
Proof.
  revert s. induction schedule as [|[t fuel] schedule IH]; intros s.
  - constructor.
  - cbn [run].
    destruct (step_thread bp imageFiles inputDir outputDir t fuel s) as [s'|] eqn:Es.
    + econstructor; [| apply IH]. exists t, fuel. exact Es.
    + apply IH.
Qed.

(** What holds of the result and of the pool when [ProcessDirectory] has
    returned. *)
Lemma ends_facts (bp : BatchProcessor) (inputDir outputDir : string) (m : Machine)
    (res : BatchResult) (s : State) :
  made_by_NewBatchProcessor bp ->
  (len (discovered bp inputDir m) <= max_int)%Z ->
  ProcessDirectory_ends bp inputDir outputDir m res s ->
  Permutation (sent s) (map fst (processed s)) /\
  Permutation (skipped s ++ map inputPath (sent s)) (discovered bp inputDir m) /\
  exists col,
    Permutation (map result_of (processed s)) col /\
    TotalCount res = len (discovered bp inputDir m) /\
    Errors res = failures col /\
    ErrorCount res = len (failures col) /\
    SuccessCount res = len (filter succeeded col).
Proof.
  intros Hbp Hlen (imageFiles & m1 & Hs & Hr & Hd).
  destruct (made_by_facts bp Hbp) as [_ Hw].
  destruct (setup_Ok _ _ _ _ _ _ Hs) as (-> & _).
  pose proof (reaches_Inv bp _ inputDir outputDir Hw _ _ (Inv_initial bp _ Hw m1) Hr)
    as Hi.
  destruct (Done_facts bp _ s res Hi Hd) as (Hsent & (col & Hcol & ->) & Hq).
  split; [assumption |]. split; [assumption |].
  exists col. split; [assumption |].
  apply tally_facts.
  apply Permutation_length in Hsent, Hcol, Hq.
  unfold len in *. rewrite length_app, !length_map in *. lia.
Qed.


(** A result that [ProcessDirectory] returns, it returns at the end of a
    run of the pool, and conversely. *)
Lemma returns_ends (bp : BatchProcessor) (inputDir outputDir : string) (m m' : Machine)
    (res : BatchResult) :
  ProcessDirectory_returns bp inputDir outputDir m (Returned res) m' <->
  exists s, ProcessDirectory_ends bp inputDir outputDir m res s /\
            m' = completed_log res (machine s).
Proof.
  unfold ProcessDirectory_returns, ProcessDirectory_ends, processFiles_returns.
  destruct (setup bp inputDir outputDir m) as [[imageFiles | e] m1]; split.
  - intros (res' & m2 & (s & Hr & Hd & <-) & [= <-] & ->).
    exists s. split; [| reflexivity]. exists imageFiles, m1. repeat split; assumption.
  - intros (s & (files & m1' & [= <- <-] & Hr & Hd) & ->).
    exists res, (machine s). repeat split. exists s. repeat split; assumption.
  - intros [Hf _]. discriminate.
  - intros (s & (files & m1' & Hs & _) & _). discriminate.
Qed.

(** What [ProcessDirectory] returns under a schedule, it returns. *)
Lemma ProcessDirectory_sound (schedule : list (thread * nat)) (bp : BatchProcessor)
    (inputDir outputDir : string) (m m' : Machine) (o : outcome) :
  ProcessDirectory schedule bp inputDir outputDir m = Some (o, m') ->
  ProcessDirectory_returns bp inputDir outputDir m o m'.
Proof.
  unfold ProcessDirectory, ProcessDirectory_returns, processFiles_returns.
  destruct (setup bp inputDir outputDir m) as [[imageFiles | e] m1].
  - destruct (main (run bp imageFiles inputDir outputDir schedule
                      (initial imageFiles m1))) as [| | | |res] eqn:Em;
      try discriminate.
    intros [= <- <-]. eexists res, _. repeat split.
    eexists. repeat split; [apply run_reaches | exact Em].
  - intros [= <- <-]. split; reflexivity.
Qed.



(** C10: in every result [ProcessDirectory] returns, [ErrorCount] is the
    length of [Errors]; each entry of [Errors] carries the input path of
    a job for which [ProcessFile] returned an error, a file that was
    discovered, and that error, which is not nil; and
    [SuccessCount + ErrorCount] is the number of jobs sent, which is
    [TotalCount] less the number of files skipped. *)
Theorem BatchResult_invariants
    (bp : BatchProcessor) (inputDir outputDir : string) (m : Machine)
    (res : BatchResult) (s : State) :
  made_by_NewBatchProcessor bp ->
  (len (discovered bp inputDir m) <= max_int)%Z ->
  ProcessDirectory_ends bp inputDir outputDir m res s ->
  ErrorCount res = len (Errors res) /\
  Forall (fun b =>
            Error b <> None /\
            In (FilePath b) (discovered bp inputDir m) /\
            exists j e, In (j, Some e) (processed s) /\
                        FilePath b = inputPath j /\ Error b = Some e)
         (Errors res) /\
  (SuccessCount res + ErrorCount res = len (sent s))%Z /\
  (len (sent s) = TotalCount res - len (skipped s))%Z.
Proof.
  intros Hbp Hlen He.
  destruct (ends_facts bp inputDir outputDir m res s Hbp Hlen He)
    as (Hsent & Hq & col & Hcol & Ht & He' & Hec & Hsc).
  rewrite He', Hec, Hsc, Ht. split; [reflexivity |]. split; [| split].
  - apply Forall_forall. intros b Hb.
    apply failures_In in Hb. destruct Hb as (r & e & Hr & Er & ->).
    apply (Permutation_in _ (Permutation_sym Hcol)) in Hr.
    apply in_map_iff in Hr. destruct Hr as ([j e'] & <- & Hin).
    cbn in Er. subst e'. cbn [FilePath Error result_of resultPath fst].
    split; [discriminate |]. split.
    + apply (Permutation_in _ Hq). apply in_or_app. right.
      apply in_map. apply (Permutation_in _ (Permutation_sym Hsent)).
      apply in_map_iff. exists (j, Some e). split; [reflexivity | assumption].
    + exists j, e. repeat split. assumption.
  - pose proof (failures_length col) as Hfl.
    apply Permutation_length in Hsent, Hcol.
    unfold len. rewrite !length_map in *. lia.
  - apply Permutation_length in Hq.
    unfold len. rewrite length_app, length_map in Hq. lia.
Qed.

End Results.

End Batching.

Module BatchingExamples.

Import PoolFacts Batching.

Lemma toy_made_by (rec : bool) :
  @made_by_NewBatchProcessor Example.toy (Example.batch rec).
Proof.
  exists (Some Example.acme), (Example.options rec),
    (Example.boot Example.disk), (Example.boot Example.disk).
  split; [reflexivity | unfold max_int; cbn; lia].
Qed.


(** The run of the small world under the schedule. *)
Lemma toy_ends :
  @ProcessDirectory_ends Example.toy (Example.batch true) "in" "out"
    (Example.boot Example.disk) Example.result3 (Example.final Example.disk).
Proof.
  exists Example.files3, (Example.ready Example.disk).
  split; [reflexivity |]. split; [apply run_reaches | vm_compute; reflexivity].
Qed.

(** The same where out/sub cannot be created. *)
Lemma toy_readonly_ends :
  @ProcessDirectory_ends Example.toy (Example.batch true) "in" "out"
    (Example.boot Example.disk_readonly) Example.result2
    (Example.final Example.disk_readonly).
Proof.
  exists Example.files3, (Example.ready Example.disk_readonly).
  split; [reflexivity |]. split; [apply run_reaches | vm_compute; reflexivity].
Qed.




Lemma BatchResult_invariants_witness :
  @made_by_NewBatchProcessor Example.toy (Example.batch true) /\
  @ProcessDirectory_ends Example.toy (Example.batch true) "in" "out"
    (Example.boot Example.disk_readonly) Example.result2
    (Example.final Example.disk_readonly) /\
  ErrorCount Example.result2 = len (Errors Example.result2) /\
  (SuccessCount Example.result2 + ErrorCount Example.result2
   = len (sent (Example.final Example.disk_readonly)))%Z /\
  (len (sent (Example.final Example.disk_readonly))
   = TotalCount Example.result2 - len (skipped (Example.final Example.disk_readonly)))%Z.
Proof.
  destruct (@BatchResult_invariants Example.toy (Example.batch true) "in" "out"
              (Example.boot Example.disk_readonly) Example.result2
              (Example.final Example.disk_readonly)
              (toy_made_by true) ltac:(vm_compute; discriminate) toy_readonly_ends)
    as (H1 & _ & H3 & H4).
  split; [exact (toy_made_by true) |]. split; [exact toy_readonly_ends |].
  split; [exact H1 |]. split; [exact H3 | exact H4].
Defined.

End BatchingExamples.

(** ** The layout of the watermark *)

Module Layout.

Local Open Scope Q_scope.










Section Loops.

Context `{Externals}.

Variable fontFace : font.Face.
Variable text : string.



Variables textWidth xDistance lineHeight yDistance diagonal : vg.Length.
Variables wq a t B s : Q.

Hypothesis Ha : textWidth = Fin a.
Hypothesis Ht : (textWidth + xDistance)%f64 = Fin t.
Hypothesis Htpos : 0 < t.
Hypothesis Hs : (lineHeight + yDistance)%f64 = Fin s.
Hypothesis Hspos : 0 < s.
Hypothesis HB : (lit 2 * diagonal)%f64 = Fin B.

(** The horizontal offset at which row [k] starts, as it is computed. *)
Definition x0 (k : Z) : Q := - inject_Z k * (3 # 2) * a.



End Loops.




Section Tiling.

Context `{Externals}.


End Tiling.

End Layout.

Module LayoutExamples.

Import Layout.

Local Open Scope Q_scope.



(** The date is written year, month, day. *)
Example Format_date :
  Fmt.Format_2006_01_02 {| year := 2024; month := 3; day := 9; nanos := 0 |}
  = "2024-03-09"%string.
Proof. reflexivity. Qed.

End LayoutExamples.

(** ** The making of a batch processor *)

Module Construction.

Section Make.

Context `{Externals}.

Local Open Scope string_scope.

(** X1: [NewBatchProcessor] fails exactly when [ValidateConfig] does, with
    the error of the validation wrapped and the state as it was. Otherwise
    it returns a processor, having changed nothing: the configuration is
    the one given, the timestamp alone being replaced by the current time
    when it is the zero time; it is still accepted by [ValidateConfig];
    the number of workers is the one asked for when that is positive and
    4 otherwise, so at least 1; the recursion flag is the one given. *)
Theorem NewBatchProcessor_outcome
    (cfg : option Config) (options : BatchOptions) (m : Machine) :
  match ValidateConfig cfg with
  | Some e =>
      NewBatchProcessor cfg options m = Some (Err (Wrapf "invalid config: %w" e), m)
  | None =>
      exists c bp,
        cfg = Some c /\
        NewBatchProcessor cfg options m = Some (Ok bp, m) /\
        config (processor bp) =
          (if IsZero (Timestamp c) then with_Timestamp (time_Now (world m)) c else c) /\
        ValidateConfig (Some (config (processor bp))) = None /\
        workers bp = (if (0 <? Workers options)%Z then Workers options else 4%Z) /\
        (1 <= workers bp)%Z /\
        recursive bp = Recursive options
  end.
Proof.
  destruct (ValidateConfig cfg) as [e|] eqn:Hv.
  - unfold NewBatchProcessor. rewrite Hv. reflexivity.
  - destruct cfg as [c|]; [| discriminate].
    unfold NewBatchProcessor. rewrite Hv.
    unfold bind, NewProcessor, ret. eexists c, _.
    split; [reflexivity |]. split; [reflexivity |].
    cbn [processor config workers recursive].
    split; [reflexivity |]. split; [destruct (IsZero (Timestamp c)); exact Hv |].
    destruct (Z.leb_spec (Workers options) 0), (Z.ltb_spec 0 (Workers options));
      repeat split; lia.
Qed.

End Make.

End Construction.

(** ** What [ProcessFile] leaves behind *)

Module Files.

Section Stages.

Context `{Externals}.

Local Open Scope string_scope.

(** [applyWatermark] changes the package variable and nothing else. *)
Lemma applyWatermark_state (fuel : nat) (p : Processor) (img : Image) (m m' : Machine)
    (r : result Image) :
  applyWatermark fuel p img m = Some (r, m') ->
  m' = set_DefaultFont (font.Font_ (fontFace_of (config p))) m.
Proof.
  unfold applyWatermark. intros Hr.
  destruct (tiled fuel (config p) img) as [c|]; [| discriminate].
  destruct (PngCanvas_WriteTo c) as [buff|]; [| congruence].
  destruct (image_Decode buff); congruence.
Qed.

(** An error of [ProcessFile] comes from one of its four stages; at the
    second the cause is the error [decodeImage] returned for the path. *)
Lemma ProcessFile_error_detail
    (fuel : nat) (p : Processor) (inputPath outputPath : string)
    (m m' : Machine) (e : error) :
  ProcessFile fuel p inputPath outputPath m = Some (Some e, m') ->
  exists cause,
    e = Wrapf "opening input file: %w" cause \/
    (e = Wrapf "decoding image: %w" cause /\
     exists file, decodeImage file inputPath = Err cause) \/
    e = Wrapf "applying watermark: %w" cause \/
    e = Wrapf "saving image: %w" cause.
Proof.
  unfold ProcessFile, bind, wrapping, lift. intros Hp.
  destruct (os_Open inputPath (world m)) as [data | e0].
  2:{ injection Hp as <- _. exists e0. auto. }
  destruct (decodeImage data inputPath) as [img | e0] eqn:Ed.
  2:{ injection Hp as <- _. exists e0. right. left. eauto. }
  destruct (applyWatermark fuel p img m) as [[[out | e0] m1]|]; [| | discriminate].
  2:{ injection Hp as <- _. exists e0. auto. }
  destruct (saveImage p out outputPath m1) as [[[[] | e0] m2]|]; try discriminate.
  injection Hp as <- _. exists e0. auto.
Qed.

(** X2: The error [ProcessFile] returns names the stage that failed. Nothing
    is logged. When the file could not be opened or decoded the state is
    as it was; when the rendering failed the operating system is as it
    was: the output file is touched only once the image is rendered. *)
Theorem ProcessFile_failure_stages
    (fuel : nat) (p : Processor) (inputPath outputPath : string)
    (m m' : Machine) (e : error) :
  ProcessFile fuel p inputPath outputPath m = Some (Some e, m') ->
  logged m' = logged m /\
  exists cause,
    (e = Wrapf "opening input file: %w" cause /\ m' = m) \/
    (e = Wrapf "decoding image: %w" cause /\ m' = m) \/
    (e = Wrapf "applying watermark: %w" cause /\ world m' = world m) \/
    e = Wrapf "saving image: %w" cause.
Proof.
  unfold ProcessFile, bind, wrapping, lift. intros Hp.
  destruct (os_Open inputPath (world m)) as [data | e0].
  2:{ injection Hp as <- <-. split; [reflexivity |]. exists e0. auto. }
  destruct (decodeImage data inputPath) as [img | e0].
  2:{ injection Hp as <- <-. split; [reflexivity |]. exists e0. auto. }
  destruct (applyWatermark fuel p img m) as [[[out | e0] m1]|] eqn:Ea; [| | discriminate].
  2:{ injection Hp as <- <-. apply applyWatermark_state in Ea. subst m1.
      split; [reflexivity |]. exists e0. auto 6. }
  apply applyWatermark_state in Ea. subst m1.
  unfold saveImage in Hp. cbn [world set_DefaultFont] in Hp.
  destruct (os_Create outputPath (world m)) as [[e0|] w].
  { injection Hp as <- <-. split; [reflexivity |]. exists e0. auto 6. }
  cbn [world set_world] in Hp.
  match type of Hp with
  | context [match ?enc with Ok _ => _ | Err _ => _ end] =>
      destruct enc as [data' | e0]
  end.
  2:{ injection Hp as <- <-. split; [reflexivity |]. exists e0. auto 6. }
  destruct (file_Write outputPath data' w) as [[e0|] w']; [| discriminate].
  injection Hp as <- <-. split; [reflexivity |]. exists e0. auto 6.
Qed.

(** X3: An output path whose extension is not supported is found out only
    after the output file was created: the file has been decoded and
    rendered, [os.Create] has run, and the error leaves the file it made
    behind, nothing having been written to it. *)
Theorem unsupported_output_is_created
    (fuel : nat) (p : Processor) (inputPath outputPath data : string)
    (img out : Image) (m m1 : Machine) (w : World) :
  os_Open inputPath (world m) = Ok data ->
  decodeImage data inputPath = Ok img ->
  applyWatermark fuel p img m = Some (Ok out, m1) ->
  eligible outputPath = false ->
  os_Create outputPath (world m) = (None, w) ->
  ProcessFile fuel p inputPath outputPath m =
    Some (Some (Wrapf "saving image: %w"
                  (ErrorfStr "unsupported output format: %s (supported: .jpg, .jpeg, .png)"
                     (GoString.ToLower (GoString.Ext outputPath)))),
          set_world w m1).
Proof.
  intros Ho Hd Ha He Hc.
  pose proof (applyWatermark_state _ _ _ _ _ _ Ha) as Em1.
  unfold ProcessFile, bind, wrapping, lift. rewrite Ho, Hd, Ha.
  unfold saveImage. rewrite Em1. cbn [world set_DefaultFont]. rewrite Hc.
  unfold eligible, supportedExts in He. cbn [existsb] in He.
  apply orb_false_iff in He. destruct He as [Hjpg He].
  apply orb_false_iff in He. destruct He as [Hjpeg He].
  apply orb_false_iff in He. destruct He as [Hpng _].
  rewrite Hjpg, Hjpeg, Hpng. reflexivity.
Qed.

(** X4: When [ProcessFile] returns nil, the input was decoded by the decoder
    of its own extension and the output encoded by the encoder of the
    extension of the output path, which need not be the same: as a PNG
    for .png, whatever the quality, and as a JPEG at the quality of the
    configuration for .jpg and .jpeg, in upper or lower case. What was
    encoded has the bounds of the input; it was written once, to the
    output file, after the file was created; the package variable holds
    the font of the watermark and nothing was logged. *)
Theorem ProcessFile_encodes_by_output_extension
    (fuel : nat) (p : Processor) (inputPath outputPath : string) (m m' : Machine) :
  ProcessFile fuel p inputPath outputPath m = Some (None, m') ->
  exists inputFile img out data w,
    os_Open inputPath (world m) = Ok inputFile /\
    decodeImage inputFile inputPath = Ok img /\
    Bounds out = Bounds img /\
    os_Create outputPath (world m) = (None, w) /\
    file_Write outputPath data w = (None, world m') /\
    DefaultFont m' = font.Font_ (fontFace_of (config p)) /\
    logged m' = logged m /\
    ((GoString.ToLower (GoString.Ext outputPath) = ".png" /\ png_Encode out = Ok data) \/
     ((GoString.ToLower (GoString.Ext outputPath) = ".jpg" \/
       GoString.ToLower (GoString.Ext outputPath) = ".jpeg") /\
      jpeg_Encode out (Quality (config p)) = Ok data)).
Proof.
  intros Hp.
  destruct (Rendering.ProcessFile_nil _ _ _ _ _ _ Hp)
    as (inputFile & img & out & m1 & Ho & Hd & Ha & Hs).
  pose proof (applyWatermark_state _ _ _ _ _ _ Ha) as Em1.
  destruct (Rendering.applyWatermark_Ok _ _ _ _ _ _ Ha) as (c & buff & pimg & _ & _ & _ & Eo).
  unfold saveImage in Hs. rewrite Em1 in Hs. cbn [world set_DefaultFont] in Hs.
  destruct (os_Create outputPath (world m)) as [[e|] w] eqn:Ec; [discriminate |].
  cbn [world set_world] in Hs.
  destruct (String.eqb_spec (GoString.ToLower (GoString.Ext outputPath)) ".png") as [Epng | Epng].
  - destruct (png_Encode out) as [data | e] eqn:Ee; [| discriminate].
    destruct (file_Write outputPath data w) as [[e|] w'] eqn:Ef; [discriminate |].
    injection Hs as <-. exists inputFile, img, out, data, w.
    rewrite Eo at 1. rewrite Rendering.crop_Bounds.
    repeat split; try assumption; try reflexivity. left. split; [exact Epng | exact Ee].
  - destruct (String.eqb_spec (GoString.ToLower (GoString.Ext outputPath)) ".jpg") as [Ejpg | Ejpg];
      [| destruct (String.eqb_spec (GoString.ToLower (GoString.Ext outputPath)) ".jpeg")
           as [Ejpeg | Ejpeg]; [| discriminate]]; cbn [orb] in Hs;
      (destruct (jpeg_Encode out (Quality (config p))) as [data | e] eqn:Ee; [| discriminate]);
      (destruct (file_Write outputPath data w) as [[e|] w'] eqn:Ef; [discriminate |]);
      injection Hs as <-; exists inputFile, img, out, data, w;
      rewrite Eo at 1; rewrite Rendering.crop_Bounds;
      repeat split; try assumption; try reflexivity; right; split; auto.
Qed.

End Stages.

(** A corrupt file of the small world. *)
Lemma ProcessFile_failure_stages_witness :
  @ProcessFile Example.toy 100 Example.proc "in/b.JPG" "out/b.JPG"
      (Example.boot Example.disk)
    = Some (Some (Wrapf "decoding image: %w" (Errorf "invalid format")),
            Example.boot Example.disk) /\
  logged (Example.boot Example.disk) = logged (Example.boot Example.disk) /\
  exists cause,
    (Wrapf "decoding image: %w" (Errorf "invalid format")
       = Wrapf "opening input file: %w" cause /\
     Example.boot Example.disk = Example.boot Example.disk) \/
    (Wrapf "decoding image: %w" (Errorf "invalid format")
       = Wrapf "decoding image: %w" cause /\
     Example.boot Example.disk = Example.boot Example.disk) \/
    (Wrapf "decoding image: %w" (Errorf "invalid format")
       = Wrapf "applying watermark: %w" cause /\
     world (Example.boot Example.disk) = world (Example.boot Example.disk)) \/
    Wrapf "decoding image: %w" (Errorf "invalid format")
      = Wrapf "saving image: %w" cause.
Proof.
  split; [reflexivity |].
  exact (@ProcessFile_failure_stages Example.toy 100 Example.proc "in/b.JPG" "out/b.JPG"
           (Example.boot Example.disk) (Example.boot Example.disk)
           (Wrapf "decoding image: %w" (Errorf "invalid format")) eq_refl).
Defined.

(** An image of the small world, to be saved as a GIF. *)
Lemma unsupported_output_is_created_witness :
  @ProcessFile Example.toy 100 Example.proc "in/a.png" "out/a.gif"
      (Example.boot Example.disk)
    = Some (Some (Wrapf "saving image: %w"
                    (ErrorfStr "unsupported output format: %s (supported: .jpg, .jpeg, .png)"
                       ".gif")),
            Example.after_render (Example.boot Example.disk)).
Proof.
  exact (@unsupported_output_is_created Example.toy 100 Example.proc "in/a.png" "out/a.gif"
           "image" Example.img12 Example.rendered (Example.boot Example.disk)
           (Example.after_render (Example.boot Example.disk)) Example.disk
           eq_refl eq_refl eq_refl eq_refl eq_refl).
Defined.

(** A PNG of the small world saved as a JPEG, at the quality 95. *)
Lemma ProcessFile_encodes_by_output_extension_witness :
  exists m' out,
    @ProcessFile Example.toy 100 Example.proc "in/a.png" "out/a.JPG"
      (Example.boot Example.disk) = Some (None, m') /\
    @jpeg_Encode Example.toy out 95 = Ok "jpeg"%string /\
    Example.written (world m') = [("out/a.JPG", "jpeg")]%string.
Proof.
  destruct (@ProcessFile Example.toy 100 Example.proc "in/a.png" "out/a.JPG"
              (Example.boot Example.disk)) as [[[e|] m']|] eqn:Ep;
    [vm_compute in Ep; discriminate | | vm_compute in Ep; discriminate].
  destruct (@ProcessFile_encodes_by_output_extension Example.toy 100 Example.proc
              "in/a.png" "out/a.JPG" (Example.boot Example.disk) m' Ep)
    as (inputFile & img & out & data & w & _ & _ & _ & Hc & Hf & _ & _ & He).
  exists m', out. split; [reflexivity |].
  destruct He as [[He _] | [_ He]]; [vm_compute in He; discriminate |].
  assert (Ed : data = "jpeg"%string) by (cbn in He; congruence).
  split; [rewrite <- Ed; exact He |].
  cbn in Hc. injection Hc as <-. subst data. cbn in Hf. unfold Example.write_ in Hf.
  injection Hf as <-. reflexivity.
Defined.

End Files.

(** ** What is drawn on the canvas *)

Module Canvas.

Section Drawing.

Context `{Externals}.

Variable fontFace : font.Face.
Variable text : string.

(** The text painted at a point. *)
Definition fill (pt : vg.Point) : vgimg.drawOp := vgimg.FillString fontFace pt text.

(** What a loop that ended has added to the canvas: texts only, each at
    a point that passed the test of the loop. *)
Lemma columns_paints (w textWidth xDistance offset : vg.Length) :
  forall (fuel : nat) (xOffset : vg.Length) (c c' : vgimg.Canvas),
    columns fuel fontFace text w textWidth xDistance offset xOffset c = Some c' ->
    vgimg.width c' = vgimg.width c /\
    vgimg.height c' = vgimg.height c /\
    exists pts,
      vgimg.ops c' = vgimg.ops c ++ map fill pts /\
      Forall (fun pt => (vg.X pt <? w)%f64 = true /\ vg.Y pt = offset) pts.
Proof.
  induction fuel as [|fuel IH]; intros xOffset c c' Hc; [discriminate |].
  cbn [columns] in Hc. destruct (xOffset <? w)%f64 eqn:E.
  - destruct (IH _ _ _ Hc) as (Hw & Hh & pts & Hops & Hpts).
    split; [exact Hw |]. split; [exact Hh |].
    exists ({| vg.X := xOffset; vg.Y := offset |} :: pts). split.
    + rewrite Hops. cbn [vgimg.draw vgimg.ops map]. rewrite <- app_assoc. reflexivity.
    + constructor; [split; [exact E | reflexivity] | exact Hpts].
  - injection Hc as <-. repeat split. exists []. split; [| constructor].
    cbn [map]. rewrite app_nil_r. reflexivity.
Qed.

Lemma rows_paints (w diagonal lineHeight textWidth xDistance yDistance : vg.Length) :
  forall (fuel : nat) (line : Z) (offset : vg.Length) (c c' : vgimg.Canvas),
    rows fuel fontFace text w diagonal lineHeight textWidth xDistance yDistance
      line offset c = Some c' ->
    vgimg.width c' = vgimg.width c /\
    vgimg.height c' = vgimg.height c /\
    exists pts,
      vgimg.ops c' = vgimg.ops c ++ map fill pts /\
      Forall (fun pt => (vg.X pt <? w)%f64 = true /\
                        (vg.Y pt <? lit 2 * diagonal)%f64 = true) pts.
Proof.
  induction fuel as [|fuel IH]; intros line offset c c' Hc; [discriminate |].
  cbn [rows] in Hc. destruct (offset <? lit 2 * diagonal)%f64 eqn:E.
  - destruct (columns fuel fontFace text w textWidth xDistance offset _ c)
      as [c1|] eqn:E1; [| discriminate].
    destruct (columns_paints _ _ _ _ _ _ _ _ E1) as (Hw1 & Hh1 & pts1 & Hops1 & Hpts1).
    destruct (IH _ _ _ _ Hc) as (Hw & Hh & pts & Hops & Hpts).
    split; [congruence |]. split; [congruence |].
    exists (pts1 ++ pts). split.
    + rewrite Hops, Hops1, map_app, app_assoc. reflexivity.
    + apply Forall_app. split; [| exact Hpts].
      refine (Forall_impl _ _ Hpts1).
      intros pt [Hx ->]. split; [exact Hx | exact E].
  - injection Hc as <-. repeat split. exists []. split; [| constructor].
    cbn [map]. rewrite app_nil_r. reflexivity.
Qed.

End Drawing.

Section Contents.

Context `{Externals}.

(** X5: Whatever the configuration and the image, the canvas the loops of
    [applyWatermark] leave is a square whose side is the diagonal of the
    image; on it the image was drawn once, first, then the colour was set
    once, to the colour of the configuration, and after that only the
    watermark text was painted, always with the same face; and no text
    was painted at an horizontal offset that is not below the width of
    the image, or at a vertical offset that is not below twice the
    diagonal. *)
Theorem canvas_contents (fuel : nat) (cfg : Config) (img : Image) (c : vgimg.Canvas) :
  tiled fuel cfg img = Some c ->
  let w := pixels (Img.X (Img.Max (Bounds img))) in
  let h := pixels (Img.Y (Img.Max (Bounds img))) in
  vgimg.width c = diagonal_of w h /\
  vgimg.height c = diagonal_of w h /\
  exists rect pts,
    vgimg.ops c =
      vgimg.DrawImage rect img :: vgimg.SetColor (WatermarkColor cfg)
      :: map (fill (fontFace_of cfg) (watermarkText cfg)) pts /\
    Forall (fun pt => (vg.X pt <? w)%f64 = true /\
                      (vg.Y pt <? lit 2 * diagonal_of w h)%f64 = true) pts.
Proof.
  cbv zeta. unfold tiled, tile. intros Hc.
  destruct (rows_paints _ _ _ _ _ _ _ _ _ _ _ _ _ Hc) as (Hw & Hh & pts & Hops & Hpts).
  split; [exact Hw |]. split; [exact Hh |].
  eexists _, pts. split; [| exact Hpts].
  rewrite Hops. reflexivity.
Qed.

End Contents.

(** The canvas of a 12 by 16 image of the small world. *)
Lemma canvas_contents_witness :
  exists c,
    @tiled Example.toy 100 Example.narrow Example.img12 = Some c /\
    vgimg.width c = Fin 15 /\
    exists rect pts,
      vgimg.ops c =
        vgimg.DrawImage rect Example.img12
        :: vgimg.SetColor (WatermarkColor Example.narrow)
        :: map (fill (fontFace_of Example.narrow) "A - 2024-03-09") pts /\
      Forall (fun pt => (vg.X pt <? pixels 12)%f64 = true /\
                        (vg.Y pt <? Fin 30)%f64 = true) pts.
Proof.
  destruct (@tiled Example.toy 100 Example.narrow Example.img12) as [c|] eqn:E;
    [| vm_compute in E; discriminate].
  exists c. split; [reflexivity |].
  destruct (@canvas_contents Example.toy 100 Example.narrow Example.img12 c E)
    as (Hw & _ & rect & pts & Hops & Hpts).
  split; [exact Hw |]. exists rect, pts. split; [exact Hops |].
  refine (Forall_impl _ _ Hpts).
  intros pt [Hx Hy]. split; [exact Hx | exact Hy].
Defined.

End Canvas.

(** ** A configuration that was not validated *)

Module Unvalidated.

Section Stall.

Context `{Externals}.

Local Open Scope Q_scope.

(** With a vertical stride that is zero or negative the outer loop stays
    below its bound: no fuel is enough. *)
Lemma rows_stall (fontFace : font.Face) (text : string)
    (w diagonal lineHeight textWidth xDistance yDistance : vg.Length) (B s : Q) :
  (lit 2 * diagonal)%f64 = Fin B ->
  (lineHeight + yDistance)%f64 = Fin s -> s <= 0 ->
  forall (fuel : nat) (line : Z) (o : Q) (c : vgimg.Canvas),
    o < B ->
    rows fuel fontFace text w diagonal lineHeight textWidth xDistance yDistance
      line (Fin o) c = None.
Proof.
  intros HB Hs Hneg. induction fuel as [|fuel IH]; intros line o c Ho; [reflexivity |].
  rewrite Termination.rows_S, HB. cbn [F64.lt].
  rewrite (proj2 (Qltb_true o B) Ho).
  destruct (columns fuel fontFace text w textWidth xDistance (Fin o) _ c) as [c1|];
    [| reflexivity].
  rewrite Hs. cbn [F64.add]. apply IH. lra.
Qed.

(** A configuration whose rows do not advance is not one that
    [ValidateConfig] accepts. *)
Lemma stalled_is_rejected (cfg : Config) (s : Q) :
  (FontSize cfg + LineSpacing cfg)%f64 = Fin s -> s <= 0 ->
  ValidateConfig (Some cfg) <> None.
Proof.
  intros Hs Hneg Hv. apply Validation.ValidateConfig_accepts in Hv.
  destruct Hv as (_ & Hfs & _ & Hls & _ & _).
  destruct (Termination.passes_sum 10 5 200 200 _ _ Hfs Hls) as [E | (t & E & Ht)].
  - congruence.
  - rewrite Hs in E. injection E as <-.
    change (inject_Z 10) with 10 in Ht. change (inject_Z 5) with 5 in Ht. lra.
Qed.

(** A processor whose rows do not advance does not return from
    [ProcessFile] on a file that decodes. *)
Lemma ProcessFile_stalls (p : Processor) (inputPath outputPath data : string)
    (img : Image) (m : Machine) (d s : Q) :
  os_Open inputPath (world m) = Ok data ->
  decodeImage data inputPath = Ok img ->
  diagonal_of (pixels (Img.X (Img.Max (Bounds img))))
    (pixels (Img.Y (Img.Max (Bounds img)))) = Fin d ->
  0 < d ->
  (FontSize (config p) + LineSpacing (config p))%f64 = Fin s ->
  s <= 0 ->
  forall fuel, ProcessFile fuel p inputPath outputPath m = None.
Proof.
  intros Ho Hd Hdiag Hpos Hs Hneg fuel.
  assert (Et : tiled fuel (config p) img = None).
  { unfold tiled, tile. rewrite Hdiag.
    eapply rows_stall; [reflexivity | exact Hs | exact Hneg |].
    unfold lit, of_int. unfold inject_Z. lra. }
  unfold ProcessFile, bind, wrapping, lift. rewrite Ho, Hd.
  unfold applyWatermark. rewrite Et. reflexivity.
Qed.

(** X6: [NewProcessor] and [ProcessFile] do not validate the configuration
    they are given. With a font size and a line spacing whose sum is zero
    or negative (a configuration [ValidateConfig] rejects), on a file
    that decodes to an image with a diagonal above zero, the outer loop
    of [applyWatermark] never advances and [ProcessFile] does not return,
    whatever the fuel. *)
Theorem ProcessFile_stalls_without_validation
    (cfg : Config) (p : Processor) (inputPath outputPath data : string)
    (img : Image) (m m1 : Machine) (d s : Q) :
  NewProcessor cfg m = Some (Ok p, m1) ->
  os_Open inputPath (world m1) = Ok data ->
  decodeImage data inputPath = Ok img ->
  diagonal_of (pixels (Img.X (Img.Max (Bounds img))))
    (pixels (Img.Y (Img.Max (Bounds img)))) = Fin d ->
  0 < d ->
  (FontSize cfg + LineSpacing cfg)%f64 = Fin s ->
  s <= 0 ->
  ValidateConfig (Some cfg) <> None /\
  forall fuel, ProcessFile fuel p inputPath outputPath m1 = None.
Proof.
  intros Hn Ho Hd Hdiag Hpos Hs Hneg. split.
  - eapply stalled_is_rejected; eassumption.
  - assert (Ec : FontSize (config p) = FontSize cfg /\
                 LineSpacing (config p) = LineSpacing cfg).
    { unfold NewProcessor in Hn. injection Hn as <- _.
      cbn [config]. destruct (IsZero (Timestamp cfg)); split; reflexivity. }
    destruct Ec as [Ef El].
    eapply ProcessFile_stalls; try eassumption. rewrite Ef, El. exact Hs.
Qed.

End Stall.

(** The configuration of the small world with a font size of -30: the
    line spacing being 30, the rows do not advance. *)
Definition stalled : Config := {|
  CompanyName := "ACME";
  Timestamp := Timestamp Example.acme;
  FontSize := lit (-30);
  Opacity := 40;
  Angle := lit 0;
  Font := Some "ttf"%string;
  TextSpacing := lit 30;
  LineSpacing := lit 30;
  Quality := 95;
  WatermarkColor := WatermarkColor Example.acme
|}.

Lemma ProcessFile_stalls_without_validation_witness :
  @NewProcessor Example.toy stalled (Example.boot Example.disk)
    = Some (Ok {| config := stalled |}, Example.boot Example.disk) /\
  ValidateConfig (Some stalled) <> None /\
  forall fuel,
    @ProcessFile Example.toy fuel {| config := stalled |} "in/a.png" "out/a.png"
      (Example.boot Example.disk) = None.
Proof.
  split; [reflexivity |].
  exact (@ProcessFile_stalls_without_validation Example.toy stalled {| config := stalled |}
           "in/a.png" "out/a.png" "image" Example.img12
           (Example.boot Example.disk) (Example.boot Example.disk) 15 0
           eq_refl eq_refl eq_refl eq_refl eq_refl eq_refl
           ltac:(discriminate)).
Defined.

End Unvalidated.

(** ** More on the discovery of the files *)

Module Walks.

Import Discovery.

Section Keeping.

Context `{Externals}.

Variable S : Type.
Variable walkFn : string -> Walk.FileInfo -> option error -> S -> option Walk.stop * S.

(** What every call of the function keeps, the walk keeps. *)
Variable P : S -> Prop.
Hypothesis walkFn_keeps :
  forall path info err st, P st -> P (snd (walkFn path info err st)).

Lemma walk_keeps :
  forall (e : entry) (path : string) (st : S),
    P st -> P (snd (Walk.walk S walkFn path e st)).
Proof.
  induction e as [n | n err | n err | n l IH] using entry_ind'; intros path st Hst.
  - apply walkFn_keeps. exact Hst.
  - apply walkFn_keeps. exact Hst.
  - apply walkFn_keeps. exact Hst.
  - rewrite walk_Dir.
    pose proof (walkFn_keeps path (Some true) None st Hst) as H1.
    destruct (walkFn path (Some true) None st) as [[err1|] st1]; [exact H1 |].
    cbn [snd] in H1. clear Hst. revert st1 H1.
    induction l as [|c l IHl]; intros st1 H1; [exact H1 |].
    inversion IH as [|? ? IHc IHl']; subst.
    cbn [walk_entries]. destruct c as [n' | n' listing | n' err].
    + pose proof (IHc (filepath_Join path (Walk.name_of (File n'))) st1 H1) as H2.
      destruct (Walk.walk S walkFn _ (File n') st1) as [[[|e]|] st2];
        cbn [snd Walk.IsDir] in *; auto.
    + pose proof (IHc (filepath_Join path (Walk.name_of (Dir n' listing))) st1 H1) as H2.
      destruct (Walk.walk S walkFn _ (Dir n' listing) st1) as [[[|e]|] st2];
        cbn [snd Walk.IsDir] in *; auto.
    + pose proof (walkFn_keeps (filepath_Join path (Walk.name_of (Broken n' err)))
                    None (Some err) st1 H1) as H2.
      destruct (walkFn _ None (Some err) st1) as [[[|e]|] st2]; cbn [snd] in *; auto.
Qed.

(** The entries of a directory, in two parts. *)
Lemma walk_entries_app (path : string) (l1 l2 : list entry) (st : S) :
  walk_entries S walkFn path (l1 ++ l2) st =
  match walk_entries S walkFn path l1 st with
  | (None, st') => walk_entries S walkFn path l2 st'
  | r => r
  end.
Proof.
  revert st. induction l1 as [|c l1 IH]; intros st; [reflexivity |].
  cbn [app walk_entries]. destruct c as [n' | n' listing | n' err].
  - destruct (Walk.walk S walkFn _ (File n') st) as [[[|e]|] st2];
      cbn [Walk.IsDir]; try reflexivity; apply IH.
  - destruct (Walk.walk S walkFn _ (Dir n' listing) st) as [[[|e]|] st2];
      cbn [Walk.IsDir]; try reflexivity; apply IH.
  - destruct (walkFn _ None (Some err) st) as [[[|e]|] st2]; try reflexivity; apply IH.
Qed.

End Keeping.

Section Found.

Context `{Externals}.

Local Open Scope string_scope.

(** Only eligible paths are collected, whatever the tree. *)
Lemma found_are_eligible (bp : BatchProcessor) (inputDir : string) (w : World) :
  Forall (fun path => eligible path = true) (fst (findImageFiles bp inputDir w)).
Proof.
  unfold findImageFiles, Walk.Walk.
  pose proof (walk_keeps (list string) (visit bp inputDir)
                (Forall (fun path => eligible path = true))) as Hk.
  assert (Hv : forall path info err st,
             Forall (fun path => eligible path = true) st ->
             Forall (fun path => eligible path = true)
               (snd (visit bp inputDir path info err st))).
  { intros path info err st Hst. unfold visit.
    destruct err as [err|]; [exact Hst |].
    assert (Hf : Forall (fun path => eligible path = true)
                   (snd (@None Walk.stop,
                         match_ext (GoString.ToLower (GoString.Ext path))
                           supportedExts path st))).
    { cbn [snd]. rewrite match_ext_eligible. apply Forall_app. split; [exact Hst |].
      cbn [filter]. destruct (eligible path) eqn:E; repeat constructor. exact E. }
    destruct info as [[|]|]; [| exact Hf | exact Hf].
    destruct (negb (recursive bp) && negb (path =? inputDir)%string); exact Hst. }
  specialize (Hk Hv (os_tree inputDir w) inputDir [] (Forall_nil _)).
  destruct (Walk.walk (list string) (visit bp inputDir) inputDir
              (os_tree inputDir w) []) as [[[|e]|] st]; exact Hk.
Qed.

(** The decoder of an eligible path. *)
Lemma eligible_decoder (path file : string) :
  eligible path = true ->
  decodeImage file path =
  if String.eqb (GoString.ToLower (GoString.Ext path)) ".png"
  then png_Decode file else jpeg_Decode file.
Proof.
  intros He. unfold decodeImage.
  destruct (String.eqb_spec (GoString.ToLower (GoString.Ext path)) ".png") as [E|E];
    [reflexivity |].
  apply eligible_iff in He. destruct He as [-> | [-> | He]]; [reflexivity .. | contradiction].
Qed.

(** X7: Whatever the tree, and also when the walk ends on an error, every
    path [findImageFiles] returns has one of the three extensions, so
    that [decodeImage] has a decoder for it: the PNG decoder for .png,
    the JPEG decoder for the two others, and never the error for an
    unsupported format. *)
Theorem discovered_files_have_decoders
    (bp : BatchProcessor) (inputDir : string) (w : World) :
  Forall (fun path =>
            eligible path = true /\
            forall file,
              decodeImage file path =
              if String.eqb (GoString.ToLower (GoString.Ext path)) ".png"
              then png_Decode file else jpeg_Decode file)
    (fst (findImageFiles bp inputDir w)).
Proof.
  refine (Forall_impl _ _ (found_are_eligible bp inputDir w)).
  intros path He. split; [exact He |].
  intros file. apply eligible_decoder. exact He.
Qed.

(** An entry that cannot be examined, or a directory that cannot be
    listed, carrying the error [e]. *)
Definition unreadable (c : entry) (e : error) : Prop :=
  match c with
  | Broken _ e' => e' = e
  | Dir _ (Err e') => e' = e
  | _ => False
  end.

Lemma root_visit (bp : BatchProcessor) (inputDir : string) (st : list string) :
  visit bp inputDir inputDir (Some true) None st = (None, st).
Proof.
  unfold visit. rewrite String.eqb_refl, andb_false_r. reflexivity.
Qed.

(** The entries of a listable root are all walked. *)
Lemma listable_entries (bp : BatchProcessor) (inputDir n : string) (pre : list entry)
    (st : list string) :
  listable (recursive bp) inputDir (Dir n (Ok pre)) ->
  walk_entries (list string) (visit bp inputDir) inputDir pre st =
  (None, (st ++ found (recursive bp) inputDir (Dir n (Ok pre)))%list).
Proof.
  intros Hl. unfold listable, found in *.
  destruct (recursive bp) eqn:Hrec.
  - pose proof (walk_recursive bp inputDir Hrec _ Hl inputDir st) as Hw.
    rewrite walk_Dir, root_visit in Hw. exact Hw.
  - pose proof (walk_top bp inputDir Hrec _ Hl st) as Hw.
    rewrite walk_Dir, root_visit in Hw. exact Hw.
Qed.

(** X8: The first entry of the input directory that cannot be examined or
    listed ends the discovery with its error, in both modes: also a
    subdirectory that the non-recursive mode would not have entered. The
    files found before it are returned with the error, and
    [ProcessDirectory] drops them: it fails, having changed nothing. *)
Theorem unreadable_entry_ends_discovery
    (bp : BatchProcessor) (inputDir outputDir n : string) (pre post : list entry)
    (bad : entry) (e : error) (m : Machine) :
  os_tree inputDir (world m) = Dir n (Ok (pre ++ bad :: post)%list) ->
  listable (recursive bp) inputDir (Dir n (Ok pre)) ->
  unreadable bad e ->
  findImageFiles bp inputDir (world m) =
    (found (recursive bp) inputDir (Dir n (Ok pre)), Some e) /\
  forall schedule,
    ProcessDirectory schedule bp inputDir outputDir m =
    Some (Failed (Wrapf "finding image files: %w" e), m).
Proof.
  intros Ht Hl Hbad.
  assert (Ef : findImageFiles bp inputDir (world m) =
               (found (recursive bp) inputDir (Dir n (Ok pre)), Some e)).
  { unfold findImageFiles, Walk.Walk. rewrite Ht, walk_Dir, root_visit.
    rewrite walk_entries_app, (listable_entries bp inputDir n pre [] Hl).
    cbn [app walk_entries].
    destruct bad as [n' | n' [l | e'] | n' e']; cbn [unreadable] in Hbad;
      try contradiction; subst e'.
    - cbn [Walk.walk]. reflexivity.
    - reflexivity. }
  split; [exact Ef |].
  intros schedule. unfold ProcessDirectory, setup. rewrite Ef. reflexivity.
Qed.

(** Every file of the root is a file below the root. *)
Lemma files_in_under (path : string) (e : entry) :
  incl (files_in path e) (files_under path e).
Proof.
  destruct e as [n | n [l | err] | n err]; try (intros p Hp; exact Hp).
  rewrite files_under_Dir. cbn [files_in].
  intros p Hp. apply in_flat_map in Hp. destruct Hp as (c & Hc & Hp).
  apply in_flat_map. exists c. split; [exact Hc |].
  destruct c as [n' | n' listing | n' err']; try contradiction.
  exact Hp.
Qed.

(** X9: On a tree that can be listed, what is found without the recursion
    is found with it. *)
Theorem recursion_finds_no_less
    (bp bp' : BatchProcessor) (inputDir : string) (w : World) :
  recursive bp = false ->
  recursive bp' = true ->
  readable_top inputDir (os_tree inputDir w) ->
  readable (os_tree inputDir w) ->
  incl (fst (findImageFiles bp inputDir w)) (fst (findImageFiles bp' inputDir w)).
Proof.
  intros Hf Ht Htop Hall.
  unfold findImageFiles, Walk.Walk.
  rewrite (walk_top bp inputDir Hf _ Htop), (walk_recursive bp' inputDir Ht _ Hall).
  cbn [fst app]. intros p Hp. apply filter_In in Hp. apply filter_In.
  split; [apply files_in_under |]; apply Hp.
Qed.

End Found.

(** An input directory with a subdirectory that cannot be listed. *)
Definition locked : Example.Disk := {|
  Example.tree :=
    Dir "in" (Ok [File "a.png"; Dir "private" (Err (Errorf "permission denied"));
                  File "z.png"]);
  Example.contents := [("in/a.png", "image"); ("in/z.png", "image")]%string;
  Example.readonly := [];
  Example.made := [];
  Example.written := []
|}.

Lemma unreadable_entry_ends_discovery_witness :
  @findImageFiles Example.toy (Example.batch false) "in" locked =
    (["in/a.png"%string], Some (Errorf "permission denied")) /\
  forall schedule,
    @ProcessDirectory Example.toy schedule (Example.batch false) "in" "out"
      (Example.boot locked) =
    Some (Failed (Wrapf "finding image files: %w" (Errorf "permission denied")),
          Example.boot locked).
Proof.
  exact (@unreadable_entry_ends_discovery Example.toy (Example.batch false) "in" "out" "in"
           [File "a.png"] [File "z.png"]
           (Dir "private" (Err (Errorf "permission denied")))
           (Errorf "permission denied") (Example.boot locked)
           eq_refl ltac:(repeat constructor) eq_refl).
Defined.

Lemma recursion_finds_no_less_witness :
  incl (fst (@findImageFiles Example.toy (Example.batch false) "in" Example.disk))
       (fst (@findImageFiles Example.toy (Example.batch true) "in" Example.disk)).
Proof.
  exact (@recursion_finds_no_less Example.toy (Example.batch false) (Example.batch true)
           "in" Example.disk eq_refl eq_refl
           ltac:(simpl; repeat constructor; discriminate)
           ltac:(simpl; tauto)).
Defined.

End Walks.

(** ** More on the worker pool *)

Module Scheduling.

Import PoolFacts.

Section Runs.

Context `{Externals}.

Local Open Scope string_scope.

Variable bp : BatchProcessor.
Variable imageFiles : list string.
Variables inputDir outputDir : string.

Hypothesis Hworkers : (1 <= workers bp <= max_int)%Z.

(** A run of so many steps. *)
Inductive steps : nat -> State -> State -> Prop :=
| steps_O (s : State) : steps 0 s s
| steps_S (n : nat) (s s1 s2 : State) :
    step bp imageFiles inputDir outputDir s s1 -> steps n s1 s2 -> steps (S n) s s2.

Lemma steps_reaches (n : nat) (s s' : State) : steps n s s' -> reaches bp imageFiles inputDir outputDir s s'.
Proof.
  induction 1 as [s | n s s1 s2 Hs _ IH]; [constructor |].
  econstructor; eassumption.
Qed.

(** Every step takes one at least off what is left to do. *)
Lemma steps_weight (n : nat) (s s' : State) :
  Inv bp imageFiles s -> steps n s s' ->
  n + weight bp imageFiles s' <= weight bp imageFiles s.
Proof.
  intros Hi Hs. induction Hs as [s | n s s1 s2 Hs _ IH]; [lia |].
  pose proof (step_weight bp imageFiles inputDir outputDir Hworkers s s1 Hi Hs).
  specialize (IH (step_Inv bp imageFiles inputDir outputDir Hworkers s s1 Hi Hs)). lia.
Qed.

(** A run under a schedule takes no more steps than the schedule has. *)
Lemma run_steps (schedule : list (thread * nat)) (s : State) :
  exists n, steps n s (run bp imageFiles inputDir outputDir schedule s).
Proof.
  revert s. induction schedule as [|[t fuel] schedule IH]; intros s.
  - exists 0. constructor.
  - cbn [run].
    destruct (step_thread bp imageFiles inputDir outputDir t fuel s) as [s1|] eqn:Es.
    + destruct (IH s1) as [n Hn]. exists (S n). econstructor; [| exact Hn].
      exists t, fuel. exact Es.
    + apply IH.
Qed.

(** The buffers of the two channels are never full when something is to
    be sent. *)
Lemma Inv_room (s : State) :
  Inv bp imageFiles s ->
  (forall j rest, main s = Offering j rest -> room (jobs s) = true) /\
  (forall k r, nth_error (pool s) k = Some (Sending r) -> room (results s) = true).
Proof.
  intros [Hcaps Hjobs (col & Hres & Htal) Hq Hph Hcl Hwg Hex Hpool Hdone].
  unfold room. destruct Hcaps as [-> ->].
  apply Permutation_length in Hjobs, Hres.
  rewrite !length_app, ?length_map in *.
  split.
  - intros j rest Em. unfold queued in Hq. rewrite Em in Hq.
    destruct Hq as (done & E & Hp). apply Permutation_length in Hp.
    apply Z.ltb_lt. unfold len. rewrite E.
    rewrite !length_app, ?length_map in *. cbn [List.length]. lia.
  - intros k r Hk.
    destruct (update_split _ _ _ Hk) as (pre & post & Epool & _).
    rewrite Epool, to_send_mid, !length_app in Hres. cbn [List.length] in Hres.
    assert (Hs : List.length (skipped s) + List.length (sent s)
                 <= List.length imageFiles).
    { unfold queued in Hq.
      destruct (main s) as [i | rest | j rest | res | res].
      - destruct Hq as [-> ->]. cbn. lia.
      - destruct Hq as (done & E & Hp). apply Permutation_length in Hp.
        rewrite E. rewrite !length_app, ?length_map in *. lia.
      - destruct Hq as (done & E & Hp). apply Permutation_length in Hp.
        rewrite E. rewrite !length_app, ?length_map in *. lia.
      - apply Permutation_length in Hq. rewrite !length_app, ?length_map in *. lia.
      - apply Permutation_length in Hq. rewrite !length_app, ?length_map in *. lia. }
    apply Z.ltb_lt. unfold len. lia.
Qed.

(** *** Where the jobs go *)

(** A job for a file that was discovered, to be written where
    [processFiles] computes its output path. *)
Definition addressed (j : job) : Prop :=
  In (inputPath j) imageFiles /\
  outputPath j = outputPath_of inputDir outputDir (inputPath j).

Definition Addressed (s : State) : Prop :=
  Forall addressed (sent s) /\
  match main s with
  | Queueing rest => incl rest imageFiles
  | Offering j rest => addressed j /\ incl rest imageFiles
  | _ => True
  end.

Lemma step_Addressed (s s' : State) : Addressed s -> step bp imageFiles inputDir outputDir s s' -> Addressed s'.
Proof.
  intros [Hsent Hm] (t & fuel & Hs). unfold Addressed.
  destruct t as [| k |]; cbn [step_thread] in Hs.
  - unfold step_main in Hs.
    destruct (main s) as [i | [|file rest] | j rest | res | res].
    + destruct (i <? workers bp)%Z; injection Hs as <-; cbn [sent main]; split; auto.
      apply incl_refl.
    + injection Hs as <-. cbn [sent main]. auto.
    + assert (Hrest : incl rest imageFiles)
        by (intros x Hx; apply Hm; right; exact Hx).
      destruct (os_MkdirAll _ _) as [[e|] w]; injection Hs as <-; cbn [sent main];
        split; auto.
      split; [| exact Hrest]. split; [apply Hm; left |]; reflexivity.
    + destruct (room (jobs s)); [| discriminate]. injection Hs as <-. cbn [sent main].
      destruct Hm as [Hj Hrest]. split; [| exact Hrest].
      apply Forall_app. split; [exact Hsent | constructor; [exact Hj | constructor]].
    + destruct (buf (results s)) as [|r rs].
      * destruct (closed (results s)); [| discriminate].
        injection Hs as <-. cbn [sent main]. auto.
      * injection Hs as <-. cbn [sent main]. auto.
    + discriminate.
  - unfold step_worker in Hs.
    destruct (nth_error (pool s) k) as [[| j | r |]|]; try discriminate.
    + destruct (buf (jobs s)) as [|j js].
      * destruct (closed (jobs s)); [| discriminate].
        injection Hs as <-. cbn [sent main]. auto.
      * injection Hs as <-. cbn [sent main]. auto.
    + destruct (ProcessFile _ _ _ _ _) as [[e m]|]; [| discriminate].
      injection Hs as <-. cbn [sent main]. auto.
    + destruct (room (results s)); [| discriminate].
      injection Hs as <-. cbn [sent main]. auto.
  - unfold step_closer in Hs. destruct (closer s); try discriminate.
    destruct (wg s =? 0)%Z; [| discriminate].
    injection Hs as <-. cbn [sent main]. auto.
Qed.

Lemma reaches_Addressed (s s' : State) : Addressed s -> reaches bp imageFiles inputDir outputDir s s' -> Addressed s'.
Proof.
  intros Ha Hr. induction Hr as [| s1 s2 s3 Hs _ IH]; [assumption |].
  apply IH. eapply step_Addressed; eassumption.
Qed.

(** *** What is logged *)

Definition is_level (l : level) (x : logEntry) : bool :=
  match l, lvl x with
  | Debug, Debug | Info, Info | Warn, Warn | Error_, Error_ => true
  | _, _ => false
  end.

(** The warning for a file whose output directory could not be made. *)
Definition warns (x : logEntry) (file : string) : Prop :=
  message x = "Failed to create output directory" /\
  exists e,
    fields x = [("error", FErr e);
                ("path", FStr (filepath_Dir (outputPath_of inputDir outputDir file)))].

(** The record of an entry of [Errors]. *)
Definition reports (x : logEntry) (b : BatchError) : Prop :=
  message x = "Failed to process image" /\
  exists e, Error b = Some e /\
            fields x = [("error", FErr e); ("file", FStr (FilePath b))].

(** What was logged since the start, seen from the state [s]. *)
Definition Logged (added : list logEntry) (s : State) : Prop :=
  filter (is_level Info) added = [] /\
  Forall2 warns (filter (is_level Warn) added) (skipped s) /\
  match main s with
  | Collecting res | Done res => Forall2 reports (filter (is_level Error_) added) (Errors res)
  | _ => filter (is_level Error_) added = []
  end.

(** [ProcessFile] logs nothing. *)
Lemma ProcessFile_logged (fuel : nat) (p : Processor) (inp out : string)
    (m m' : Machine) (r : option error) :
  ProcessFile fuel p inp out m = Some (r, m') -> logged m' = logged m.
Proof.
  unfold ProcessFile, bind, wrapping, lift. intros Hp.
  destruct (os_Open inp (world m)) as [data | e0]; [| congruence].
  destruct (decodeImage data inp) as [img | e0]; [| congruence].
  destruct (applyWatermark fuel p img m) as [[[o | e0] m1]|] eqn:Ea; [| | discriminate];
    apply Files.applyWatermark_state in Ea; subst m1; [| injection Hp as _ <-; reflexivity].
  unfold saveImage in Hp. cbn [world set_DefaultFont] in Hp.
  destruct (os_Create out (world m)) as [[e0|] w]; [injection Hp as _ <-; reflexivity |].
  cbn [world set_world] in Hp.
  match type of Hp with
  | context [match ?enc with Ok _ => _ | Err _ => _ end] =>
      destruct enc as [data' | e0]
  end; [| injection Hp as _ <-; reflexivity].
  destruct (file_Write out data' w) as [[e0|] w']; injection Hp as _ <-; reflexivity.
Qed.

Lemma step_Logged (m0 : Machine) (s s' : State) :
  (exists added, logged (machine s) = (logged m0 ++ added)%list /\ Logged added s) ->
  step bp imageFiles inputDir outputDir s s' ->
  exists added, logged (machine s') = (logged m0 ++ added)%list /\ Logged added s'.
Proof.
  intros (added & El & Hinfo & Hwarn & Herr) (t & fuel & Hs). unfold Logged.
  destruct t as [| k |]; cbn [step_thread] in Hs.
  - unfold step_main in Hs.
    destruct (main s) as [i | [|file rest] | j rest | res | res].
    + destruct (i <? workers bp)%Z; injection Hs as <-; exists added;
        cbn [machine skipped main]; auto.
    + injection Hs as <-. exists added. cbn [machine skipped main Errors].
      rewrite Herr. repeat split; auto.
    + destruct (os_MkdirAll _ _) as [[e|] w]; injection Hs as <-.
      * eexists (added ++ [_])%list. cbn [machine skipped main log logged set_world].
        split; [rewrite El, <- app_assoc; reflexivity |].
        rewrite !filter_app. cbn [filter is_level lvl]. rewrite !app_nil_r.
        split; [exact Hinfo |]. split; [| exact Herr].
        apply Forall2_app; [exact Hwarn |]. constructor; [| constructor].
        split; [reflexivity |]. exists e. reflexivity.
      * exists added. cbn [machine skipped main logged set_world]. auto.
    + destruct (room (jobs s)); [| discriminate]. injection Hs as <-.
      exists added. cbn [machine skipped main]. auto.
    + destruct (buf (results s)) as [|r rs].
      * destruct (closed (results s)); [| discriminate]. injection Hs as <-.
        exists added. cbn [machine skipped main]. auto.
      * injection Hs as <-. unfold collect_log, collect.
        destruct (err r) as [e|] eqn:Er.
        -- eexists (added ++ [_])%list. cbn [machine skipped main log logged Errors].
           split; [rewrite El, <- app_assoc; reflexivity |].
           rewrite !filter_app. cbn [filter is_level lvl]. rewrite !app_nil_r.
           split; [exact Hinfo |]. split; [exact Hwarn |].
           apply Forall2_app; [exact Herr |]. constructor; [| constructor].
           split; [reflexivity |]. exists e. split; reflexivity.
        -- eexists (added ++ [_])%list. cbn [machine skipped main log logged Errors].
           split; [rewrite El, <- app_assoc; reflexivity |].
           rewrite !filter_app. cbn [filter is_level lvl]. rewrite !app_nil_r.
           auto.
    + discriminate.
  - unfold step_worker in Hs.
    destruct (nth_error (pool s) k) as [[| j | r |]|]; try discriminate.
    + destruct (buf (jobs s)) as [|j js].
      * destruct (closed (jobs s)); [| discriminate]. injection Hs as <-.
        exists added. cbn [machine skipped main]. auto.
      * injection Hs as <-. exists added. cbn [machine skipped main]. auto.
    + destruct (ProcessFile _ _ _ _ _) as [[e m]|] eqn:Ep; [| discriminate].
      injection Hs as <-. exists added. cbn [machine skipped main].
      rewrite (ProcessFile_logged _ _ _ _ _ _ _ Ep). auto.
    + destruct (room (results s)); [| discriminate]. injection Hs as <-.
      exists added. cbn [machine skipped main]. auto.
  - unfold step_closer in Hs. destruct (closer s); try discriminate.
    destruct (wg s =? 0)%Z; [| discriminate]. injection Hs as <-.
    exists added. cbn [machine skipped main]. auto.
Qed.

Lemma reaches_Logged (m0 : Machine) (s s' : State) :
  (exists added, logged (machine s) = (logged m0 ++ added)%list /\ Logged added s) ->
  reaches bp imageFiles inputDir outputDir s s' ->
  exists added, logged (machine s') = (logged m0 ++ added)%list /\ Logged added s'.
Proof.
  intros Ha Hr. induction Hr as [| s1 s2 s3 Hs _ IH]; [assumption |].
  apply IH. eapply step_Logged; eassumption.
Qed.

(** *** What was processed *)

(** A job and the error some call to [ProcessFile] returned for it. *)
Definition called (x : job * option error) : Prop :=
  exists fuel m m',
    ProcessFile fuel (processor bp) (inputPath (fst x)) (outputPath (fst x)) m
    = Some (snd x, m').

Lemma step_called (s s' : State) :
  Forall called (processed s) -> step bp imageFiles inputDir outputDir s s' ->
  Forall called (processed s').
Proof.
  intros Hc (t & fuel & Hs).
  destruct t as [| k |]; cbn [step_thread] in Hs.
  - unfold step_main in Hs.
    destruct (main s) as [i | [|file rest] | j rest | res | res].
    + destruct (i <? workers bp)%Z; injection Hs as <-; exact Hc.
    + injection Hs as <-. exact Hc.
    + destruct (os_MkdirAll _ _) as [[e|] w]; injection Hs as <-; exact Hc.
    + destruct (room (jobs s)); [| discriminate]. injection Hs as <-. exact Hc.
    + destruct (buf (results s)) as [|r rs].
      * destruct (closed (results s)); [| discriminate]. injection Hs as <-. exact Hc.
      * injection Hs as <-. exact Hc.
    + discriminate.
  - unfold step_worker in Hs.
    destruct (nth_error (pool s) k) as [[| j | r |]|]; try discriminate.
    + destruct (buf (jobs s)) as [|j js].
      * destruct (closed (jobs s)); [| discriminate]. injection Hs as <-. exact Hc.
      * injection Hs as <-. exact Hc.
    + destruct (ProcessFile _ _ _ _ _) as [[e m]|] eqn:Ep; [| discriminate].
      injection Hs as <-. cbn [processed].
      apply Forall_app. split; [exact Hc |]. constructor; [| constructor].
      exists fuel, (machine s), m. exact Ep.
    + destruct (room (results s)); [| discriminate]. injection Hs as <-. exact Hc.
  - unfold step_closer in Hs. destruct (closer s); try discriminate.
    destruct (wg s =? 0)%Z; [| discriminate]. injection Hs as <-. exact Hc.
Qed.

Lemma reaches_called (s s' : State) :
  Forall called (processed s) -> reaches bp imageFiles inputDir outputDir s s' ->
  Forall called (processed s').
Proof.
  intros Ha Hr. induction Hr as [| s1 s2 s3 Hs _ IH]; [assumption |].
  apply IH. eapply step_called; eassumption.
Qed.

End Runs.

Section Pool.

Context `{Externals}.

(** X10: Every run of [processFiles] is finite, whatever the interleaving of
    its goroutines: it takes no more than two steps for each worker, six
    for each file and five more, a call to [ProcessFile] being one step. *)
Theorem every_run_is_bounded
    (bp : BatchProcessor) (imageFiles : list string) (inputDir outputDir : string)
    (m : Machine) (n : nat) (s : State) :
  made_by_NewBatchProcessor bp ->
  steps bp imageFiles inputDir outputDir n (initial imageFiles m) s ->
  (Z.of_nat n <= 2 * workers bp + 6 * len imageFiles + 5)%Z.
Proof.
  intros Hbp Hs.
  destruct (Batching.made_by_facts bp Hbp) as [_ Hw].
  pose proof (steps_weight bp imageFiles inputDir outputDir Hw n _ _
                (Inv_initial bp imageFiles Hw m) Hs) as Hn.
  unfold weight at 2 in Hn.
  cbn [initial main main_weight jobs make buf pool results closer closer_weight] in Hn.
  change (in_hand []) with (@nil job) in Hn.
  change (to_send []) with (@nil jobResult) in Hn.
  change (alive []) with 0 in Hn. cbn [List.length] in Hn.
  unfold len. lia.
Qed.

(** X11: The two channels have room for every file: in no state of a run is
    [processFiles] held up on sending a job, or a worker on sending its
    result. *)
Theorem sends_never_block
    (bp : BatchProcessor) (imageFiles : list string) (inputDir outputDir : string)
    (m : Machine) (s : State) :
  made_by_NewBatchProcessor bp ->
  reaches bp imageFiles inputDir outputDir (initial imageFiles m) s ->
  (forall j rest, main s = Offering j rest -> room (jobs s) = true) /\
  (forall k r, nth_error (pool s) k = Some (Sending r) -> room (results s) = true).
Proof.
  intros Hbp Hr.
  destruct (Batching.made_by_facts bp Hbp) as [_ Hw].
  apply (Inv_room bp imageFiles).
  eapply reaches_Inv; [exact Hw | apply Inv_initial; exact Hw | exact Hr].
Qed.

(** X12: In every state of a run, each call to [ProcessFile] made so far was
    for one of the files discovered, and with the output path
    [processFiles] computes for it: the path of the file relative to the
    input directory (its base name when there is none), under the output
    directory. *)
Theorem jobs_are_addressed
    (bp : BatchProcessor) (imageFiles : list string) (inputDir outputDir : string)
    (m : Machine) (s : State) :
  made_by_NewBatchProcessor bp ->
  reaches bp imageFiles inputDir outputDir (initial imageFiles m) s ->
  Forall (fun x =>
            In (inputPath (fst x)) imageFiles /\
            outputPath (fst x) =
              filepath_Join outputDir
                match filepath_Rel inputDir (inputPath (fst x)) with
                | Ok relPath => relPath
                | Err _ => filepath_Base (inputPath (fst x))
                end)
    (processed s).
Proof.
  intros Hbp Hr.
  destruct (Batching.made_by_facts bp Hbp) as [_ Hw].
  pose proof (reaches_Inv bp imageFiles inputDir outputDir Hw _ _
                (Inv_initial bp imageFiles Hw m) Hr) as Hi.
  assert (Ha : Addressed imageFiles inputDir outputDir s).
  { eapply reaches_Addressed; [| exact Hr]. split; [constructor | exact I]. }
  destruct Ha as [Hsent _]. rewrite Forall_forall in Hsent.
  apply Forall_forall. intros [j e] Hin. cbn [fst].
  apply (Hsent j).
  apply (Permutation_in _ (Permutation_sym (inv_jobs bp imageFiles s Hi))).
  apply in_or_app. right. apply in_or_app. right.
  apply in_map_iff. exists (j, e). split; [reflexivity | exact Hin].
Qed.

(** X13: What [processFiles] logs, in every state of a run: one warning for
    each file skipped, in order, naming the directory that could not be
    made (the one trace a skipped file leaves, the result not listing
    it); one error record for each entry of [Errors], in order, with its
    file and its error; and no record at the level of information. *)
Theorem log_accounts_for_skipped_and_failed
    (bp : BatchProcessor) (imageFiles : list string) (inputDir outputDir : string)
    (m : Machine) (s : State) :
  reaches bp imageFiles inputDir outputDir (initial imageFiles m) s ->
  exists added,
    logged (machine s) = logged m ++ added /\
    filter (is_level Info) added = [] /\
    Forall2 (warns inputDir outputDir) (filter (is_level Warn) added) (skipped s) /\
    forall res,
      main s = Collecting res \/ main s = Done res ->
      Forall2 reports (filter (is_level Error_) added) (Errors res).
Proof.
  intros Hr.
  destruct (reaches_Logged bp imageFiles inputDir outputDir m (initial imageFiles m) s)
    as (added & El & Hinfo & Hwarn & Herr); [| exact Hr |].
  { exists []. split; [cbn; rewrite app_nil_r; reflexivity |].
    repeat split; constructor. }
  exists added. repeat split; try assumption.
  intros res [Em | Em]; rewrite Em in Herr; exact Herr.
Qed.

End Pool.

(** The run of the small world in which out/sub cannot be made. *)
Lemma every_run_is_bounded_witness :
  exists n,
    @steps Example.toy (Example.batch true) Example.files3 "in" "out" n
      (initial Example.files3 (Example.ready Example.disk_readonly))
      (Example.final Example.disk_readonly) /\
    (Z.of_nat n <= 2 * 2 + 6 * 3 + 5)%Z.
Proof.
  destruct (@run_steps Example.toy (Example.batch true) Example.files3 "in" "out"
              (Example.round_robin 30)
              (initial Example.files3 (Example.ready Example.disk_readonly)))
    as [n Hn].
  exists n. split; [exact Hn |].
  exact (@every_run_is_bounded Example.toy (Example.batch true) Example.files3 "in" "out"
           (Example.ready Example.disk_readonly) n _
           (BatchingExamples.toy_made_by true) Hn).
Defined.

Lemma toy_reaches (d : Example.Disk) :
  @reaches Example.toy (Example.batch true) Example.files3 "in" "out"
    (initial Example.files3 (Example.ready d)) (Example.final d).
Proof. apply Batching.run_reaches. Qed.

(** The first job is out and its result ready while the second job is
    on offer: both sends are pending, and both have room. *)
Definition busy : State :=
  @run Example.toy (Example.batch true) Example.files3 "in" "out"
    (repeat (MainT, 100%nat) 8 ++ repeat (WorkerT 0, 100%nat) 2)
    (initial Example.files3 (Example.ready Example.disk)).

Lemma sends_never_block_witness :
  (exists j rest, main busy = Offering j rest) /\
  (exists r, nth_error (pool busy) 0 = Some (Sending r)) /\
  room (jobs busy) = true /\ room (results busy) = true.
Proof.
  assert (Em : exists j rest, main busy = Offering j rest)
    by (vm_compute; do 2 eexists; reflexivity).
  assert (Ep : exists r, nth_error (pool busy) 0 = Some (Sending r))
    by (vm_compute; eexists; reflexivity).
  destruct Em as (j & rest & Em). destruct Ep as (r & Ep).
  destruct (@sends_never_block Example.toy (Example.batch true) Example.files3
              "in" "out" (Example.ready Example.disk) busy
              (BatchingExamples.toy_made_by true)
              (Batching.run_reaches _ _ _ _ _ _)) as [Hj Hr].
  split; [exists j, rest; exact Em |].
  split; [exists r; exact Ep |].
  split; [exact (Hj j rest Em) | exact (Hr 0%nat r Ep)].
Defined.

Lemma jobs_are_addressed_witness :
  map (fun x => (inputPath (fst x), outputPath (fst x)))
    (processed (Example.final Example.disk)) =
    [("in/a.png", "out/a.png"); ("in/b.JPG", "out/b.JPG");
     ("in/sub/c.jpeg", "out/sub/c.jpeg")]%string /\
  Forall (fun x =>
            In (inputPath (fst x)) Example.files3 /\
            outputPath (fst x) =
              @filepath_Join Example.toy "out"
                match @filepath_Rel Example.toy "in" (inputPath (fst x)) with
                | Ok relPath => relPath
                | Err _ => @filepath_Base Example.toy (inputPath (fst x))
                end)
    (processed (Example.final Example.disk)).
Proof.
  split; [vm_compute; reflexivity |].
  exact (@jobs_are_addressed Example.toy (Example.batch true) Example.files3
           "in" "out" (Example.ready Example.disk) (Example.final Example.disk)
           (BatchingExamples.toy_made_by true) (toy_reaches Example.disk)).
Defined.

Lemma log_accounts_for_skipped_and_failed_witness :
  skipped (Example.final Example.disk_readonly) = ["in/sub/c.jpeg"%string] /\
  exists added,
    logged (machine (Example.final Example.disk_readonly))
      = logged (Example.ready Example.disk_readonly) ++ added /\
    Forall2 (@warns Example.toy "in" "out") (filter (is_level Warn) added)
      (skipped (Example.final Example.disk_readonly)).
Proof.
  split; [vm_compute; reflexivity |].
  destruct (@log_accounts_for_skipped_and_failed Example.toy (Example.batch true)
              Example.files3 "in" "out" (Example.ready Example.disk_readonly)
              (Example.final Example.disk_readonly) (toy_reaches Example.disk_readonly))
    as (added & El & _ & Hw & _).
  exists added. split; [exact El | exact Hw].
Defined.

End Scheduling.

(** ** The loading of the font *)

Module Fonts.

Section Loading.

Context `{FontLibs}.

Local Open Scope string_scope.

(** A system font path that exists and loads; one that does not. *)
Definition usable (w : World) (f : opentype_Font) (path : string) : Prop :=
  fileExists path w = true /\ loadFontFromPath path w = Ok f.

Definition unusable (w : World) (path : string) : Prop :=
  fileExists path w = false \/ exists e, loadFontFromPath path w = Err e.

(** No font path was given, or the font at the path given does not
    load. *)
Definition not_given (w : World) (fontPath : string) : Prop :=
  fontPath = "" \/ exists e, loadFontFromPath fontPath w = Err e.

(** The first usable path of a list. *)
Definition first_usable (w : World) (f : opentype_Font) (paths : list string) : Prop :=
  exists pre path post,
    paths = (pre ++ path :: post)%list /\ Forall (unusable w) pre /\ usable w f path.

Lemma fallback_Some (paths : list string) (w : World) (f : opentype_Font) :
  fallback paths w = Some f <-> first_usable w f paths.
Proof.
  unfold first_usable, usable, unusable.
  induction paths as [|p paths IH]; cbn [fallback].
  - split; [discriminate |]. intros (pre & path & post & E & _). destruct pre; discriminate.
  - destruct (fileExists p w) eqn:Ex.
    + destruct (loadFontFromPath p w) as [f' | e] eqn:El.
      * split.
        -- intros [= ->]. exists [], p, paths. repeat split; [constructor | assumption ..].
        -- intros (pre & path & post & E & Hpre & Hx & Hl).
           destruct pre as [|q pre]; cbn [app] in E; injection E as -> ->.
           ++ congruence.
           ++ inversion Hpre as [|? ? [Hq | [e Hq]] _]; congruence.
      * rewrite IH. split.
        -- intros (pre & path & post & -> & Hpre & Hu).
           exists (p :: pre), path, post. repeat split; try apply Hu.
           constructor; [right; eauto | assumption].
        -- intros (pre & path & post & E & Hpre & Hx & Hl).
           destruct pre as [|q pre]; cbn [app] in E; injection E as -> ->.
           ++ congruence.
           ++ inversion Hpre; subst. exists pre, path, post. auto.
    + rewrite IH. split.
      * intros (pre & path & post & -> & Hpre & Hu).
        exists (p :: pre), path, post. repeat split; try apply Hu.
        constructor; [left; assumption | assumption].
      * intros (pre & path & post & E & Hpre & Hx & Hl).
        destruct pre as [|q pre]; cbn [app] in E; injection E as -> ->.
        -- congruence.
        -- inversion Hpre; subst. exists pre, path, post. auto.
Qed.

Lemma fallback_None (paths : list string) (w : World) :
  fallback paths w = None <-> Forall (unusable w) paths.
Proof.
  unfold unusable. induction paths as [|p paths IH]; cbn [fallback].
  - split; [constructor | reflexivity].
  - destruct (fileExists p w) eqn:Ex.
    + destruct (loadFontFromPath p w) as [f' | e] eqn:El.
      * split; [discriminate |]. intros Hf.
        inversion Hf as [|? ? [Hq | [e Hq]] _]; congruence.
      * rewrite IH. split.
        -- intros Hf. constructor; [right; eauto | assumption].
        -- intros Hf. inversion Hf. assumption.
    + rewrite IH. split.
      * intros Hf. constructor; [left; exact Ex | assumption].
      * intros Hf. inversion Hf. assumption.
Qed.

(** What [LoadFont] does with the path it was given. *)
Lemma LoadFont_given (fm : FontManager) (fontPath : string) (w : World) :
  (fontPath <> "" /\ exists f, loadFontFromPath fontPath w = Ok f /\
                               LoadFont fm fontPath w = Ok f) \/
  (not_given w fontPath /\
   LoadFont fm fontPath w =
     match fallback (systemFontPaths fm) w with
     | Some font => Ok font
     | None => Err (ErrorfStr "no suitable font found. Tried: %s and system fonts" fontPath)
     end).
Proof.
  unfold LoadFont, not_given.
  destruct (String.eqb_spec fontPath "") as [E | E]; cbn [negb].
  - right. split; [left; exact E | reflexivity].
  - destruct (loadFontFromPath fontPath w) as [f | e].
    + left. split; [exact E |]. exists f. split; reflexivity.
    + right. split; [right; eauto | reflexivity].
Qed.

(** A font [LoadFont] returns is the one given or the first system font
    that loads. *)
Lemma LoadFont_Ok (fm : FontManager) (fontPath : string) (w : World) (f : opentype_Font) :
  LoadFont fm fontPath w = Ok f ->
  (fontPath <> "" /\ loadFontFromPath fontPath w = Ok f) \/
  (not_given w fontPath /\ first_usable w f (systemFontPaths fm)).
Proof.
  destruct (LoadFont_given fm fontPath w) as [(Hne & f' & Hl & ->) | (Hng & ->)].
  - intros [= ->]. left. split; assumption.
  - rewrite <- fallback_Some.
    destruct (fallback (systemFontPaths fm) w); [| discriminate].
    intros [= ->]. right. split; [exact Hng | reflexivity].
Qed.

(** X14: [LoadFont] returns the font at the path it was given when that path
    is not empty and the font loads; otherwise the font of the first
    system font path, in the order of the list, that exists and loads;
    and no other. *)
Theorem LoadFont_returns_first_that_loads
    (fm : FontManager) (fontPath : string) (w : World) (f : opentype_Font) :
  LoadFont fm fontPath w = Ok f <->
  (fontPath <> "" /\ loadFontFromPath fontPath w = Ok f) \/
  (not_given w fontPath /\
   exists pre path post,
     systemFontPaths fm = (pre ++ path :: post)%list /\
     Forall (unusable w) pre /\
     fileExists path w = true /\ loadFontFromPath path w = Ok f).
Proof.
  split; [apply LoadFont_Ok |].
  destruct (LoadFont_given fm fontPath w) as [(Hne & f' & Hl & ->) | (Hng & ->)].
  - intros [[_ Hf] | [[E | [e He]] _]]; congruence.
  - intros [[Hne Hf] | [_ Hu]].
    + destruct Hng as [E | [e He]]; congruence.
    + apply fallback_Some in Hu. rewrite Hu. reflexivity.
Qed.

(** The one error of [LoadFont]. *)
Lemma LoadFont_Err (fm : FontManager) (fontPath : string) (w : World) (e : error) :
  LoadFont fm fontPath w = Err e ->
  e = ErrorfStr "no suitable font found. Tried: %s and system fonts" fontPath.
Proof.
  destruct (LoadFont_given fm fontPath w) as [(Hne & f' & Hl & ->) | (Hng & ->)];
    [discriminate |].
  destruct (fallback (systemFontPaths fm) w); [discriminate |].
  intros [= <-]. reflexivity.
Qed.

(** X15: [LoadFont] fails exactly when the font at the path given does not
    load (or no path was given) and no system font path exists and
    loads. Its error names the path given and nothing else: why a file
    could not be read or parsed is not reported. *)
Theorem LoadFont_fails_without_cause
    (fm : FontManager) (fontPath : string) (w : World) :
  ((exists e, LoadFont fm fontPath w = Err e) <->
   not_given w fontPath /\ Forall (unusable w) (systemFontPaths fm)) /\
  forall e,
    LoadFont fm fontPath w = Err e ->
    e = ErrorfStr "no suitable font found. Tried: %s and system fonts" fontPath.
Proof.
  destruct (LoadFont_given fm fontPath w) as [(Hne & f' & Hl & ->) | (Hng & ->)].
  - split; [| discriminate]. split.
    + intros [e He]. discriminate.
    + intros [[E | [e He]] _]; congruence.
  - rewrite <- fallback_None.
    destruct (fallback (systemFontPaths fm) w) as [font|].
    + split; [| discriminate]. split.
      * intros [e He]. discriminate.
      * intros [_ Hn]. discriminate.
    + split; [| intros e [= <-]; reflexivity]. split; eauto.
Qed.

Lemma available_from_filter (paths : list string) (w : World) (available : list string) :
  available_from paths w available =
  (available ++ filter (fun path => fileExists path w) paths)%list.
Proof.
  revert available. induction paths as [|p paths IH]; intros available.
  - cbn. rewrite app_nil_r. reflexivity.
  - cbn [available_from filter]. rewrite IH.
    destruct (fileExists p w); [rewrite <- app_assoc |]; reflexivity.
Qed.

(** X16: [GetAvailableSystemFonts] returns the system font paths that exist,
    in the order of the list. A font that [LoadFont] returns was loaded
    from the path given or from one of them; and when there is none,
    [LoadFont] succeeds only with the font at the path given. *)
Theorem fallback_fonts_are_available (fm : FontManager) (w : World) :
  GetAvailableSystemFonts fm w =
    filter (fun path => fileExists path w) (systemFontPaths fm) /\
  (forall fontPath f,
     LoadFont fm fontPath w = Ok f ->
     (fontPath <> "" /\ loadFontFromPath fontPath w = Ok f) \/
     exists path, In path (GetAvailableSystemFonts fm w) /\
                  loadFontFromPath path w = Ok f) /\
  (GetAvailableSystemFonts fm w = [] ->
   forall fontPath f,
     LoadFont fm fontPath w = Ok f <->
     fontPath <> "" /\ loadFontFromPath fontPath w = Ok f).
Proof.
  assert (Ea : GetAvailableSystemFonts fm w =
               filter (fun path => fileExists path w) (systemFontPaths fm)).
  { unfold GetAvailableSystemFonts. rewrite available_from_filter. reflexivity. }
  split; [exact Ea |]. rewrite Ea. split.
  - intros fontPath f Hl. apply LoadFont_Ok in Hl.
    destruct Hl as [Hg | (_ & pre & path & post & E & _ & Hx & Hp)]; [left; exact Hg |].
    right. exists path. split; [| exact Hp].
    apply filter_In. split; [rewrite E; apply in_elt | exact Hx].
  - intros Hnone fontPath f. split.
    + intros Hl. apply LoadFont_Ok in Hl.
      destruct Hl as [Hg | (_ & pre & path & post & E & _ & Hx & Hp)]; [exact Hg |].
      exfalso. assert (Hin : In path (filter (fun path => fileExists path w)
                                        (systemFontPaths fm))).
      { apply filter_In. split; [rewrite E; apply in_elt | exact Hx]. }
      rewrite Hnone in Hin. exact Hin.
    + intros [Hne Hg].
      destruct (LoadFont_given fm fontPath w) as [(_ & f' & Hl & ->) | ([E | [e He]] & _)];
        congruence.
Qed.

End Loading.

End Fonts.

(** ** The first version of the command *)

Module LegacyFacts.

Lemma wrap_int_range (z : Z) : (min_int <= wrap_int z <= max_int)%Z.
Proof.
  unfold wrap_int, min_int, max_int.
  pose proof (Z.mod_pos_bound (z + 2 ^ 63) (2 ^ 64) ltac:(lia)). lia.
Qed.

(** Twice the half of a number that is not negative: the number, less
    one when it is odd. *)
Lemma twice_half (n : Z) :
  (0 <= n)%Z ->
  (0 <= Z.quot n 2 /\ 2 * Z.quot n 2 <= n /\
   2 * Z.quot n 2 = if Z.odd n then n - 1 else n)%Z.
Proof.
  intros Hn. rewrite Z.quot_div_nonneg by lia.
  pose proof (Z.div_mod n 2 ltac:(lia)) as Hd.
  pose proof (Zmod_odd n) as Ho.
  pose proof (Z.div_pos n 2 Hn ltac:(lia)).
  destruct (Z.odd n); lia.
Qed.

Section Old.

Context `{E : Externals} {F : @FontLibs E} {C : @Legacy.CanvasLibs E}.

(** The bounds of what [WaterMark] returns are the rectangle cut out. *)
Lemma WaterMark_Ok (fuel : nat) (img out : Image) (markText : string)
    (cfg : Legacy.WatermarkConfig) (m m' : Machine) :
  Legacy.WaterMark fuel img markText cfg m = Some (Ok out, m') ->
  Bounds out = Legacy.cutout img.
Proof.
  unfold Legacy.WaterMark. intros Hw.
  destruct (Legacy.tiled fuel img markText cfg) as [c|]; [| discriminate].
  destruct (image_Decode _) as [img'|]; [| discriminate].
  injection Hw as <- _. reflexivity.
Qed.

(** The rectangle cut out, when its corners are in the range of [int]:
    half the width on each side of [ctp], and half the height. *)
Lemma cutout_corners (img : Image) :
  let sx := Dx (Bounds img) in
  let sy := Dy (Bounds img) in
  let c := Legacy.ctp img in
  (0 <= sx)%Z -> (0 <= sy)%Z ->
  (min_int <= c - Z.quot sx 2)%Z -> (c + Z.quot sx 2 <= max_int)%Z ->
  (min_int <= c - Z.quot sy 2)%Z -> (c + Z.quot sy 2 <= max_int)%Z ->
  Legacy.cutout img =
    {| Img.Min := {| Img.X := c - Z.quot sx 2; Img.Y := c - Z.quot sy 2 |};
       Img.Max := {| Img.X := c + Z.quot sx 2; Img.Y := c + Z.quot sy 2 |} |}%Z.
Proof.
  intros sx sy c Hx Hy Hx0 Hx1 Hy0 Hy1.
  destruct (twice_half sx Hx) as (Hqx & _). destruct (twice_half sy Hy) as (Hqy & _).
  unfold Legacy.cutout. cbn [Img.Size Img.X Img.Y]. fold sx sy c.
  rewrite !PoolFacts.wrap_int_id by lia.
  unfold Rect.
  destruct (Z.ltb_spec (c + Z.quot sx 2) (c - Z.quot sx 2)); [lia |].
  destruct (Z.ltb_spec (c + Z.quot sy 2) (c - Z.quot sy 2)); [lia |].
  reflexivity.
Qed.

Lemma cutout_size (img : Image) :
  let sx := Dx (Bounds img) in
  let sy := Dy (Bounds img) in
  let c := Legacy.ctp img in
  (0 <= sx)%Z -> (0 <= sy)%Z ->
  (min_int <= c - Z.quot sx 2)%Z -> (c + Z.quot sx 2 <= max_int)%Z ->
  (min_int <= c - Z.quot sy 2)%Z -> (c + Z.quot sy 2 <= max_int)%Z ->
  Dx (Legacy.cutout img) = (2 * Z.quot sx 2)%Z /\
  Dy (Legacy.cutout img) = (2 * Z.quot sy 2)%Z.
Proof.
  intros sx sy c Hx Hy Hx0 Hx1 Hy0 Hy1.
  rewrite (cutout_corners img Hx Hy Hx0 Hx1 Hy0 Hy1). fold sx sy c.
  destruct (twice_half sx Hx) as (Hqx & Hlx & _).
  destruct (twice_half sy Hy) as (Hqy & Hly & _).
  pose proof (wrap_int_range (Img.X (Img.Max (Bounds img)) - Img.X (Img.Min (Bounds img))))
    as Rx.
  pose proof (wrap_int_range (Img.Y (Img.Max (Bounds img)) - Img.Y (Img.Min (Bounds img))))
    as Ry.
  fold (Dx (Bounds img)) in Rx. fold (Dy (Bounds img)) in Ry. fold sx in Rx. fold sy in Ry.
  unfold Dx at 1, Dy at 1. cbn [Img.Min Img.Max Img.X Img.Y].
  split; rewrite PoolFacts.wrap_int_id; unfold min_int in *; lia.
Qed.

(** X17: Unlike [applyWatermark], [WaterMark] does not return an image with
    the bounds of its input: the bounds are those of the rectangle it
    cuts out of the canvas, half the width and half the height of the
    input on each side of the centre. So the width and the height of the
    result are those of the input rounded down to even numbers: an image
    with an odd width comes back one pixel narrower. *)
Theorem WaterMark_rounds_down_to_even
    (fuel : nat) (img out : Image) (markText : string)
    (cfg : Legacy.WatermarkConfig) (m m' : Machine) :
  Legacy.WaterMark fuel img markText cfg m = Some (Ok out, m') ->
  let sx := Dx (Bounds img) in
  let sy := Dy (Bounds img) in
  let c := Legacy.ctp img in
  (0 <= sx)%Z -> (0 <= sy)%Z ->
  (min_int <= c - Z.quot sx 2)%Z -> (c + Z.quot sx 2 <= max_int)%Z ->
  (min_int <= c - Z.quot sy 2)%Z -> (c + Z.quot sy 2 <= max_int)%Z ->
  Img.Min (Bounds out) = {| Img.X := c - Z.quot sx 2; Img.Y := c - Z.quot sy 2 |}%Z /\
  Dx (Bounds out) = (if Z.odd sx then sx - 1 else sx)%Z /\
  Dy (Bounds out) = (if Z.odd sy then sy - 1 else sy)%Z.
Proof.
  intros Hw sx sy c Hx Hy Hx0 Hx1 Hy0 Hy1.
  rewrite (WaterMark_Ok _ _ _ _ _ _ _ Hw).
  destruct (cutout_size img Hx Hy Hx0 Hx1 Hy0 Hy1) as [Ex Ey].
  rewrite Ex, Ey. fold sx sy.
  rewrite (cutout_corners img Hx Hy Hx0 Hx1 Hy0 Hy1).
  destruct (twice_half sx Hx) as (_ & _ & ->).
  destruct (twice_half sy Hy) as (_ & _ & ->).
  repeat split.
Qed.

(** X18: The first version of the command reads its input as a JPEG and
    writes its output as one, at the quality 95, whatever the names of
    the two files; when it returns no error, what it has encoded and
    written has the width and the height of the input rounded down to
    even numbers. *)
Theorem processImage_writes_even_JPEG
    (fuel : nat) (inputPath outputPath : string)
    (cfg : Legacy.WatermarkConfig) (m m' : Machine) :
  Legacy.processImage fuel inputPath outputPath cfg m = Some (None, m') ->
  exists inputFile inputImage outputImage data w,
    os_Open inputPath (world m) = Ok inputFile /\
    jpeg_Decode inputFile = Ok inputImage /\
    jpeg_Encode outputImage 95 = Ok data /\
    os_Create outputPath (world m) = (None, w) /\
    file_Write outputPath data w = (None, world m') /\
    Bounds outputImage = Legacy.cutout inputImage /\
    let sx := Dx (Bounds inputImage) in
    let sy := Dy (Bounds inputImage) in
    let c := Legacy.ctp inputImage in
    ((0 <= sx)%Z -> (0 <= sy)%Z ->
     (min_int <= c - Z.quot sx 2)%Z -> (c + Z.quot sx 2 <= max_int)%Z ->
     (min_int <= c - Z.quot sy 2)%Z -> (c + Z.quot sy 2 <= max_int)%Z ->
     Dx (Bounds outputImage) = (if Z.odd sx then sx - 1 else sx)%Z /\
     Dy (Bounds outputImage) = (if Z.odd sy then sy - 1 else sy)%Z).
Proof.
  unfold Legacy.processImage. cbn [world log]. intros Hp.
  destruct (os_Open inputPath (world m)) as [inputFile | e] eqn:Eo; [| discriminate].
  destruct (jpeg_Decode inputFile) as [inputImage | e] eqn:Ed; [| discriminate].
  destruct (Legacy.WaterMark fuel _ _ cfg _) as [[[outputImage | e] m1]|] eqn:Ew;
    try discriminate.
  assert (Em1 : world m1 = world m).
  { unfold Legacy.WaterMark in Ew.
    destruct (Legacy.tiled _ _ _ _); [| discriminate].
    destruct (image_Decode _); [| discriminate].
    injection Ew as _ <-. reflexivity. }
  rewrite Em1 in Hp.
  destruct (os_Create outputPath (world m)) as [[e|] w] eqn:Ec; [discriminate |].
  cbn [world set_world] in Hp.
  destruct (jpeg_Encode outputImage 95) as [data | e] eqn:Ee; [| discriminate].
  destruct (file_Write outputPath data w) as [[e|] w'] eqn:Ef; [discriminate |].
  injection Hp as <-. cbn [world log set_world].
  exists inputFile, inputImage, outputImage, data, w.
  pose proof (WaterMark_Ok _ _ _ _ _ _ _ Ew) as Eb.
  change (Legacy.cutout (Legacy.copy_of inputImage)) with (Legacy.cutout inputImage) in Eb.
  split; [reflexivity |]. split; [exact Ed |]. split; [exact Ee |].
  split; [reflexivity |]. split; [exact Ef |]. split; [exact Eb |].
  cbv zeta. intros Hx Hy Hx0 Hx1 Hy0 Hy1. rewrite Eb.
  destruct (cutout_size inputImage Hx Hy Hx0 Hx1 Hy0 Hy1) as [Ex Ey].
  rewrite Ex, Ey.
  destruct (twice_half _ Hx) as (_ & _ & ->). destruct (twice_half _ Hy) as (_ & _ & ->).
  split; reflexivity.
Qed.

(** *** The loops of [WaterMark] *)

Local Open Scope Q_scope.

Variable fnt : font.Face.
Variable markText : string.





End Old.

Section Ending.

Context `{E : Externals} {F : @FontLibs E} {C : @Legacy.CanvasLibs E}.

Local Open Scope Q_scope.


End Ending.

Lemma WaterMark_rounds_down_to_even_witness :
  exists out m',
    @Legacy.WaterMark Example.toy Workbench.canvas 100 Workbench.img13 "ACME - 2024-03-09"
      Workbench.old_acme (Example.boot Example.disk) = Some (Ok out, m') /\
    Dx (Bounds Workbench.img13) = 13%Z /\
    Dx (Bounds out) = 12%Z /\
    Dy (Bounds out) = 16%Z.
Proof.
  destruct (@Legacy.WaterMark Example.toy Workbench.canvas 100 Workbench.img13
              "ACME - 2024-03-09" Workbench.old_acme (Example.boot Example.disk))
    as [[[out|] m']|] eqn:Ew; [| vm_compute in Ew; discriminate ..].
  exists out, m'. split; [reflexivity |]. split; [reflexivity |].
  destruct (@WaterMark_rounds_down_to_even Example.toy Workbench.canvas 100
              Workbench.img13 out "ACME - 2024-03-09" Workbench.old_acme
              (Example.boot Example.disk) m' Ew
              ltac:(vm_compute; discriminate) ltac:(vm_compute; discriminate)
              ltac:(vm_compute; discriminate) ltac:(vm_compute; discriminate)
              ltac:(vm_compute; discriminate) ltac:(vm_compute; discriminate))
    as (_ & Hx & Hy).
  split; [exact Hx | exact Hy].
Defined.

Lemma processImage_writes_even_JPEG_witness :
  exists m',
    @Legacy.processImage Example.toy Workbench.canvas 100 "in/a.png" "out/a.png"
      Workbench.old_acme (Example.boot Example.disk) = Some (None, m') /\
    exists outputImage,
      @jpeg_Encode Example.toy outputImage 95 = Ok "jpeg"%string /\
      Example.written (world m') = [("out/a.png", "jpeg")]%string.
Proof.
  destruct (@Legacy.processImage Example.toy Workbench.canvas 100 "in/a.png" "out/a.png"
              Workbench.old_acme (Example.boot Example.disk))
    as [[[e|] m']|] eqn:Ep; [vm_compute in Ep; discriminate | | vm_compute in Ep; discriminate].
  exists m'. split; [reflexivity |].
  destruct (@processImage_writes_even_JPEG Example.toy Workbench.canvas 100
              "in/a.png" "out/a.png" Workbench.old_acme (Example.boot Example.disk) m' Ep)
    as (inputFile & inputImage & outputImage & data & w & _ & _ & He & Hc & Hf & _).
  exists outputImage.
  assert (Ed : data = "jpeg"%string) by (cbn in He; congruence).
  split; [rewrite <- Ed; exact He |].
  cbn in Hc. injection Hc as <-. subst data. cbn in Hf. unfold Example.write_ in Hf.
  injection Hf as <-. reflexivity.
Defined.


End LegacyFacts.

(** ** The configuration the commands make *)

Module SettingsFacts.

Lemma uint8_range (n : Z) : (0 <= uint8 n < 256)%Z.
Proof. unfold uint8. apply Z.mod_pos_bound. lia. Qed.

Section Making.

Context `{E : Externals} {F : @FontLibs E} {V : ViperLibs}.

Local Open Scope string_scope.

(** X20: [CreateWatermarkConfig] fails only when no font can be loaded, with
    the error of [LoadFont] wrapped. The configuration it returns
    otherwise has the company name it was given, whatever that is, the
    current time, an angle of 0, a font, and a colour whose four
    channels are bytes, the alpha channel being the opacity; the sizes
    and the quality are those of the store, as they are:
    [CreateWatermarkConfig] checks none of them. *)
Theorem CreateWatermarkConfig_outcome
    (m : Settings.Manager) (companyName fontPath : string)
    (overrides : list (string * value)) (w : World) :
  let v := fold_left (fun v kv => viper_Set (fst kv) (snd kv) v) overrides
             (Settings.viper m) in
  let tried := if String.eqb fontPath "" then viper_GetString "font_path" v else fontPath in
  snd (Settings.CreateWatermarkConfig m companyName fontPath overrides w) =
    {| Settings.config := Settings.config m; Settings.viper := v |} /\
  match fst (Settings.CreateWatermarkConfig m companyName fontPath overrides w) with
  | Err e =>
      e = Wrapf "loading font: %w"
            (ErrorfStr "no suitable font found. Tried: %s and system fonts" tried)
  | Ok cfg =>
      CompanyName cfg = companyName /\
      Timestamp cfg = time_Now w /\
      Angle cfg = lit 0 /\
      Font cfg <> None /\
      Opacity cfg = A (WatermarkColor cfg) /\
      (0 <= Opacity cfg < 256)%Z /\
      (0 <= R (WatermarkColor cfg) < 256)%Z /\
      (0 <= G (WatermarkColor cfg) < 256)%Z /\
      (0 <= B (WatermarkColor cfg) < 256)%Z /\
      FontSize cfg = viper_GetFloat64 "font_size" v /\
      TextSpacing cfg = viper_GetFloat64 "text_spacing" v /\
      LineSpacing cfg = viper_GetFloat64 "line_spacing" v /\
      Quality cfg = viper_GetInt "quality" v
  end.
Proof.
  cbv zeta. unfold Settings.CreateWatermarkConfig.
  destruct (LoadFont _ _ w) as [font | e] eqn:El; cbn [fst snd].
  - split; [reflexivity |].
    cbn [CompanyName Timestamp Angle Font Opacity WatermarkColor R G B A
         FontSize TextSpacing LineSpacing Quality].
    repeat split; try apply uint8_range. discriminate.
  - split; [reflexivity |]. apply Fonts.LoadFont_Err in El. rewrite El. reflexivity.
Qed.

End Making.

End SettingsFacts.

(** ** The two commands *)

Module Commands.

Section Running.

Context `{E : Externals} {F : @FontLibs E} {V : ViperLibs} {K : Cmd.CommandLibs}.

Local Open Scope string_scope.

(** X21: The command that processes one file does not validate the
    configuration it makes: [ValidateConfig] is not called on the way
    from the flags to [ProcessFile]. When the font size and the line
    spacing of the configuration add up to zero or less (a font size of
    -30 with the default spacing), and the input decodes to an image
    with a diagonal above zero, [runProcess] does not return, whatever
    the fuel. *)
Theorem runProcess_does_not_validate
    (order : list (string * value) -> list (string * value))
    (cmd : Cmd.Command) (inputPath outputPath : string)
    (g : Viper) (configMgr configMgr' : Settings.Manager) (m : Machine)
    (cfg : Config) (data : string) (img : Image) (d s : Q) :
  Cmd.watermark_config order cmd g configMgr (world m) = (Ok cfg, configMgr') ->
  os_Open inputPath (world m) = Ok data ->
  decodeImage data inputPath = Ok img ->
  diagonal_of (pixels (Img.X (Img.Max (Bounds img))))
    (pixels (Img.Y (Img.Max (Bounds img)))) = Fin d ->
  (0 < d)%Q ->
  (FontSize cfg + LineSpacing cfg)%f64 = Fin s ->
  (s <= 0)%Q ->
  ValidateConfig (Some cfg) <> None /\
  forall fuel,
    Cmd.runProcess fuel order cmd inputPath outputPath g configMgr m = None.
Proof.
  intros Hc Ho Hd Hdiag Hpos Hs Hneg.
  split; [eapply Unvalidated.stalled_is_rejected; eassumption |].
  intros fuel. unfold Cmd.runProcess. cbn [world log]. rewrite Hc.
  unfold NewProcessor.
  match goal with
  | |- context [ProcessFile fuel ?p inputPath outputPath ?m1] =>
      rewrite (Unvalidated.ProcessFile_stalls p inputPath outputPath data img m1 d s)
  end; try assumption; try reflexivity.
  cbn [config]. destruct (IsZero (Timestamp cfg)); exact Hs.
Qed.

(** X22: The number of workers of the processor that [runBatch] makes: the
    one the flag asks for when that is positive; when the flag is 0 the
    default of the configuration if that is positive; and 4 in every
    other case, so also for a negative flag, which does not fall back on
    the default of the configuration. *)
Theorem runBatch_workers
    (g : Viper) (configMgr : Settings.Manager) (cfg : Config)
    (bp : BatchProcessor) (m m' : Machine) :
  NewBatchProcessor (Some cfg) (Cmd.batchOptions_of g configMgr) m = Some (Ok bp, m') ->
  let flag := viper_GetInt "workers" g in
  let default := Settings.App.DefaultWorkers (Settings.GetAppConfig configMgr) in
  workers bp =
    (if (0 <? flag)%Z then flag
     else if (flag =? 0)%Z && (0 <? default)%Z then default
     else 4%Z) /\
  (1 <= workers bp)%Z.
Proof.
  unfold NewBatchProcessor, Cmd.batchOptions_of. cbv zeta.
  destruct (ValidateConfig (Some cfg)); [discriminate |].
  unfold bind, NewProcessor, ret. intros [= <- _]. cbn [workers Workers].
  set (flag := viper_GetInt "workers" g).
  set (default := Settings.App.DefaultWorkers (Settings.GetAppConfig configMgr)).
  destruct (Z.eqb_spec flag 0) as [E0 | E0]; cbn [andb].
  - rewrite E0. cbn [Z.ltb Z.compare].
    destruct (Z.leb_spec default 0), (Z.ltb_spec 0 default); split; lia.
  - destruct (Z.leb_spec flag 0), (Z.ltb_spec 0 flag); split; lia.
Qed.

(** X23: [runBatch] returns an error only when no font can be loaded, when
    the configuration is rejected, or when [ProcessDirectory] fails at
    the level of the directories (the input could not be enumerated, it
    holds no image file, the output directory could not be made). Once
    [ProcessDirectory] has returned a result, [runBatch] reports it in
    the log and returns nil, however many of the files failed. *)
Theorem runBatch_fails_only_before_the_files
    (schedule : list (thread * nat))
    (order : list (string * value) -> list (string * value))
    (cmd : Cmd.Command) (inputDir outputDir : string)
    (g : Viper) (configMgr configMgr' : Settings.Manager) (m m' : Machine)
    (r : option error) :
  Cmd.runBatch schedule order cmd inputDir outputDir g configMgr m
    = Some (r, configMgr', m') ->
  match r with
  | Some e =>
      (exists c, e = Wrapf "creating watermark config: %w" (Wrapf "loading font: %w" c)) \/
      (exists c, e = Wrapf "creating batch processor: %w" (Wrapf "invalid config: %w" c)) \/
      (exists c, e = Wrapf "processing directory: %w" (Wrapf "finding image files: %w" c)) \/
      e = Wrapf "processing directory: %w" (ErrorfStr "no image files found in %s" inputDir) \/
      (exists c,
         e = Wrapf "processing directory: %w" (Wrapf "creating output directory: %w" c))
  | None =>
      exists bp res m1 m2,
        ProcessDirectory schedule bp inputDir outputDir m1 = Some (Returned res, m2) /\
        m' = Cmd.report res m2
  end.
Proof.
  unfold Cmd.runBatch, Cmd.watermark_config. cbn [world log]. intros Hr.
  pose proof (SettingsFacts.uint8_range 0) as _.
  destruct (Settings.CreateWatermarkConfig _ _ _ _ _) as [[cfg | e] mgr1] eqn:Ec.
  2:{ injection Hr as <- _ _.
      unfold Settings.CreateWatermarkConfig in Ec.
      destruct (LoadFont _ _ _) as [font | e0]; [discriminate |].
      injection Ec as <- _. left. eauto. }
  destruct (NewBatchProcessor (Some cfg) _ _) as [[[bp | e] m1]|] eqn:En; [| | discriminate].
  2:{ injection Hr as <- _ _. right. left.
      unfold NewBatchProcessor in En.
      destruct (ValidateConfig (Some cfg)) as [ev|]; [| discriminate].
      injection En as <- _. eauto. }
  destruct (ProcessDirectory schedule bp inputDir outputDir m1) as [[[e | res] m2]|] eqn:Ep;
    [| | discriminate].
  - injection Hr as <- _ _. right. right.
    unfold ProcessDirectory, setup in Ep.
    destruct (findImageFiles bp inputDir (world m1)) as [files [ef|]].
    { injection Ep as <- _. left. eauto. }
    destruct (len files =? 0)%Z.
    { injection Ep as <- _. right. left. reflexivity. }
    destruct (os_MkdirAll outputDir _) as [[em|] w].
    { injection Ep as <- _. right. right. eauto. }
    destruct (main _); discriminate.
  - injection Hr as <- _ <-. exists bp, res, m1, m2. split; [exact Ep | reflexivity].
Qed.

End Running.

(** The flag --size -30 on the small world. *)
Definition minus_thirty : list (string * value) := [("font_size"%string, VFloat (lit (-30)))].

Lemma runProcess_does_not_validate_witness :
  (exists cfg configMgr',
     @Cmd.watermark_config Example.toy Workbench.fonts Workbench.store Workbench.flags
       Workbench.in_order ["size"%string] minus_thirty Workbench.manager
       (world (Example.boot Workbench.studio)) = (Ok cfg, configMgr') /\
     FontSize cfg = lit (-30) /\
     ValidateConfig (Some cfg) <> None) /\
  forall fuel,
    @Cmd.runProcess Example.toy Workbench.fonts Workbench.store Workbench.flags
      fuel Workbench.in_order ["size"%string] "in/a.png" "out/a.png"
      minus_thirty Workbench.manager (Example.boot Workbench.studio) = None.
Proof.
  destruct (@Cmd.watermark_config Example.toy Workbench.fonts Workbench.store Workbench.flags
              Workbench.in_order ["size"%string] minus_thirty Workbench.manager
              (world (Example.boot Workbench.studio)))
    as [[cfg | e] configMgr'] eqn:Ec; [| vm_compute in Ec; discriminate].
  assert (Es : FontSize cfg = lit (-30) /\ LineSpacing cfg = lit 30).
  { vm_compute in Ec. injection Ec as <- _. split; reflexivity. }
  destruct Es as [Ef El].
  destruct (@runProcess_does_not_validate Example.toy Workbench.fonts Workbench.store
              Workbench.flags Workbench.in_order ["size"%string] "in/a.png" "out/a.png"
              minus_thirty Workbench.manager configMgr' (Example.boot Workbench.studio)
              cfg "image" Example.img12 15 0 Ec eq_refl eq_refl eq_refl eq_refl)
    as [Hv Hn].
  - rewrite Ef, El. reflexivity.
  - discriminate.
  - split; [exists cfg, configMgr'; repeat split; assumption | exact Hn].
Defined.

(** The flag --workers -3 with a default of 8 workers: 4 workers. *)
Lemma runBatch_workers_witness :
  exists bp m',
    @NewBatchProcessor Example.toy (Some Example.acme)
      (@Cmd.batchOptions_of Workbench.store
         [("workers"%string, VInt (-3))] Workbench.eager)
      (Example.boot Workbench.studio) = Some (Ok bp, m') /\
    workers bp = 4%Z.
Proof.
  destruct (@NewBatchProcessor Example.toy (Some Example.acme)
              (@Cmd.batchOptions_of Workbench.store
                 [("workers"%string, VInt (-3))] Workbench.eager)
              (Example.boot Workbench.studio))
    as [[[bp | e] m']|] eqn:En; [| vm_compute in En; discriminate ..].
  exists bp, m'. split; [reflexivity |].
  exact (proj1 (@runBatch_workers Example.toy Workbench.store
                  [("workers"%string, VInt (-3))] Workbench.eager Example.acme
                  bp (Example.boot Workbench.studio) m' En)).
Defined.

(** Both images of the small world corrupt, two workers: [runBatch]
    reports two errors out of two files and returns nil. *)
Lemma runBatch_fails_only_before_the_files_witness :
  option_map (fun x => fst (fst x))
    (@Cmd.runBatch Example.toy Workbench.fonts Workbench.store Workbench.flags
       (Example.round_robin 30) Workbench.in_order [] "in" "out"
       Workbench.two_workers Workbench.manager (Example.boot Workbench.ruined))
  = Some None /\
  exists bp res m1 m2,
    @ProcessDirectory Example.toy (Example.round_robin 30) bp "in" "out" m1
      = Some (Returned res, m2).
Proof.
  split; [vm_compute; reflexivity |].
  destruct (@Cmd.runBatch Example.toy Workbench.fonts Workbench.store Workbench.flags
              (Example.round_robin 30) Workbench.in_order [] "in" "out"
              Workbench.two_workers Workbench.manager (Example.boot Workbench.ruined))
    as [[[r mgr'] m']|] eqn:Er; [| vm_compute in Er; discriminate].
  destruct r as [e|]; [vm_compute in Er; discriminate |].
  destruct (@runBatch_fails_only_before_the_files Example.toy Workbench.fonts Workbench.store
              Workbench.flags (Example.round_robin 30) Workbench.in_order [] "in" "out"
              Workbench.two_workers Workbench.manager mgr'
              (Example.boot Workbench.ruined) m' None Er)
    as (bp & res & m1 & m2 & Hp & _).
  exists bp, res, m1, m2. exact Hp.
Defined.

End Commands.

(** ** The fields of the configuration that are not used *)

Module Unused.

Definition with_Angle (a : float64) (c : Config) : Config :=
  {| CompanyName := CompanyName c; Timestamp := Timestamp c; FontSize := FontSize c;
     Opacity := Opacity c; Angle := a; Font := Font c;
     TextSpacing := TextSpacing c; LineSpacing := LineSpacing c;
     Quality := Quality c; WatermarkColor := WatermarkColor c |}.

Definition with_Opacity (o : Z) (c : Config) : Config :=
  {| CompanyName := CompanyName c; Timestamp := Timestamp c; FontSize := FontSize c;
     Opacity := o; Angle := Angle c; Font := Font c;
     TextSpacing := TextSpacing c; LineSpacing := LineSpacing c;
     Quality := Quality c; WatermarkColor := WatermarkColor c |}.

(** The configuration of the first version with another angle, another
    company name and another timestamp. *)
Definition turned (a : float64) (name : string) (t : Time) (c : Legacy.WatermarkConfig)
    : Legacy.WatermarkConfig :=
  {| Legacy.CompanyName := name; Legacy.Timestamp := t;
     Legacy.FontSize := Legacy.FontSize c; Legacy.Opacity := Legacy.Opacity c;
     Legacy.Angle := a; Legacy.Font := Legacy.Font c |}.

Section Fields.

Context `{E : Externals} {F : @FontLibs E} {C : @Legacy.CanvasLibs E}.

(** X24: The angle of the configuration is read nowhere: whatever it is, the
    configuration is validated, the image rendered and the file
    processed in the same way, and the texts of a row are painted at the
    same vertical offset. Nor is the opacity field, the alpha channel of
    the colour apart. In the first version of the command the angle (34
    degrees unless the flag says otherwise) is not read by [WaterMark]
    either, which takes the text from its argument and not from the
    configuration. *)
Theorem angle_is_never_used
    (fuel : nat) (cfg : Config) (old : Legacy.WatermarkConfig) (a : float64) (o : Z)
    (name markText inputPath outputPath : string) (t : Time) (img : Image) (m : Machine) :
  let cfg' := with_Opacity o (with_Angle a cfg) in
  ValidateConfig (Some cfg') = ValidateConfig (Some cfg) /\
  tiled fuel cfg' img = tiled fuel cfg img /\
  applyWatermark fuel {| config := cfg' |} img m
    = applyWatermark fuel {| config := cfg |} img m /\
  ProcessFile fuel {| config := cfg' |} inputPath outputPath m
    = ProcessFile fuel {| config := cfg |} inputPath outputPath m /\
  Legacy.WaterMark fuel img markText (turned a name t old) m
    = Legacy.WaterMark fuel img markText old m.
Proof.
  cbv zeta. split; [reflexivity |]. split; [reflexivity |].
  split; [reflexivity |]. split; reflexivity.
Qed.

End Fields.

End Unused.

(** ** The errors a batch reports *)

Module Reports.

Import PoolFacts.

Section Errors.

Context `{Externals}.

Local Open Scope string_scope.

(** X25: Every entry of [Errors] in a result of [ProcessDirectory] is for a
    file with one of the three extensions, and carries the error a call
    to [ProcessFile] returned for that file, which names the stage that
    failed: the opening, the decoding, the rendering or the saving. When
    it is the decoding, the cause is the error of the PNG decoder or of
    the JPEG decoder: no file of a batch is turned down for its
    extension. *)
Theorem batch_errors_name_their_stage
    (bp : BatchProcessor) (inputDir outputDir : string) (m : Machine)
    (res : BatchResult) (s : State) :
  made_by_NewBatchProcessor bp ->
  (len (discovered bp inputDir m) <= max_int)%Z ->
  ProcessDirectory_ends bp inputDir outputDir m res s ->
  Forall (fun b =>
            eligible (FilePath b) = true /\
            exists cause,
              Error b = Some (Wrapf "opening input file: %w" cause) \/
              (Error b = Some (Wrapf "decoding image: %w" cause) /\
               exists file, png_Decode file = Err cause \/ jpeg_Decode file = Err cause) \/
              Error b = Some (Wrapf "applying watermark: %w" cause) \/
              Error b = Some (Wrapf "saving image: %w" cause))
    (Errors res).
Proof.
  intros Hbp Hlen He.
  destruct (Batching.ends_facts bp inputDir outputDir m res s Hbp Hlen He)
    as (Hsent & Hq & col & Hcol & _ & He' & _ & _).
  destruct He as (imageFiles & m1 & Hs & Hr & Hd).
  assert (Hc : Forall (Scheduling.called bp) (processed s)).
  { eapply Scheduling.reaches_called; [| exact Hr]. constructor. }
  rewrite Forall_forall in Hc.
  pose proof (Walks.found_are_eligible bp inputDir (world m)) as Hel.
  rewrite Forall_forall in Hel.
  rewrite He'. apply Forall_forall. intros b Hb.
  apply failures_In in Hb. destruct Hb as (r & e & Hin & Er & ->).
  apply (Permutation_in _ (Permutation_sym Hcol)) in Hin.
  apply in_map_iff in Hin. destruct Hin as ([j e'] & <- & Hin).
  cbn in Er. subst e'. cbn [FilePath Error result_of resultPath fst].
  assert (Hfile : eligible (inputPath j) = true).
  { apply Hel. unfold discovered in Hq. apply (Permutation_in _ Hq).
    apply in_or_app. right. apply in_map.
    apply (Permutation_in _ (Permutation_sym Hsent)).
    apply in_map_iff. exists (j, Some e). split; [reflexivity | exact Hin]. }
  split; [exact Hfile |].
  destruct (Hc _ Hin) as (fuel & m2 & m3 & Hp). cbn [fst snd] in Hp.
  destruct (Files.ProcessFile_error_detail _ _ _ _ _ _ _ Hp)
    as (cause & [-> | [[-> (file & Hdec)] | [-> | ->]]]); exists cause; auto.
  right. left. split; [reflexivity |]. exists file.
  rewrite (Walks.eligible_decoder _ file Hfile) in Hdec.
  destruct (String.eqb _ ".png"); auto.
Qed.

End Errors.

(** The run of the small world: one entry, for the corrupt file. *)
Lemma batch_errors_name_their_stage_witness :
  Errors Example.result3 = [Example.corrupt_b] /\
  Forall (fun b =>
            eligible (FilePath b) = true /\
            exists cause,
              Error b = Some (Wrapf "opening input file: %w" cause) \/
              (Error b = Some (Wrapf "decoding image: %w" cause) /\
               exists file, @png_Decode Example.toy file = Err cause \/
                            @jpeg_Decode Example.toy file = Err cause) \/
              Error b = Some (Wrapf "applying watermark: %w" cause) \/
              Error b = Some (Wrapf "saving image: %w" cause))
    (Errors Example.result3).
Proof.
  split; [reflexivity |].
  exact (@batch_errors_name_their_stage Example.toy (Example.batch true) "in" "out"
           (Example.boot Example.disk) Example.result3 (Example.final Example.disk)
           (BatchingExamples.toy_made_by true) ltac:(vm_compute; discriminate)
           BatchingExamples.toy_ends).
Defined.

End Reports.
